(** * LibRecommender: feature indexing and negative sampling

    A shallow embedding of
    - [dataset/preprocessing.py] (class [FeatureBuilder]) and
    - [distributed/new_features/utils/samplingNEW.py]
      (class [NegativeSamplingFeat]),
    followed by the properties of the two components.

    Python dictionaries that are only looked up are finite maps, the
    dictionaries that are iterated ([.items()], insertion order) are
    association lists, numpy arrays are lists (of rows), and a method that
    may raise returns in the [run] monad below. *)

From stdpp Require Import gmap strings list sorting.
From Stdlib Require Import ZArith Lia.

Local Open Scope Z_scope.

(** ** Exceptions and loops that may not end *)

Inductive exn : Set :=
  | AttributeError | TypeError | ValueError | KeyError | IndexError
  | AssertionError.

Inductive run (A : Type) : Type :=
  | Ok (a : A)
  | Raise (e : exn)
  | OutOfFuel.
Arguments Ok {A} a.
Arguments Raise {A} e.
Arguments OutOfFuel {A}.

Global Instance run_ret : MRet run := @Ok.
Global Instance run_bind : MBind run := λ A B f m,
  match m with
  | Ok a => f a
  | Raise e => Raise e
  | OutOfFuel => OutOfFuel
  end.

Definition expect {A} (e : exn) (o : option A) : run A :=
  match o with
  | Some a => Ok a
  | None => Raise e
  end.

(** ** The numpy and pandas operations the two classes use *)

Module Np.

(** [.astype(np.int32)] on an integer: two's complement wrap-around.  An
    array that holds a [fillna] result is a float64 array of whole
    numbers; its cast agrees with this one on the int32 range. *)
Definition int32_min : Z := - 2 ^ 31.
Definition int32_max : Z := 2 ^ 31 - 1.
Definition astype_int32 (z : Z) : Z := (z + 2 ^ 31) mod 2 ^ 32 - 2 ^ 31.

(** [np.unique(v)]: the sorted distinct values. *)
Fixpoint unique_insert (x : Z) (l : list Z) : list Z :=
  match l with
  | [] => [x]
  | y :: l' =>
      if decide (x < y) then x :: l
      else if decide (x = y) then l
      else y :: unique_insert x l'
  end.

Definition unique (v : list Z) : list Z := foldr unique_insert [] v.

(** Position of [x] in [l] (the length of [l] when it is absent). *)
Fixpoint position (x : Z) (l : list Z) : nat :=
  match l with
  | [] => O
  | y :: l' => if decide (x = y) then O else S (position x l')
  end.

(** [np.unique(v, return_inverse=True)]. *)
Definition unique_inverse (v : list Z) : list Z * list Z :=
  let u := unique v in
  (u, (λ x, Z.of_nat (position x u)) <$> v).

(** [np.array(cols).T]: the columns must all have one length. *)
Definition array_T {A} (cols : list (list A)) : run (list (list A)) :=
  match cols with
  | [] => Ok []
  | c :: _ =>
      if decide (Forall (λ c', length c' = length c) cols)
      then expect ValueError
             (mapM (λ r, mapM (λ c', c' !! r) cols) (seq 0 (length c)))
      else Raise ValueError
  end.

(** An entry-wise cast of a two-dimensional array. *)
Definition astype {A B} (f : A → B) (a : list (list A)) : list (list B) :=
  map (map f) a.

(** The entry of row [r] and column [c]. *)
Definition cell {A} (a : list (list A)) (r c : nat) : option A :=
  a !! r ≫= (λ row, row !! c).

(** [[x] * n] on a Python list: empty when [n <= 0]. *)
Definition times {A} (x : A) (n : Z) : list A := replicate (Z.to_nat n) x.

(** [d.update(pairs)]: later pairs win. *)
Definition dict_update (d : gmap Z Z) (pairs : list (Z * Z)) : gmap Z Z :=
  foldl (λ d kv, <[kv.1 := kv.2]> d) d pairs.

(** [pd.Series(v).map(d).fillna(x)]. *)
Definition series_map (d : gmap Z Z) (v : list Z) : list (option Z) :=
  (λ x, d !! x) <$> v.
Definition fillna (x : Z) (s : list (option Z)) : list Z :=
  default x <$> s.

(** [a[i]] for one Python integer [i]: negative indices count from the
    end. *)
Definition getitem {A} (a : list A) (i : Z) : option A :=
  if decide (0 ≤ i) then a !! Z.to_nat i
  else if decide (- Z.of_nat (length a) ≤ i)
       then a !! Z.to_nat (Z.of_nat (length a) + i)
       else None.

(** [a[idx]] for an integer index array. *)
Definition take_rows {A} (a : list A) (idx : list nat) : run (list A) :=
  expect IndexError (mapM (λ i, a !! i) idx).

(** [np.take(a, cols, axis=1)]. *)
Definition take_cols {A} (cols : list nat) (a : list (list A))
  : run (list (list A)) :=
  expect IndexError (mapM (λ row, mapM (λ c, row !! c) cols) a).

(** [np.repeat(a, n, axis=0)]. *)
Definition repeat_rows {A} (n : Z) (a : list A) : run (list A) :=
  if decide (n < 0) then Raise ValueError
  else Ok (a ≫= replicate (Z.to_nat n)).

(** [np.argsort(keys)]: insertion of (key, position) pairs by key.  Equal
    keys keep their order here; numpy leaves their order open, and the
    statements below are about distinct keys. *)
Fixpoint insert_by_key (p : nat * nat) (l : list (nat * nat))
  : list (nat * nat) :=
  match l with
  | [] => [p]
  | q :: l' =>
      if decide (p.1 ≤ q.1)%nat then p :: l else q :: insert_by_key p l'
  end.

Definition sort_by_key (l : list (nat * nat)) : list (nat * nat) :=
  foldr insert_by_key [] l.

Definition argsort (keys : list nat) : list nat :=
  (sort_by_key (zip keys (seq 0 (length keys)))).*2.

(** The index list of the slice [start::step] of an array, [count]
    entries long. *)
Fixpoint strided (start step count : nat) : list nat :=
  match count with
  | O => []
  | S c => start :: strided (start + step) step c
  end.

End Np.

(** ** [FeatureBuilder] (dataset/preprocessing.py) *)

Module FeatureBuilder.

(** The attributes [fit] creates. *)
Record fitted : Type := {
  total_count : Z;
  val_index_dict : gmap string (gmap Z Z);  (* a [defaultdict(dict)] *)
  feature_size : Z }.

(** The object: the four attributes of [__init__], and those of [fit]
    once it has run. *)
Record t : Type := {
  value_sharing : bool;
  include_user_item : bool;
  n_users : option Z;
  n_items : option Z;
  state : option fitted }.

Definition __init__ (value_sharing include_user_item : bool)
    (n_users n_items : option Z) : t :=
  {| value_sharing := value_sharing;
     include_user_item := include_user_item;
     n_users := n_users;
     n_items := n_items;
     state := None |}.

Definition set_state (self : t) (st : fitted) : t :=
  {| value_sharing := value_sharing self;
     include_user_item := include_user_item self;
     n_users := n_users self;
     n_items := n_items self;
     state := Some st |}.

(** [d[k]] on a [defaultdict(dict)]: a missing key is inserted with an
    empty dictionary. *)
Definition defaultdict_getitem (d : gmap string (gmap Z Z)) (k : string)
  : gmap Z Z * gmap string (gmap Z Z) :=
  match d !! k with
  | Some v => (v, d)
  | None => (∅, <[k := ∅]> d)
  end.

Section methods.
(** Python floats, float32 array entries, the final
    [.astype(np.float32)] and the literal [1.0]. *)
Context {num float32 : Type}.
Variable astype_float32 : num → float32.
Variable one : num.

(** The running lists and counter of one method call. *)
Record loop : Type := {
  l_indices : list (list Z);
  l_values : list (list num);
  l_count : Z;
  l_dict : gmap string (gmap Z Z) }.

(** Body of [for k, v in numerical_features.items()]. *)
Definition fit_numerical_step (train_size : Z) (a : loop)
    (kv : string * list num) : loop :=
  {| l_indices := l_indices a ++ [Np.times (l_count a) train_size];
     l_values := l_values a ++ [kv.2];
     l_count := l_count a + 1;
     l_dict := l_dict a |}.

(** Body of [for k, v in categorical_features.items()]. *)
Definition fit_categorical_step (train_size : Z) (a : loop)
    (kv : string * list Z) : loop :=
  let unique_vals := (Np.unique_inverse kv.2).1 in
  let indices := (Np.unique_inverse kv.2).2 in
  let unique_vals_length := Z.of_nat (length unique_vals) in
  let indices := (λ i, i + l_count a) <$> indices in
  let entry := (defaultdict_getitem (l_dict a) kv.1).1 in
  {| l_indices := l_indices a ++ [indices];
     l_values := l_values a ++ [Np.times one train_size];
     l_count := l_count a + unique_vals_length;
     l_dict := <[kv.1 :=
                  Np.dict_update entry (zip unique_vals (Np.unique indices))]>
                 (l_dict a) |}.

Definition fit_loops (categorical_features : list (string * list Z))
    (numerical_features : list (string * list num)) (train_size : Z)
  : loop :=
  foldl (fit_categorical_step train_size)
    (foldl (fit_numerical_step train_size)
       {| l_indices := []; l_values := []; l_count := 0; l_dict := ∅ |}
       numerical_features)
    categorical_features.

Definition fit (self : t)
    (categorical_features : list (string * list Z))
    (numerical_features : list (string * list num))
    (train_size : Z) (user_features item_features : option (list Z))
  : run (t * (list (list Z) * list (list float32) * Z)) :=
  let a := fit_loops categorical_features numerical_features train_size in
  let total_count := l_count a in
  let feature_size := total_count in
  '(feature_indices, feature_values, feature_size) ←
    (if include_user_item self then
       users ← expect TypeError user_features;
       let feature_indices :=
         l_indices a ++ [(λ u, u + feature_size) <$> (users : list Z)] in
       n_users ← expect TypeError (n_users self);
       let feature_size := feature_size + n_users in
       items ← expect TypeError item_features;
       let feature_indices :=
         feature_indices ++ [(λ i, i + feature_size) <$> (items : list Z)] in
       n_items ← expect TypeError (n_items self);
       let feature_size := feature_size + n_items in
       Ok (feature_indices,
           l_values a ++ [Np.times one train_size]
                      ++ [Np.times one train_size],
           feature_size)
     else Ok (l_indices a, l_values a, feature_size));
  feature_indices ← Np.array_T feature_indices;
  feature_values ← Np.array_T feature_values;
  Ok (set_state self
        {| total_count := total_count;
           val_index_dict := l_dict a;
           feature_size := feature_size |},
      (Np.astype Np.astype_int32 feature_indices,
       Np.astype astype_float32 feature_values,
       feature_size)).

(** Body of [for k, v in test_num_feat.items()]. *)
Definition transform_numerical_step (test_size : Z) (a : loop)
    (kv : string * list num) : loop :=
  {| l_indices := l_indices a ++ [Np.times (l_count a) test_size];
     l_values := l_values a ++ [kv.2];
     l_count := l_count a + 1;
     l_dict := l_dict a |}.

(** [for k, v in test_cat_feat.items()]: every round reads
    [self.val_index_dict[k]] and [self.feature_size]. *)
Fixpoint transform_categorical (self : t)
    (test_cat_feat : list (string * list Z)) (test_size : Z)
    (test_feature_indices : list (list Z))
    (test_feature_values : list (list num))
  : run (t * list (list Z) * list (list num)) :=
  match test_cat_feat with
  | [] => Ok (self, test_feature_indices, test_feature_values)
  | kv :: rest =>
      st ← expect AttributeError (state self);
      let entry := defaultdict_getitem (val_index_dict st) kv.1 in
      let self :=
        set_state self
          {| total_count := total_count st;
             val_index_dict := entry.2;
             feature_size := feature_size st |} in
      let indices := Np.series_map entry.1 kv.2 in
      let indices := Np.fillna (feature_size st) indices in
      transform_categorical self rest test_size
        (test_feature_indices ++ [indices])
        (test_feature_values ++ [Np.times one test_size])
  end.

Definition transform (self : t)
    (test_cat_feat : list (string * list Z))
    (test_num_feat : list (string * list num))
    (test_size : Z)
    (test_user_features test_item_features : option (list Z))
  : run (t * (list (list Z) * list (list float32))) :=
  let a :=
    foldl (transform_numerical_step test_size)
      {| l_indices := []; l_values := []; l_count := 0; l_dict := ∅ |}
      test_num_feat in
  '(self, test_feature_indices, test_feature_values) ←
    transform_categorical self test_cat_feat test_size
      (l_indices a) (l_values a);
  '(test_feature_indices, test_feature_values) ←
    (if include_user_item self then
       st ← expect AttributeError (state self);
       users ← expect TypeError test_user_features;
       let test_feature_indices :=
         test_feature_indices
           ++ [(λ u, u + total_count st) <$> (users : list Z)] in
       items ← expect TypeError test_item_features;
       n_users ← expect TypeError (n_users self);
       let test_feature_indices :=
         test_feature_indices
           ++ [(λ i, i + total_count st + n_users) <$> (items : list Z)] in
       Ok (test_feature_indices,
           test_feature_values ++ [Np.times one test_size]
                               ++ [Np.times one test_size])
     else Ok (test_feature_indices, test_feature_values));
  test_feature_indices ← Np.array_T test_feature_indices;
  test_feature_values ← Np.array_T test_feature_values;
  Ok (self,
      (Np.astype Np.astype_int32 test_feature_indices,
       Np.astype astype_float32 test_feature_values)).

End methods.

End FeatureBuilder.

(** ** The global [np.random] generator

    The generator is a state that [np.random.seed] resets and every draw
    advances.  Its laws are the documented results of the two draws, and
    the deterministic reading of a uniform draw: in the stream of
    [randint(low, high)] draws from any state every value of the range
    turns up. *)

Class NumpyRandom : Type := {
  rng : Type;
  np_random_seed : Z → rng;
  (* [np.random.permutation(range(n))] *)
  np_random_permutation : nat → rng → list nat * rng;
  (* [np.random.randint(low, high)] for [low < high] *)
  np_random_randint : Z → Z → rng → Z * rng;
  permutation_perm n g : (np_random_permutation n g).1 ≡ₚ seq 0 n;
  randint_range low high g :
    low < high → low ≤ (np_random_randint low high g).1 < high;
  randint_recurrent low high g x :
    low ≤ x < high →
    ∃ n, (np_random_randint low high
            (Nat.iter n (λ g', (np_random_randint low high g').2) g)).1 = x }.

(** [np.random.randint(low, high)] raises when the range is empty. *)
Definition randint `{NumpyRandom} (low high : Z) (g : rng) : run (Z * rng) :=
  if decide (low < high) then Ok (np_random_randint low high g)
  else Raise ValueError.

(** ** [NegativeSamplingFeat] (distributed/new_features/utils/samplingNEW.py) *)

Module NegativeSamplingFeat.

Section classes.
(** Entries of the dense arrays. *)
Context {D : Type}.

(** The dataset object.  Its class is in neither of the two files; the
    record holds the attributes the sampler reads, with [len] for the
    result of [len(dataset)] and [train_user_consumed] as a plain
    dictionary from a user to the set of items consumed. *)
Record dataset : Type := {
  len : nat;
  user_indices : list Z;
  item_indices : list Z;
  train_user_consumed : gmap Z (gset Z);
  sparse_indices : list (list Z);
  dense_values : list (list D) }.

(** The [data_info] object, likewise; a [..._col] field is the [.index]
    list of the attribute of that name, a list of column positions. *)
Record data_info : Type := {
  n_items : Z;
  user_sparse_col : list nat;
  item_sparse_col : list nat;
  item_sparse_unique : list (list Z);
  user_dense_col : list nat;
  item_dense_col : list nat;
  item_dense_unique : list (list D) }.

Record t : Type := {
  the_dataset : dataset;
  the_data_info : data_info;
  num_neg : Z;
  batch_size : Z }.
End classes.
Arguments dataset : clear implicits.
Arguments data_info : clear implicits.
Arguments t : clear implicits.

Definition __init__ {D} (dataset : dataset D) (data_info : data_info D)
    (num_neg batch_size : Z) : t D :=
  {| the_dataset := dataset; the_data_info := data_info;
     num_neg := num_neg; batch_size := batch_size |}.

Section methods.
Context `{NumpyRandom} {D float32 : Type}.
(** The float32 values [0.0] and [1.0]. *)
Variables zero one : float32.

(** [while item_neg in consumed: item_neg = np.random.randint(0, n_items)] *)
Fixpoint reject (fuel : nat) (n_items : Z) (consumed : gset Z)
    (item_neg : Z) (g : rng) : run (Z * rng) :=
  if decide (item_neg ∈ consumed) then
    match fuel with
    | O => OutOfFuel
    | S fuel =>
        '(item_neg, g) ← randint 0 n_items g;
        reject fuel n_items consumed item_neg g
    end
  else Ok (item_neg, g).

(** [for _ in range(num_neg)], with [count] rounds to go. *)
Fixpoint negatives (fuel count : nat) (n_items : Z)
    (train_user_consumed : gmap Z (gset Z)) (u : Z)
    (item_indices_sampled : list Z) (g : rng) : run (list Z * rng) :=
  match count with
  | O => Ok (item_indices_sampled, g)
  | S count =>
      '(item_neg, g) ← randint 0 n_items g;
      consumed ← expect KeyError (train_user_consumed !! u);
      '(item_neg, g) ← reject fuel n_items consumed item_neg g;
      negatives fuel count n_items train_user_consumed u
        (item_indices_sampled ++ [item_neg]) g
  end.

(** [for u, i in zip(user_indices, item_indices)]. *)
Fixpoint sample_loop (fuel : nat) (pairs : list (Z * Z)) (num_neg : Z)
    (n_items : Z) (train_user_consumed : gmap Z (gset Z))
    (item_indices_sampled : list Z) (g : rng) : run (list Z * rng) :=
  match pairs with
  | [] => Ok (item_indices_sampled, g)
  | ui :: rest =>
      '(item_indices_sampled, g) ←
        negatives fuel (Z.to_nat num_neg) n_items train_user_consumed
          ui.1 (item_indices_sampled ++ [ui.2]) g;
      sample_loop fuel rest num_neg n_items train_user_consumed
        item_indices_sampled g
  end.

Definition sample_items (fuel : nat) (self : t D) (g : rng)
  : run (list Z * rng) :=
  let n_items := n_items (the_data_info self) in
  sample_loop fuel
    (zip (user_indices (the_dataset self)) (item_indices (the_dataset self)))
    (num_neg self) n_items (train_user_consumed (the_dataset self)) [] g.

(** [table[item_indices_sampled]]: [np.array([])] is a float array,
    which is no index. *)
Definition rows_of_items {A} (table : list (list A))
    (item_indices_sampled : list Z) : run (list (list A)) :=
  match item_indices_sampled with
  | [] => Raise IndexError
  | _ => expect IndexError (mapM (Np.getitem table) item_indices_sampled)
  end.

(** The body that [_sparse_negative_sampling] and
    [_dense_negative_sampling] share, on the attributes each one reads. *)
Definition negative_sampling {A} (num_neg : Z) (values : list (list A))
    (user_col item_col : list nat) (item_unique : list (list A))
    (item_indices_sampled : list Z) : run (list (list A)) :=
  user_values ← Np.take_cols user_col values;
  user_sampled ← Np.repeat_rows (num_neg + 1) user_values;
  item_sampled ← rows_of_items item_unique item_indices_sampled;
  if decide (length user_sampled = length item_sampled) then
    let orig_cols := user_col ++ item_col in
    col_reindex ←
      Np.take_rows (seq 0 (length orig_cols)) (Np.argsort orig_cols);
    expect IndexError
      (mapM (λ row : list A, mapM (λ c, row !! c) col_reindex)
         (zip_with app user_sampled item_sampled))
  else Raise AssertionError.

Definition _sparse_negative_sampling (self : t D)
    (item_indices_sampled : list Z) : run (list (list Z)) :=
  negative_sampling (num_neg self)
    (sparse_indices (the_dataset self))
    (user_sparse_col (the_data_info self))
    (item_sparse_col (the_data_info self))
    (item_sparse_unique (the_data_info self))
    item_indices_sampled.

Definition _dense_negative_sampling (self : t D)
    (item_indices_sampled : list Z) : run (list (list D)) :=
  negative_sampling (num_neg self)
    (dense_values (the_dataset self))
    (user_dense_col (the_data_info self))
    (item_dense_col (the_data_info self))
    (item_dense_unique (the_data_info self))
    item_indices_sampled.

(** [labels[::factor] = 1.0] on [np.zeros(total_length)]; with a
    negative [factor] the array is empty. *)
Definition _label_negative_sampling (self : t D) : run (list float32) :=
  let factor := num_neg self + 1 in
  let total_length := Z.of_nat (len (the_dataset self)) * factor in
  if decide (total_length < 0) then Raise ValueError
  else
    let labels := replicate (Z.to_nat total_length) zero in
    if decide (factor = 0) then Raise ValueError
    else if decide (factor < 0) then Ok labels
    else
      Ok (foldl (λ labels i, <[i := one]> labels) labels
            (Np.strided 0 (Z.to_nat factor)
               (Z.to_nat ((total_length + factor - 1) `div` factor)))).

Definition shuffled {A} (random : bool) (random_mask : list nat)
    (a : list A) : run (list A) :=
  if random then Np.take_rows a random_mask else Ok a.

Definition __call__ (fuel : nat) (self : t D) (seed : Z)
    (dense random : bool)
  : run (list (list Z) * option (list (list D)) * list float32) :=
  let g := np_random_seed seed in
  let total_length :=
    Z.of_nat (len (the_dataset self)) * (num_neg self + 1) in
  let '(random_mask, g) :=
    np_random_permutation (Z.to_nat total_length) g in
  label_sampled ← _label_negative_sampling self;
  label_sampled ← shuffled random random_mask label_sampled;
  '(item_indices_sampled, g) ← sample_items fuel self g;
  sparse_sampled ← _sparse_negative_sampling self item_indices_sampled;
  sparse_sampled ← shuffled random random_mask sparse_sampled;
  if dense then
    dense_sampled ← _dense_negative_sampling self item_indices_sampled;
    dense_sampled ← shuffled random random_mask dense_sampled;
    Ok (sparse_sampled, Some dense_sampled, label_sampled)
  else Ok (sparse_sampled, None, label_sampled).

End methods.

End NegativeSamplingFeat.

(** ** [NegativeSamplingFeat.next_batch]
    (distributed/new_features/utils/samplingNEW.py) *)

Module NextBatch.
Import Np.

(** [next_batch] can raise one exception more than the methods above:
    the division by [num_neg + 1]. *)
Inductive batch_outcome (A : Type) : Type :=
  | ZeroDivisionError
  | Outcome (r : run A).
Arguments ZeroDivisionError {A}.
Arguments Outcome {A} r.

(** [int(a / b)] on Python integers: the true division, truncated towards
    zero.  The float quotient truncates to the exact one as long as both
    numbers are below [2^53] in absolute value. *)
Definition int_truediv (a b : Z) : option Z :=
  if decide (b = 0) then None else Some (a ÷ b).

(** A bound of a slice on an array of [len] entries: a negative bound
    counts from the end, and every bound is clipped to the array. *)
Definition slice_index (len i : Z) : Z :=
  if decide (i < 0) then Z.max 0 (len + i) else Z.min i len.

(** The position where [a[lo:hi]] starts. *)
Definition slice_start {A} (a : list A) (lo : Z) : nat :=
  Z.to_nat (slice_index (Z.of_nat (length a)) lo).

(** [a[lo:hi]] *)
Definition slice {A} (a : list A) (lo hi : Z) : list A :=
  take (Z.to_nat (slice_index (Z.of_nat (length a)) hi)
        - slice_start a lo)
    (drop (slice_start a lo) a).

(** [a[i] = x] on a list or an array row: a negative index counts from
    the end, an index out of range raises. *)
Definition setitem {A} (a : list A) (i : Z) (x : A) : option (list A) :=
  let len := Z.of_nat (length a) in
  if decide (0 ≤ i) then
    if decide (i < len) then Some (<[Z.to_nat i := x]> a) else None
  else if decide (- len ≤ i) then Some (<[Z.to_nat (len + i) := x]> a)
       else None.

(** [for col, orig_col in enumerate(cols): dst[orig_col] = src[col]] *)
Fixpoint copy_cols {A} (cols : list Z) (col : nat) (src dst : list A)
  : run (list A) :=
  match cols with
  | [] => Ok dst
  | orig_col :: rest =>
      x ← expect IndexError (src !! col);
      dst ← expect IndexError (setitem dst orig_col x);
      copy_cols rest (S col) src dst
  end.

Section classes.
(** Entries of the value arrays, and labels. *)
Context {D L : Type}.

(** The attributes of the dataset object that [next_batch] reads; the
    index and value arrays are two-dimensional arrays, and
    [train_user] maps a user to the items consumed. *)
Record batch_data : Type := {
  train_indices_implicit : list (list Z);
  train_values_implicit : list (list D);
  train_labels_implicit : list L;
  train_feat_indices : list (list Z);
  train_feat_values : list (list D);
  train_labels : list L;
  user_offset : Z;
  n_users : Z;
  n_items : Z;
  train_user : gmap Z (gset Z);
  item_feature_cols : list Z;
  item_numerical_cols : list Z }.

(** The attributes of the sampler that [next_batch] reads and
    [__init__] does not set: each is there once something assigned
    it. *)
Record batch_attrs : Type := {
  pre_sampling : option bool;
  i : option Z;
  item_feat : option bool;
  neg_indices_dict : option (gmap Z (list Z));
  neg_values_dict : option (gmap Z (list D)) }.

(** The object as [__init__] leaves it. *)
Definition unset : batch_attrs :=
  {| pre_sampling := None; i := None; item_feat := None;
     neg_indices_dict := None; neg_values_dict := None |}.

(** [self.i = v] *)
Definition set_i (a : batch_attrs) (v : Z) : batch_attrs :=
  {| pre_sampling := pre_sampling a; i := Some v; item_feat := item_feat a;
     neg_indices_dict := neg_indices_dict a;
     neg_values_dict := neg_values_dict a |}.

(** [dataset.train_feat_values] after writes through its rows. *)
Definition set_train_feat_values (ds : batch_data) (v : list (list D))
  : batch_data :=
  {| train_indices_implicit := train_indices_implicit ds;
     train_values_implicit := train_values_implicit ds;
     train_labels_implicit := train_labels_implicit ds;
     train_feat_indices := train_feat_indices ds;
     train_feat_values := v;
     train_labels := train_labels ds;
     user_offset := user_offset ds;
     n_users := n_users ds;
     n_items := n_items ds;
     train_user := train_user ds;
     item_feature_cols := item_feature_cols ds;
     item_numerical_cols := item_numerical_cols ds |}.

(** The state of the loop of the sampling branch.  The lists [indices]
    and [values] hold references: an entry of [indices] is a row of the
    batch, or the address in [heap] of a list that [tolist] made; an
    entry of [values] is a view of a row of [train_feat_values], kept as
    the position of the row in [store]. *)
Record loop_state `{NumpyRandom} : Type := {
  heap : list (list Z);
  indices : list (list Z + nat);
  values : list nat;
  labels : list L;
  store : list (list D);
  gen : rng }.
End classes.
Arguments batch_data : clear implicits.
Arguments batch_attrs : clear implicits.
Arguments loop_state D L {_}.

Section methods.
Context `{NumpyRandom} {D L D0 : Type}.
(** The label [0.0]. *)
Variable zero : L.

(** What [np.array] reads through a reference of [indices]. *)
Definition deref (heap : list (list Z)) (r : list Z + nat)
  : option (list Z) :=
  match r with
  | inl row => Some row
  | inr addr => heap !! addr
  end.

(** One round of [for _ in range(self.num_neg)], for the list at [addr]
    and the row [row] of the value array. *)
Definition negative_step (fuel : nat) (a : batch_attrs D)
    (ds : batch_data D L) (user : Z) (addr row : nat)
    (st : loop_state D L) : run (loop_state D L) :=
  '(item_neg, g) ← randint 0 (n_items ds) (gen st);
  consumed ← expect KeyError (train_user ds !! user);
  '(item_neg, g) ← NegativeSamplingFeat.reject fuel (n_items ds) consumed
                     item_neg g;
  let item_neg := item_neg + (user_offset ds + n_users ds) in
  ss ← expect IndexError (heap st !! addr);
  ss ← expect IndexError (setitem ss (-1) item_neg);
  feat ← expect AttributeError (item_feat a);
  ss ← (if feat : bool then
          dict ← expect AttributeError (neg_indices_dict a);
          dt ← expect KeyError (dict !! item_neg);
          copy_cols (item_feature_cols ds) 0 dt ss
        else Ok ss);
  vv ← expect IndexError (store st !! row);
  vv ← (if feat : bool then
          dict ← expect AttributeError (neg_values_dict a);
          dv ← expect KeyError (dict !! item_neg);
          copy_cols (item_numerical_cols ds) 0 dv vv
        else Ok vv);
  Ok {| heap := <[addr := ss]> (heap st);
        indices := indices st ++ [inr addr];
        values := values st ++ [row];
        labels := labels st ++ [zero];
        store := <[row := vv]> (store st);
        gen := g |}.

Fixpoint negatives_loop (fuel count : nat) (a : batch_attrs D)
    (ds : batch_data D L) (user : Z) (addr row : nat)
    (st : loop_state D L) : run (loop_state D L) :=
  match count with
  | O => Ok st
  | S count =>
      st ← negative_step fuel a ds user addr row st;
      negatives_loop fuel count a ds user addr row st
  end.

(** The body of [for i, sample in enumerate(batch_feat_indices)]; the
    batch of the value array starts at row [vstart] of the array and has
    [nv] rows. *)
Definition sample_step (fuel : nat) (num_neg : Z) (a : batch_attrs D)
    (ds : batch_data D L) (vstart nv : nat) (batch_feat_labels : list L)
    (st : loop_state D L) (k : nat) (sample : list Z)
  : run (loop_state D L) :=
  let ss := sample in
  let addr := length (heap st) in
  x ← expect IndexError (getitem ss (-2));
  let user := x - user_offset ds in
  _ ← (if decide (k < nv)%nat then Ok () else Raise IndexError);
  label ← expect IndexError (batch_feat_labels !! k);
  negatives_loop fuel (Z.to_nat num_neg) a ds user addr (vstart + k)%nat
    {| heap := heap st ++ [ss];
       indices := indices st ++ [inl sample];
       values := values st ++ [(vstart + k)%nat];
       labels := labels st ++ [label];
       store := store st;
       gen := gen st |}.

Fixpoint samples_loop (fuel : nat) (num_neg : Z) (a : batch_attrs D)
    (ds : batch_data D L) (vstart nv : nat) (batch_feat_labels : list L)
    (k : nat) (batch_feat_indices : list (list Z)) (st : loop_state D L)
  : run (loop_state D L) :=
  match batch_feat_indices with
  | [] => Ok st
  | sample :: rest =>
      st ← sample_step fuel num_neg a ds vstart nv batch_feat_labels st k
             sample;
      samples_loop fuel num_neg a ds vstart nv batch_feat_labels (S k) rest
        st
  end.

Definition next_batch (fuel : nat) (self : NegativeSamplingFeat.t D0)
    (a : batch_attrs D) (ds : batch_data D L) (g : rng)
  : batch_outcome (batch_attrs D * batch_data D L * rng
                   * (list (list Z) * list (list D) * list L)) :=
  match pre_sampling a with
  | None => Outcome (Raise AttributeError)
  | Some true =>
      Outcome (
        i ← expect AttributeError (i a);
        let batch_size := NegativeSamplingFeat.batch_size self in
        let end_ :=
          Z.min (Z.of_nat (length (train_indices_implicit ds)))
            ((i + 1) * batch_size) in
        let batch_feat_indices :=
          slice (train_indices_implicit ds) (i * batch_size) end_ in
        let batch_feat_values :=
          slice (train_values_implicit ds) (i * batch_size) end_ in
        let batch_labels :=
          slice (train_labels_implicit ds) (i * batch_size) end_ in
        Ok (set_i a (i + 1), ds, g,
            (batch_feat_indices, batch_feat_values, batch_labels)))
  | Some false =>
      match int_truediv (NegativeSamplingFeat.batch_size self)
              (NegativeSamplingFeat.num_neg self + 1) with
      | None => ZeroDivisionError
      | Some batch_size =>
          Outcome (
            i ← expect AttributeError (i a);
            let end_ :=
              Z.min (Z.of_nat (length (train_feat_indices ds)))
                ((i + 1) * batch_size) in
            let batch_feat_indices :=
              slice (train_feat_indices ds) (i * batch_size) end_ in
            let batch_feat_values :=
              slice (train_feat_values ds) (i * batch_size) end_ in
            let batch_feat_labels :=
              slice (train_labels ds) (i * batch_size) end_ in
            st ← samples_loop fuel (NegativeSamplingFeat.num_neg self) a ds
                   (slice_start (train_feat_values ds) (i * batch_size))
                   (length batch_feat_values) batch_feat_labels
                   0 batch_feat_indices
                   {| heap := []; indices := []; values := []; labels := [];
                      store := train_feat_values ds; gen := g |};
            let '(random_mask, g) :=
              np_random_permutation (length (indices st)) (gen st) in
            indices_array ←
              expect IndexError (mapM (deref (heap st)) (indices st));
            values_array ←
              expect IndexError (mapM (λ r, store st !! r) (values st));
            indices_array ← take_rows indices_array random_mask;
            values_array ← take_rows values_array random_mask;
            labels_array ← take_rows (labels st) random_mask;
            Ok (set_i a (i + 1), set_train_feat_values ds (store st), g,
                (indices_array, values_array, labels_array)))
      end
  end.

End methods.

End NextBatch.

(** * Notions used in the statements *)

Module FeatureBuilderNotions.
Import Np FeatureBuilder.

(** ** [fit] *)

(** The number of distinct values of a column. *)
Definition distinct (v : list Z) : nat := size (list_to_set v : gset Z).

(** Where the block of categorical column [j] starts, when the first
    block starts at [start]. *)
Definition block_offset (start : Z) (cats : list (string * list Z))
    (j : nat) : Z :=
  start + Z.of_nat (sum_list_with (λ kv, distinct kv.2) (take j cats)).

(** The index column of a categorical column whose block starts at
    [off]: every value at its rank among the distinct values. *)
Definition ranked (off : Z) (col : list Z) : list Z :=
  (λ x, Z.of_nat (position x (unique col)) + off) <$> col.

(** The index columns of the categorical columns, the first block
    starting at [start]. *)
Fixpoint cat_columns (start : Z) (cats : list (string * list Z))
  : list (list Z) :=
  match cats with
  | [] => []
  | kv :: rest =>
      ranked start kv.2
        :: cat_columns (start + Z.of_nat (distinct kv.2)) rest
  end.

(** The vocabulary of a column whose block starts at [off]. *)
Definition vocabulary (col : list Z) (off : Z) : gmap Z Z :=
  dict_update ∅
    (zip (unique col)
       ((λ i : nat, Z.of_nat i + off) <$> seq 0 (length (unique col)))).

(** The width of the identity blocks. *)
Definition identity_width (self : t) : Z :=
  if include_user_item self
  then default 0 (n_users self) + default 0 (n_items self)
  else 0.

(** The two identity columns of [fit], after [total] other indices. *)
Definition fit_identity_columns (self : t) (total : Z)
    (user_features item_features : option (list Z)) : list (list Z) :=
  if include_user_item self then
    [ (λ u, u + total) <$> default [] user_features;
      (λ i, i + (total + default 0 (n_users self)))
        <$> default [] item_features ]
  else [].

(** The columns all have [train_size] entries, and the identity
    arguments are there when the identity blocks are enabled. *)
Definition fit_inputs_ok {num} (self : t) (cats : list (string * list Z))
    (nums : list (string * list num)) (n : Z)
    (uf itf : option (list Z)) : Prop :=
  Forall (λ kv, length kv.2 = Z.to_nat n) cats
  ∧ Forall (λ kv, length kv.2 = Z.to_nat n) nums
  ∧ (include_user_item self = true →
       is_Some (n_users self) ∧ is_Some (n_items self)
       ∧ ∃ u i, uf = Some u ∧ itf = Some i
                ∧ length u = Z.to_nat n ∧ length i = Z.to_nat n).

(** Two builders made with the same constructor arguments. *)
Definition same_config (a b : t) : Prop :=
  value_sharing a = value_sharing b
  ∧ include_user_item a = include_user_item b
  ∧ n_users a = n_users b
  ∧ n_items a = n_items b.

(** Every index of every vocabulary is a position below [c]. *)
Definition dict_below (d : gmap string (gmap Z Z)) (c : Z) : Prop :=
  ∀ k m x idx, d !! k = Some m → m !! x = Some idx → 0 ≤ idx < c.

(** ** [transform] *)

(** The vocabulary [transform] reads for a column name: a name without
    an entry reads as the empty dictionary. *)
Definition vocab_of (d : gmap string (gmap Z Z)) (k : string) : gmap Z Z :=
  default ∅ (d !! k).

(** The index of a raw value of a column after [fit], if any. *)
Definition vocab_index (st : fitted) (k : string) (v : Z) : option Z :=
  vocab_of (val_index_dict st) k !! v.

(** The dictionary after the names of [tcats] were looked up. *)
Definition touch (d : gmap string (gmap Z Z))
    (tcats : list (string * list Z)) : gmap string (gmap Z Z) :=
  foldl (λ d kv, (defaultdict_getitem d kv.1).2) d tcats.

(** The attributes of [fit] after those lookups. *)
Definition touched (st : fitted) (tcats : list (string * list Z)) : fitted :=
  {| total_count := total_count st;
     val_index_dict := touch (val_index_dict st) tcats;
     feature_size := feature_size st |}.

(** The index column of one categorical column of [transform]. *)
Definition encode (st : fitted) (kv : string * list Z) : list Z :=
  fillna (feature_size st)
    (series_map (vocab_of (val_index_dict st) kv.1) kv.2).

(** The two identity columns of [transform]. *)
Definition transform_identity_columns (self : t) (st : fitted)
    (tu ti : option (list Z)) : list (list Z) :=
  if include_user_item self then
    [ (λ u, u + total_count st) <$> default [] tu;
      (λ i, i + total_count st + default 0 (n_users self))
        <$> default [] ti ]
  else [].

(** All index columns of [transform], in the order it appends them. *)
Definition transform_columns {num} (self : t) (st : fitted)
    (tcats : list (string * list Z)) (tnums : list (string * list num))
    (n : Z) (tu ti : option (list Z)) : list (list Z) :=
  ((λ j : nat, times (Z.of_nat j) n) <$> seq 0 (length tnums))
    ++ (encode st <$> tcats)
    ++ transform_identity_columns self st tu ti.

(** All value columns of [transform]. *)
Definition transform_value_columns {num} (one : num) (self : t)
    (tcats : list (string * list Z))
    (tnums : list (string * list num)) (n : Z) : list (list num) :=
  tnums.*2 ++ replicate (length tcats) (times one n)
    ++ (if include_user_item self then [times one n; times one n] else []).

(** The [None + int] additions of the identity block. *)
Definition identity_check (self : t) (tu ti : option (list Z)) : run () :=
  if include_user_item self then
    match tu, ti, n_users self with
    | Some _, Some _, Some _ => Ok ()
    | _, _, _ => Raise TypeError
    end
  else Ok ().

(** The identity arguments of [transform] hold known users and items. *)
Definition identity_in_range (self : t) (tu ti : option (list Z)) : Prop :=
  ∀ nu ni u i,
    n_users self = Some nu → n_items self = Some ni →
    tu = Some u → ti = Some i →
    Forall (λ x, 0 ≤ x < nu) u ∧ Forall (λ x, 0 ≤ x < ni) i.


End FeatureBuilderNotions.

Module LayoutNotions.
Import Np FeatureBuilder FeatureBuilderNotions.

(** All the lengths of a list of lengths are one length. *)
Definition uniform (ls : list nat) : Prop := ∀ x y, x ∈ ls → y ∈ ls → x = y.

(** The identity arguments and counts are there when the identity blocks
    are enabled. *)
Definition identity_given (self : t) (uf itf : option (list Z)) : Prop :=
  include_user_item self = true →
  is_Some uf ∧ is_Some (n_users self) ∧ is_Some itf ∧ is_Some (n_items self).

(** The [None + int] additions of the identity block of [fit]. *)
Definition fit_identity_check (self : t) (uf itf : option (list Z)) : run () :=
  if include_user_item self then
    match uf, n_users self, itf, n_items self with
    | Some _, Some _, Some _, Some _ => Ok ()
    | _, _, _, _ => Raise TypeError
    end
  else Ok ().

(** The lengths of the index columns [fit] appends, in order. *)
Definition fit_index_lengths {num} (self : t) (cats : list (string * list Z))
    (nums : list (string * list num)) (n : Z) (uf itf : option (list Z))
  : list nat :=
  replicate (length nums) (Z.to_nat n)
    ++ ((λ kv, length kv.2) <$> cats)
    ++ (if include_user_item self
        then [length (default [] uf); length (default [] itf)] else []).

(** The lengths of the value columns [fit] appends, in order. *)
Definition fit_value_lengths {num} (self : t) (cats : list (string * list Z))
    (nums : list (string * list num)) (n : Z) : list nat :=
  ((λ kv, length kv.2) <$> nums)
    ++ replicate (length cats) (Z.to_nat n)
    ++ (if include_user_item self then [Z.to_nat n; Z.to_nat n] else []).

(** The number of columns of the arrays of [fit] and [transform]. *)
Definition width {num} (self : t) (cats : list (string * list Z))
    (nums : list (string * list num)) : nat :=
  (length nums + length cats + (if include_user_item self then 2 else 0))%nat.

End LayoutNotions.

Module SamplerNotions.
Import Np NegativeSamplingFeat.

(** Some item of [[0, n_items)] is not in the consumed set; so it is
    when the set is a proper subset of the range. *)
Definition unsaturated (n_items : Z) (consumed : gset Z) : Prop :=
  ∃ y, 0 ≤ y < n_items ∧ y ∉ consumed.

(** A negative drawn for user [u]. *)
Definition negative_for (n_items : Z) (dict : gmap Z (gset Z)) (u y : Z)
  : Prop :=
  ∃ c, dict !! u = Some c ∧ 0 ≤ y < n_items ∧ y ∉ c.

(** What the sampler appends for one interaction. *)
Definition group_of (num_neg n_items : Z) (dict : gmap Z (gset Z))
    (ui : Z * Z) (grp : list Z) : Prop :=
  ∃ negs, grp = ui.2 :: negs ∧ length negs = Z.to_nat num_neg
          ∧ Forall (negative_for n_items dict ui.1) negs.

(** [block] holds the columns [cols] of the row [R]. *)
Definition columns_of {A} (R : list A) (cols : list nat) (block : list A)
  : Prop :=
  Forall2 (λ c y, R !! c = Some y) cols block.

(** [R] is a row in the original column order for output position [k]:
    on the user-side columns it agrees with the dataset row of the
    interaction of [k], and its item-side columns are the row of the
    item sampled for [k] in the table of the items. *)
Definition assembled_from {A} (num_neg : Z) (values : list (list A))
    (user_col item_col : list nat) (item_unique : list (list A))
    (item_indices_sampled : list Z) (k : nat) (R : list A) : Prop :=
  ∃ src i irow,
    values !! (k `div` Z.to_nat (num_neg + 1))%nat = Some src
    ∧ item_indices_sampled !! k = Some i
    ∧ getitem item_unique i = Some irow
    ∧ Forall (λ c, src !! c = R !! c) user_col
    ∧ columns_of R item_col irow.

(** The order [np.argsort] sorts the (key, position) pairs by. *)
Definition key_le (p q : nat * nat) : Prop := (p.1 ≤ q.1)%nat.

(** [a'] holds the rows of [a] at the positions [mask], in that order. *)
Definition gathered {A} (mask : list nat) (a a' : list A) : Prop :=
  Forall2 (λ j x, a !! j = Some x) mask a'.

(** Row [k] of the shuffled arrays and row [j] of the unshuffled ones are
    one example: the same sparse row, the same label and, when the dense
    array is produced, the same dense row. *)
Definition same_example {D float32 : Type}
    (S S' : list (list Z)) (Dv Dv' : option (list (list D)))
    (L L' : list float32) (j k : nat) : Prop :=
  (∃ s, S !! j = Some s ∧ S' !! k = Some s)
  ∧ (∃ l, L !! j = Some l ∧ L' !! k = Some l)
  ∧ match Dv, Dv' with
    | Some d, Some d' => ∃ x, d !! j = Some x ∧ d' !! k = Some x
    | None, None => True
    | _, _ => False
    end.

End SamplerNotions.

Module CallNotions.
Import Np NegativeSamplingFeat SamplerNotions.

(** The arrays of one path of the sampler fit the dataset: the array of
    the dataset has a row for every interaction, with the user-side
    columns in every row, and the table of the items has a row for every
    item of [[0, n_items)], each with an entry for every item-side
    column. *)
Definition path_ok {A} (len : nat) (n_items : Z) (values : list (list A))
    (user_col item_col : list nat) (item_unique : list (list A)) : Prop :=
  length values = len
  ∧ Forall (λ row, Forall (λ c, c < length row)%nat user_col) values
  ∧ n_items ≤ Z.of_nat (length item_unique)
  ∧ Forall (λ row, (length item_col ≤ length row)%nat) item_unique.

(** The dataset a call is made on: some interactions, a user and an
    item of [[0, n_items)] for each, for every user a consumed set that
    leaves out some item, and arrays that fit, on the sparse path and,
    when the dense array is asked for, on the dense path. *)
Definition call_inputs_ok {D} (self : t D) (dense : bool) : Prop :=
  let ds := the_dataset self in
  let info := the_data_info self in
  (0 < len ds)%nat
  ∧ length (user_indices ds) = len ds
  ∧ length (item_indices ds) = len ds
  ∧ Forall (λ i, 0 ≤ i < n_items info) (item_indices ds)
  ∧ (∀ u i, (u, i) ∈ zip (user_indices ds) (item_indices ds) →
            ∃ c, train_user_consumed ds !! u = Some c
                 ∧ unsaturated (n_items info) c)
  ∧ path_ok (len ds) (n_items info) (sparse_indices ds)
      (user_sparse_col info) (item_sparse_col info)
      (item_sparse_unique info)
  ∧ (dense = true →
     path_ok (len ds) (n_items info) (dense_values ds)
       (user_dense_col info) (item_dense_col info)
       (item_dense_unique info)).

(** The dense array of a call, built from the sampled items. *)
Definition dense_of {D} (self : t D) (dense : bool) (items : list Z)
    (Dv : option (list (list D))) : Prop :=
  match Dv with
  | Some d => dense = true ∧ _dense_negative_sampling self items = Ok d
  | None => dense = false
  end.

End CallNotions.

Module SamplingNotions.
Import Np NegativeSamplingFeat SamplerNotions.

(** The consumed set holds every item of [[0, n_items)]. *)
Definition saturated (n_items : Z) (consumed : gset Z) : Prop :=
  ∀ y, 0 ≤ y < n_items → y ∈ consumed.

(** What output row [k] is made of: the dataset row of the interaction
    of [k] on the user-side columns, and the row of the item sampled for
    [k] in the table of the items, entry by entry, on the item-side
    columns. *)
Definition row_of {A} (num_neg : Z) (values : list (list A))
    (user_col item_col : list nat) (item_unique : list (list A))
    (item_indices_sampled : list Z) (k : nat) (R : list A) : Prop :=
  ∃ src i irow,
    values !! (k `div` Z.to_nat (num_neg + 1))%nat = Some src
    ∧ item_indices_sampled !! k = Some i
    ∧ getitem item_unique i = Some irow
    ∧ length R = length (user_col ++ item_col)
    ∧ (∀ c, c ∈ user_col → is_Some (R !! c) ∧ R !! c = src !! c)
    ∧ (∀ q c, item_col !! q = Some c →
              is_Some (R !! c) ∧ R !! c = irow !! q).

End SamplingNotions.

Module BatchNotions.
Import Np NextBatch.

(** The [k]-th run of [size] rows of an array. *)
Definition chunk {A} (size : Z) (k : nat) (a : list A) : list A :=
  take (Z.to_nat size) (drop (k * Z.to_nat size) a).

(** What a sample contributes to the three arrays of the sampling
    branch: its own row and [count] times one other row; [count + 1]
    times one row of values; its label and [count] times [0.0]. *)
Definition index_block (count : nat) (sample neg : list Z)
  : list (list Z) :=
  sample :: replicate count neg.
Definition value_block {D} (count : nat) (row : list D) : list (list D) :=
  replicate (S count) row.
Definition label_block {L} (zero : L) (count : nat) (label : L) : list L :=
  label :: replicate count zero.

(** [neg] is the row [sample] with its last entry replaced by the
    offset index of an item that the user of the sample (the entry before
    the last, less the user offset) did not consume. *)
Definition negative_of {D L} (ds : batch_data D L) (sample neg : list Z)
  : Prop :=
  ∃ x y c,
    getitem sample (-2) = Some x
    ∧ train_user ds !! (x - user_offset ds) = Some c
    ∧ 0 ≤ y < n_items ds ∧ (y ∉ c)
    ∧ neg = <[(length sample - 1)%nat := y + (user_offset ds + n_users ds)]>
              sample.

(** The row has a user entry, the one before the last; when negatives
    are drawn, that user has a consumed set, and one that leaves out some
    item of [[0, n_items)]. *)
Definition samplable {D L} (ds : batch_data D L) (num_neg : Z)
    (sample : list Z) : Prop :=
  ∃ x, getitem sample (-2) = Some x
       ∧ (1 ≤ num_neg →
          ∃ c, train_user ds !! (x - user_offset ds) = Some c
               ∧ SamplerNotions.unsaturated (n_items ds) c).

(** The rows of batch [k] of an array, for batches of [size] rows cut
    off at row [n]. *)
Definition batch_rows {A} (a : list A) (k size : Z) (n : nat) : list A :=
  slice a (k * size) (Z.min (Z.of_nat n) ((k + 1) * size)).

(** The three arrays of the sampling branch are made of the blocks of
    the samples, in the order of the batch, and then rearranged by one
    mask for the three of them. *)
Definition assembled {D L} (zero : L) (count : nat)
    (batch negs : list (list Z)) (rows : list (list D)) (lbls : list L)
    (mask : list nat) (I : list (list Z)) (V : list (list D))
    (Lb : list L) : Prop :=
  length negs = length batch
  ∧ length rows = length batch
  ∧ length lbls = length batch
  ∧ mask ≡ₚ seq 0 (length batch * S count)
  ∧ SamplerNotions.gathered mask
      (mjoin (zip_with (index_block count) batch negs)) I
  ∧ SamplerNotions.gathered mask (mjoin (value_block count <$> rows)) V
  ∧ SamplerNotions.gathered mask (mjoin (label_block zero count <$> lbls))
      Lb.

Section calls.
Context `{NumpyRandom} {D L D0 : Type}.
Variable zero : L.

(** [m] calls of [next_batch] in a row, each on what the one before left;
    the batches they return, in order. *)
Fixpoint successive (m : nat) (fuel : nat) (self : NegativeSamplingFeat.t D0)
    (a : batch_attrs D) (ds : batch_data D L) (g : rng)
  : option (batch_attrs D
            * list (list (list Z) * list (list D) * list L)) :=
  match m with
  | O => Some (a, [])
  | S m =>
      match next_batch zero fuel self a ds g with
      | Outcome (Ok (a, ds, g, out)) =>
          '(a, outs) ← successive m fuel self a ds g;
          Some (a, out :: outs)
      | _ => None
      end
  end.
End calls.

End BatchNotions.

(** * Properties *)

(** ** The [run] monad *)

Lemma bind_Ok {A B} (m : run A) (f : A → run B) (b : B) :
  m ≫= f = Ok b ↔ ∃ a, m = Ok a ∧ f a = Ok b.
Proof.
  destruct m; simpl; split; try done; try (by intros (? & ? & ?)).
  - intros Hf. eauto.
  - by intros (a' & [= <-] & Hf).
Qed.

Lemma expect_Ok {A} (e : exn) (o : option A) (a : A) :
  expect e o = Ok a ↔ o = Some a.
Proof. destruct o; simpl; split; congruence. Qed.

(** ** numpy operations *)

Module NpFacts.
Import Np.

Lemma astype_int32_id (z : Z) :
  int32_min ≤ z ≤ int32_max → astype_int32 z = z.
Proof.
  unfold int32_min, int32_max, astype_int32. intros Hz.
  rewrite Z.mod_small; lia.
Qed.

Lemma astype_int32_range (z : Z) :
  int32_min ≤ astype_int32 z ≤ int32_max.
Proof.
  unfold int32_min, int32_max, astype_int32.
  pose proof (Z.mod_pos_bound (z + 2 ^ 31) (2 ^ 32)). lia.
Qed.

(** *** [np.unique] *)

Lemma elem_of_unique_insert (x y : Z) (l : list Z) :
  y ∈ unique_insert x l ↔ y = x ∨ y ∈ l.
Proof.
  induction l as [|z l IH]; simpl.
  - set_solver.
  - repeat case_decide; subst; rewrite ?elem_of_cons, ?IH, ?elem_of_cons; tauto.
Qed.

Lemma unique_insert_sorted (x : Z) (l : list Z) :
  StronglySorted Z.lt l → StronglySorted Z.lt (unique_insert x l).
Proof.
  induction 1 as [|z l Hl IH Hz]; simpl.
  - repeat constructor.
  - repeat case_decide; subst.
    + constructor; [by constructor|].
      constructor; [done|]. eapply Forall_impl; [exact Hz|]. simpl. lia.
    + by constructor.
    + constructor; [done|]. apply Forall_forall. intros y Hy.
      apply elem_of_unique_insert in Hy as [->|Hy]; [lia|].
      rewrite Forall_forall in Hz. by apply Hz.
Qed.

Lemma elem_of_unique (x : Z) (v : list Z) : x ∈ unique v ↔ x ∈ v.
Proof.
  induction v as [|y v IH]; simpl; [done|].
  rewrite elem_of_unique_insert, elem_of_cons, IH. done.
Qed.

Lemma unique_sorted (v : list Z) : StronglySorted Z.lt (unique v).
Proof.
  induction v; simpl; [constructor|]. by apply unique_insert_sorted.
Qed.

Lemma sorted_lt_NoDup (l : list Z) : StronglySorted Z.lt l → NoDup l.
Proof.
  induction 1 as [|x l Hl IH Hx]; constructor; [|done].
  intros Hin. rewrite Forall_forall in Hx. specialize (Hx _ Hin). lia.
Qed.

Lemma unique_NoDup (v : list Z) : NoDup (unique v).
Proof. apply sorted_lt_NoDup, unique_sorted. Qed.

(** Two ascending lists with the same elements are one list. *)
Lemma sorted_lt_ext (l1 l2 : list Z) :
  StronglySorted Z.lt l1 → StronglySorted Z.lt l2 →
  (∀ x, x ∈ l1 ↔ x ∈ l2) → l1 = l2.
Proof.
  intros H1 H2 Hel.
  apply (StronglySorted_unique_strong Z.lt); [|done|done|].
  - intros; lia.
  - apply NoDup_Permutation; auto using sorted_lt_NoDup.
Qed.

Lemma unique_length (v : list Z) :
  length (unique v) = size (list_to_set v : gset Z).
Proof.
  rewrite <- (list_to_set_elements_L (list_to_set v : gset Z)) at 1.
  unfold size, set_size. simpl.
  apply Permutation_length, NoDup_Permutation.
  - apply unique_NoDup.
  - apply NoDup_elements.
  - intros x. rewrite elem_of_unique, elem_of_elements.
    rewrite list_to_set_elements_L. by rewrite elem_of_list_to_set.
Qed.

(** Ascending means: a larger position holds a larger value. *)
Lemma sorted_lt_lookup (l : list Z) (i j : nat) (x y : Z) :
  StronglySorted Z.lt l → l !! i = Some x → l !! j = Some y →
  (i < j)%nat → x < y.
Proof.
  intros Hl. revert i j. induction Hl as [|z l Hl IH Hz]; intros i j Hi Hj Hij.
  - done.
  - destruct i as [|i], j as [|j]; simpl in *; try lia.
    + simplify_eq. rewrite Forall_forall in Hz.
      apply Hz. by eapply list_elem_of_lookup_2.
    + eapply IH; eauto. lia.
Qed.

(** *** positions *)

Lemma position_lookup (x : Z) (l : list Z) :
  x ∈ l → l !! position x l = Some x.
Proof.
  induction l as [|y l IH]; simpl; [by rewrite elem_of_nil|].
  rewrite elem_of_cons. intros Hx. case_decide; simpl; [congruence|].
  apply IH. destruct Hx; congruence.
Qed.

Lemma position_lt (x : Z) (l : list Z) :
  x ∈ l → (position x l < length l)%nat.
Proof. intros Hx. eapply lookup_lt_Some, position_lookup, Hx. Qed.

Lemma position_of_lookup (x : Z) (l : list Z) (i : nat) :
  NoDup l → l !! i = Some x → position x l = i.
Proof.
  intros Hnd Hi.
  assert (l !! position x l = Some x) as Hp.
  { apply position_lookup. by eapply list_elem_of_lookup_2. }
  eapply NoDup_lookup; eauto.
Qed.

(** The distinct values of the shifted inverse are the whole block. *)
Lemma unique_shifted_inverse (v : list Z) (c : Z) :
  unique ((λ i, i + c) <$> (unique_inverse v).2)
  = (λ i : nat, Z.of_nat i + c) <$> seq 0 (length (unique v)).
Proof.
  apply sorted_lt_ext.
  - apply unique_sorted.
  - generalize (length (unique v)). intros n.
    generalize 0%nat. induction n as [|n IH]; intros s; simpl.
    + constructor.
    + constructor; [apply IH|]. apply Forall_forall. intros y.
      rewrite list_elem_of_fmap. intros (i & -> & Hi).
      apply elem_of_seq in Hi. lia.
  - intros y. rewrite elem_of_unique. unfold unique_inverse. simpl.
    rewrite <- list_fmap_compose. rewrite !list_elem_of_fmap. split.
    + intros (x & -> & Hx). exists (position x (unique v)). split; [done|].
      apply elem_of_seq. split; [lia|]. simpl.
      apply position_lt. by apply elem_of_unique.
    + intros (i & -> & Hi). apply elem_of_seq in Hi.
      destruct (lookup_lt_is_Some_2 (unique v) i) as [x Hx]; [lia|].
      exists x. split.
      * simpl. f_equal. f_equal. symmetry.
        apply position_of_lookup; auto using unique_NoDup.
      * apply elem_of_unique. by eapply list_elem_of_lookup_2.
Qed.

(** *** [dict.update] *)

Lemma dict_update_notin (d : gmap Z Z) (pairs : list (Z * Z)) (x : Z) :
  x ∉ pairs.*1 → dict_update d pairs !! x = d !! x.
Proof.
  unfold dict_update. revert d.
  induction pairs as [|[k y] pairs IH]; intros d Hx; simpl; [done|].
  rewrite fmap_cons, not_elem_of_cons in Hx. destruct Hx as [Hne Hx].
  rewrite IH by done. simpl in *. by rewrite lookup_insert_ne.
Qed.

Lemma dict_update_lookup (d : gmap Z Z) (keys vals : list Z) (i : nat)
    (x y : Z) :
  NoDup keys → keys !! i = Some x → vals !! i = Some y →
  dict_update d (zip keys vals) !! x = Some y.
Proof.
  unfold dict_update. revert d vals i.
  induction keys as [|k keys IH]; intros d vals i Hnd Hk Hv; [done|].
  apply NoDup_cons in Hnd as [Hk' Hnd].
  destruct vals as [|v vals]; [done|]. destruct i as [|i]; simpl in *.
  - simplify_eq. fold (dict_update (<[x:=y]> d) (zip keys vals)).
    rewrite dict_update_notin; [by rewrite lookup_insert_eq|].
    intros Hin. apply Hk'. apply list_elem_of_fmap in Hin as [[a b] [-> Hin]].
    by apply elem_of_zip_l in Hin.
  - eapply IH; eauto.
Qed.

(** *** two-dimensional arrays *)

Lemma cell_astype {A B} (f : A → B) (a : list (list A)) (r c : nat) :
  cell (astype f a) r c = f <$> cell a r c.
Proof.
  unfold cell, astype. rewrite list_lookup_fmap.
  destruct (a !! r) as [row|]; simpl; [|done]. by rewrite list_lookup_fmap.
Qed.

Lemma array_T_Ok_inv {A} (cols rows : list (list A)) :
  array_T cols = Ok rows →
  Forall2 (λ r row, Forall2 (λ c x, c !! r = Some x) cols row)
    (seq 0 (length rows)) rows
  ∧ Forall (λ c, length c = length rows) cols.
Proof.
  unfold array_T. destruct cols as [|c cols].
  { intros [= <-]. split; constructor. }
  case_decide as Hlen; [|done].
  destruct (mapM _ _) as [rows'|] eqn:Hm; simpl; [|done].
  intros [= <-]. apply mapM_Some in Hm.
  assert (length rows' = length c) as Hl.
  { apply Forall2_length in Hm. by rewrite length_seq in Hm. }
  rewrite Hl. split.
  - eapply Forall2_impl; [exact Hm|]. intros r row Hr. cbv beta in Hr.
    by apply mapM_Some in Hr.
  - done.
Qed.

Lemma array_T_cell {A} (cols rows : list (list A)) (j r : nat)
    (c : list A) (x : A) :
  array_T cols = Ok rows → cols !! j = Some c → c !! r = Some x →
  cell rows r j = Some x.
Proof.
  intros [Hrows Hlen]%array_T_Ok_inv Hc Hx. unfold cell.
  assert (r < length rows)%nat as Hr.
  { rewrite Forall_forall in Hlen. rewrite <- (Hlen c).
    - by eapply lookup_lt_Some.
    - by eapply list_elem_of_lookup_2. }
  destruct (Forall2_lookup_l _ _ _ r r Hrows) as (row & Hrow & Hcols).
  { by apply lookup_seq_lt. }
  rewrite Hrow. simpl.
  destruct (Forall2_lookup_l _ _ _ j c Hcols Hc) as (x' & Hx' & Hcx).
  congruence.
Qed.

Lemma array_T_entry {A} (cols rows : list (list A)) (row : list A) (x : A) :
  array_T cols = Ok rows → row ∈ rows → x ∈ row →
  ∃ c, c ∈ cols ∧ x ∈ c.
Proof.
  intros [Hrows _]%array_T_Ok_inv Hrow Hx.
  apply list_elem_of_lookup in Hrow as [r Hr].
  destruct (Forall2_lookup_r _ _ _ r row Hrows Hr) as (r' & _ & Hcols).
  apply list_elem_of_lookup in Hx as [j Hj].
  destruct (Forall2_lookup_r _ _ _ j x Hcols Hj) as (c & Hc & Hcx).
  exists c. split; by eapply list_elem_of_lookup_2.
Qed.

Lemma array_T_is_Ok {A} (cols : list (list A)) (n : nat) :
  Forall (λ c, length c = n) cols → ∃ rows, array_T cols = Ok rows.
Proof.
  intros Hlen. unfold array_T. destruct cols as [|c cols]; [by eexists|].
  assert (length c = n) as Hc by (by inversion Hlen).
  case_decide as Hd.
  - destruct (mapM_is_Some_2 (λ r, mapM (λ c', c' !! r) (c :: cols))
                (seq 0 (length c))) as [rows ->]; [|by eexists].
    apply Forall_forall. intros r Hr%elem_of_seq. unfold compose.
    apply mapM_is_Some_2. apply Forall_forall. intros c' Hc'. unfold compose.
    apply lookup_lt_is_Some_2. rewrite Forall_forall in Hlen.
    rewrite (Hlen c' Hc'). lia.
  - exfalso. apply Hd. eapply Forall_impl; [exact Hlen|]. simpl. congruence.
Qed.

End NpFacts.

(** ** [FeatureBuilder] *)

Module FeatureBuilderFacts.
Import Np NpFacts FeatureBuilder FeatureBuilderNotions.

Lemma vocabulary_lookup_elem (col : list Z) (off x : Z) :
  x ∈ col →
  vocabulary col off !! x = Some (Z.of_nat (position x (unique col)) + off).
Proof.
  intros Hx. apply elem_of_unique in Hx.
  eapply dict_update_lookup; [apply unique_NoDup|by apply position_lookup|].
  rewrite list_lookup_fmap, lookup_seq_lt; [done|by apply position_lt].
Qed.

Lemma vocabulary_lookup_None (col : list Z) (off x : Z) :
  x ∉ col → vocabulary col off !! x = None.
Proof.
  intros Hx. unfold vocabulary. rewrite dict_update_notin; [done|].
  intros Hin. apply Hx, elem_of_unique.
  apply list_elem_of_fmap in Hin as [[a b] [-> Hin]].
  by apply elem_of_zip_l in Hin.
Qed.

Lemma vocabulary_lookup_rank (col : list Z) (off : Z) (i : nat) (x : Z) :
  unique col !! i = Some x → vocabulary col off !! x = Some (Z.of_nat i + off).
Proof.
  intros Hi. rewrite vocabulary_lookup_elem.
  - by rewrite (position_of_lookup x (unique col) i (unique_NoDup col) Hi).
  - eapply elem_of_unique, list_elem_of_lookup_2, Hi.
Qed.

Lemma block_offset_0 (start : Z) cats : block_offset start cats 0 = start.
Proof. unfold block_offset. rewrite take_0. simpl. lia. Qed.

Lemma block_offset_S (start : Z) kv cats (j : nat) :
  block_offset start (kv :: cats) (S j)
  = block_offset (start + Z.of_nat (distinct kv.2)) cats j.
Proof. unfold block_offset. simpl. lia. Qed.

Lemma block_offset_mono (start : Z) cats (j : nat) :
  start ≤ block_offset start cats j.
Proof. unfold block_offset. lia. Qed.

Lemma cat_columns_length (start : Z) cats :
  length (cat_columns start cats) = length cats.
Proof. revert start. induction cats; intros; simpl; auto. Qed.

Lemma cat_columns_lookup (start : Z) cats (j : nat) kv :
  cats !! j = Some kv →
  cat_columns start cats !! j = Some (ranked (block_offset start cats j) kv.2).
Proof.
  revert start j. induction cats as [|kv' cats IH]; intros start j Hj; [done|].
  destruct j as [|j]; simpl in *.
  - simplify_eq. by rewrite block_offset_0.
  - rewrite block_offset_S. by apply IH.
Qed.

Section facts.
Context {num float32 : Type}.
Variable astype_float32 : num → float32.
Variable one : num.

Lemma fit_numerical_loop (n : Z) (a : loop) (nums : list (string * list num)) :
  let r := foldl (fit_numerical_step n) a nums in
  l_indices r
  = l_indices a
      ++ ((λ j : nat, times (l_count a + Z.of_nat j) n) <$> seq 0 (length nums))
  ∧ l_values r = l_values a ++ nums.*2
  ∧ l_count r = l_count a + Z.of_nat (length nums)
  ∧ l_dict r = l_dict a.
Proof.
  revert a. induction nums as [|kv nums IH]; intros a; simpl.
  - rewrite !app_nil_r. repeat split; lia.
  - destruct (IH (fit_numerical_step n a kv)) as (Hi & Hv & Hc & Hd).
    rewrite Hi, Hv, Hc, Hd. simpl. rewrite <- !app_assoc. simpl.
    repeat split; [|lia]. do 2 f_equal.
    + f_equal. lia.
    + rewrite <- fmap_S_seq, <- list_fmap_compose.
      apply list_fmap_ext. intros _ j _. simpl. f_equal. lia.
Qed.

Lemma fit_categorical_loop (n : Z) (a : loop) (cats : list (string * list Z)) :
  let r := foldl (fit_categorical_step one n) a cats in
  l_indices r = l_indices a ++ cat_columns (l_count a) cats
  ∧ l_values r = l_values a ++ replicate (length cats) (times one n)
  ∧ l_count r = block_offset (l_count a) cats (length cats).
Proof.
  revert a. induction cats as [|kv cats IH]; intros a; simpl.
  - rewrite !app_nil_r, block_offset_0. auto.
  - destruct (IH (fit_categorical_step one n a kv)) as (Hi & Hv & Hc).
    rewrite Hi, Hv, Hc, block_offset_S. simpl.
    rewrite <- !app_assoc, unique_length. simpl.
    unfold ranked, distinct. rewrite <- list_fmap_compose. auto.
Qed.

Lemma fit_categorical_dict (n : Z) (a : loop) (cats : list (string * list Z)) :
  NoDup cats.*1 →
  (∀ k, k ∈ cats.*1 → l_dict a !! k = None) →
  let r := foldl (fit_categorical_step one n) a cats in
  (∀ k, k ∉ cats.*1 → l_dict r !! k = l_dict a !! k)
  ∧ (∀ j kv, cats !! j = Some kv →
       l_dict r !! kv.1
       = Some (vocabulary kv.2 (block_offset (l_count a) cats j))).
Proof.
  revert a. induction cats as [|kv cats IH]; intros a Hnd Hfresh; simpl.
  { split; [done|]. intros j kv Hj. done. }
  rewrite fmap_cons in Hnd. apply NoDup_cons in Hnd as [Hkv Hnd].
  destruct (IH (fit_categorical_step one n a kv) Hnd) as [Hout Hin].
  { intros k Hk. simpl. rewrite lookup_insert_ne.
    - apply Hfresh. rewrite fmap_cons. by right.
    - intros Heq. apply Hkv. by rewrite Heq. }
  split.
  - intros k Hk. rewrite not_elem_of_cons in Hk.
    destruct Hk as [Hne Hk]. rewrite Hout by done. simpl.
    rewrite lookup_insert_ne; [done|congruence].
  - intros [|j] kv' Hj; simpl in Hj.
    + simplify_eq. rewrite Hout by done.
      unfold fit_categorical_step. cbn [l_dict].
      rewrite lookup_insert_eq, block_offset_0. f_equal.
      unfold defaultdict_getitem.
      rewrite (Hfresh kv'.1) by (rewrite fmap_cons; left; done).
      by rewrite unique_shifted_inverse.
    + rewrite (Hin j kv' Hj), block_offset_S. simpl.
      by rewrite unique_length.
Qed.

(** *** What a successful [fit] returns *)

Lemma fit_Ok_inv (self self' : t) cats (nums : list (string * list num))
    (n : Z) uf itf fi (fv : list (list float32)) (fs : Z) :
  fit astype_float32 one self cats nums n uf itf = Ok (self', (fi, fv, fs)) →
  let a := fit_loops one cats nums n in
  self' = set_state self
            {| total_count := l_count a;
               val_index_dict := l_dict a;
               feature_size := fs |}
  ∧ fs = l_count a + identity_width self
  ∧ (include_user_item self = true →
       is_Some (n_users self) ∧ is_Some (n_items self)
       ∧ is_Some uf ∧ is_Some itf)
  ∧ ∃ rows,
      array_T (l_indices a ++ fit_identity_columns self (l_count a) uf itf)
      = Ok rows
      ∧ fi = astype astype_int32 rows.
Proof.
  intros Hfit a. unfold fit in Hfit. fold a in Hfit.
  unfold identity_width, fit_identity_columns.
  destruct (include_user_item self).
  - destruct uf as [u|]; [|done]. destruct (n_users self) as [nu|]; [|done].
    destruct itf as [i|]; [|done]. destruct (n_items self) as [ni|]; [|done].
    simpl in Hfit.
    apply bind_Ok in Hfit as (rows & Hrows & Hfit).
    apply bind_Ok in Hfit as (vrows & Hvrows & Hfit).
    injection Hfit as <- <- <- <-.
    rewrite <- app_assoc in Hrows. simpl in *.
    repeat split; eauto; try lia.
  - simpl in Hfit.
    apply bind_Ok in Hfit as (rows & Hrows & Hfit).
    apply bind_Ok in Hfit as (vrows & Hvrows & Hfit).
    injection Hfit as <- <- <- <-.
    rewrite app_nil_r. repeat split; eauto; try lia; done.
Qed.

Lemma fit_loops_count cats (nums : list (string * list num)) (n : Z) :
  l_count (fit_loops one cats nums n)
  = Z.of_nat (length nums)
    + Z.of_nat (sum_list_with (λ kv, distinct kv.2) cats).
Proof.
  unfold fit_loops.
  destruct (fit_categorical_loop n
              (foldl (fit_numerical_step n)
                 {| l_indices := []; l_values := []; l_count := 0;
                    l_dict := ∅ |} nums) cats) as (_ & _ & ->).
  destruct (fit_numerical_loop n
              {| l_indices := []; l_values := []; l_count := 0;
                 l_dict := ∅ |} nums) as (_ & _ & -> & _).
  unfold block_offset. rewrite firstn_all. simpl. lia.
Qed.

Lemma fit_loops_indices cats (nums : list (string * list num)) (n : Z) :
  l_indices (fit_loops one cats nums n)
  = ((λ j : nat, times (Z.of_nat j) n) <$> seq 0 (length nums))
      ++ cat_columns (Z.of_nat (length nums)) cats.
Proof.
  unfold fit_loops.
  destruct (fit_categorical_loop n
              (foldl (fit_numerical_step n)
                 {| l_indices := []; l_values := []; l_count := 0;
                    l_dict := ∅ |} nums) cats) as (-> & _ & _).
  destruct (fit_numerical_loop n
              {| l_indices := []; l_values := []; l_count := 0;
                 l_dict := ∅ |} nums) as (-> & _ & -> & _).
  simpl. done.
Qed.

Lemma fit_loops_values cats (nums : list (string * list num)) (n : Z) :
  l_values (fit_loops one cats nums n)
  = nums.*2 ++ replicate (length cats) (times one n).
Proof.
  unfold fit_loops.
  destruct (fit_categorical_loop n
              (foldl (fit_numerical_step n)
                 {| l_indices := []; l_values := []; l_count := 0;
                    l_dict := ∅ |} nums) cats) as (_ & -> & _).
  destruct (fit_numerical_loop n
              {| l_indices := []; l_values := []; l_count := 0;
                 l_dict := ∅ |} nums) as (_ & -> & _ & _).
  simpl. done.
Qed.

Lemma fit_loops_dict cats (nums : list (string * list num)) (n : Z)
    (j : nat) kv :
  NoDup cats.*1 → cats !! j = Some kv →
  l_dict (fit_loops one cats nums n) !! kv.1
  = Some (vocabulary kv.2 (block_offset (Z.of_nat (length nums)) cats j)).
Proof.
  intros Hnd Hj. unfold fit_loops.
  pose proof (fit_numerical_loop n
                {| l_indices := []; l_values := []; l_count := 0;
                   l_dict := ∅ |} nums) as (_ & _ & Hc & Hd).
  simpl in Hc, Hd.
  destruct (fit_categorical_dict n
              (foldl (fit_numerical_step n)
                 {| l_indices := []; l_values := []; l_count := 0;
                    l_dict := ∅ |} nums) cats Hnd) as [_ Hin].
  { intros k _. by rewrite Hd. }
  rewrite (Hin j kv Hj), Hc. done.
Qed.

End facts.
End FeatureBuilderFacts.

Module TransformFacts.
Import Np NpFacts FeatureBuilder FeatureBuilderNotions FeatureBuilderFacts.

Lemma defaultdict_getitem_1 d k : (defaultdict_getitem d k).1 = vocab_of d k.
Proof. unfold defaultdict_getitem, vocab_of. by destruct (d !! k). Qed.

Lemma vocab_of_getitem d k k' :
  vocab_of (defaultdict_getitem d k').2 k = vocab_of d k.
Proof.
  unfold defaultdict_getitem, vocab_of.
  destruct (d !! k') eqn:Hk'; simpl; [done|].
  destruct (decide (k' = k)) as [->|Hne].
  - by rewrite lookup_insert_eq, Hk'.
  - by rewrite lookup_insert_ne.
Qed.

Lemma vocab_of_touch d tcats k : vocab_of (touch d tcats) k = vocab_of d k.
Proof.
  unfold touch. revert d. induction tcats as [|kv l IH]; intros d; simpl.
  - done.
  - by rewrite IH, vocab_of_getitem.
Qed.

Lemma getitem_lookup_Some d k k' m :
  d !! k = Some m → (defaultdict_getitem d k').2 !! k = Some m.
Proof.
  unfold defaultdict_getitem. intros Hk.
  destruct (d !! k') eqn:Hk'; simpl; [done|].
  rewrite lookup_insert_ne; [done|congruence].
Qed.

Lemma touch_lookup_Some d tcats k m :
  d !! k = Some m → touch d tcats !! k = Some m.
Proof.
  unfold touch. revert d. induction tcats as [|kv l IH]; intros d Hk; simpl.
  - done.
  - by apply IH, getitem_lookup_Some.
Qed.

Lemma touch_lookup_inv d tcats k m :
  touch d tcats !! k = Some m →
  d !! k = Some m ∨ (m = ∅ ∧ k ∈ tcats.*1 ∧ d !! k = None).
Proof.
  unfold touch. revert d.
  induction tcats as [|kv l IH]; intros d Hk; simpl in *; [by left|].
  apply IH in Hk as [Hk|(-> & Hin & Hk)].
  - unfold defaultdict_getitem in Hk.
    destruct (d !! kv.1) eqn:Hd; simpl in Hk; [by left|].
    destruct (decide (kv.1 = k)) as [<-|Hne].
    + rewrite lookup_insert_eq in Hk. injection Hk as <-.
      right. repeat split; [by left|done].
    + rewrite lookup_insert_ne in Hk by done. by left.
  - unfold defaultdict_getitem in Hk.
    destruct (d !! kv.1) eqn:Hd; simpl in Hk.
    + right. repeat split; [by right|done].
    + destruct (decide (kv.1 = k)) as [<-|Hne].
      * by rewrite lookup_insert_eq in Hk.
      * rewrite lookup_insert_ne in Hk by done.
        right. repeat split; [by right|done].
Qed.

Lemma touch_known d tcats :
  Forall (λ kv, is_Some (d !! kv.1)) tcats → touch d tcats = d.
Proof.
  unfold touch. induction 1 as [|kv l [m Hm] _ IH]; simpl; [done|].
  unfold defaultdict_getitem at 2. rewrite Hm. simpl. exact IH.
Qed.

Lemma touch_is_Some d tcats kv :
  kv ∈ tcats → is_Some (touch d tcats !! kv.1).
Proof.
  unfold touch. revert d. induction tcats as [|kv' l IH]; intros d Hin; simpl.
  - by apply elem_of_nil in Hin.
  - apply elem_of_cons in Hin as [->|Hin]; [|by apply IH].
    assert (is_Some ((defaultdict_getitem d kv'.1).2 !! kv'.1)) as [m Hm].
    { unfold defaultdict_getitem. destruct (d !! kv'.1) eqn:Hk; simpl.
      - by rewrite Hk.
      - by rewrite lookup_insert_eq. }
    exists m. by apply (touch_lookup_Some _ l).
Qed.

Lemma touch_idem d tcats : touch (touch d tcats) tcats = touch d tcats.
Proof.
  apply touch_known, Forall_forall. intros kv Hkv. by apply touch_is_Some.
Qed.

Lemma encode_touched st tcats kv : encode (touched st tcats) kv = encode st kv.
Proof. unfold encode, touched. simpl. by rewrite vocab_of_touch. Qed.

Lemma set_state_id (self : t) (st : fitted) :
  state self = Some st → set_state self (touched st []) = self.
Proof. destruct self, st. simpl. by intros ->. Qed.

Section facts.
Context {num float32 : Type}.
Variable astype_float32 : num → float32.
Variable one : num.

Lemma transform_categorical_fitted (self : t) (st : fitted) tcats (n : Z)
    (I : list (list Z)) (V : list (list num)) :
  state self = Some st →
  transform_categorical one self tcats n I V
  = Ok (set_state self (touched st tcats),
        I ++ (encode st <$> tcats),
        V ++ replicate (length tcats) (times one n)).
Proof.
  revert self st I V.
  induction tcats as [|kv l IH]; intros self st I V Hst; simpl.
  - rewrite !app_nil_r. by rewrite set_state_id.
  - rewrite Hst. simpl.
    erewrite IH by reflexivity. rewrite <- !app_assoc. simpl.
    rewrite defaultdict_getitem_1.
    replace (encode
               {| total_count := total_count st;
                  val_index_dict :=
                    (defaultdict_getitem (val_index_dict st) kv.1).2;
                  feature_size := feature_size st |} <$> l)
      with (encode st <$> l); [done|].
    apply list_fmap_ext. intros _ kv' _. unfold encode. simpl.
    by rewrite vocab_of_getitem.
Qed.

Lemma transform_fitted (self : t) (st : fitted) tcats
    (tnums : list (string * list num)) (n : Z) (tu ti : option (list Z)) :
  state self = Some st →
  transform astype_float32 one self tcats tnums n tu ti
  = _ ← identity_check self tu ti;
    rows ← array_T (transform_columns self st tcats tnums n tu ti);
    vrows ← array_T (transform_value_columns one self tcats tnums n);
    Ok (set_state self (touched st tcats),
        (astype astype_int32 rows, astype astype_float32 vrows)).
Proof.
  intros Hst. unfold transform.
  destruct (fit_numerical_loop n
              {| l_indices := []; l_values := []; l_count := 0;
                 l_dict := ∅ |} tnums) as (Hi & Hv & _ & _).
  change (@fit_numerical_step num n) with (@transform_numerical_step num n)
    in Hi, Hv.
  rewrite Hi, Hv. simpl.
  rewrite (transform_categorical_fitted self st) by done. simpl.
  unfold transform_columns, transform_value_columns,
    transform_identity_columns, identity_check.
  destruct (include_user_item self) eqn:Hinc; simpl.
  - destruct tu as [u|]; [|done]. destruct ti as [i|]; [|done].
    destruct (n_users self) as [nu|]; [|done].
    simpl. rewrite <- !app_assoc. reflexivity.
  - rewrite !app_nil_r. reflexivity.
Qed.

Lemma transform_Ok_inv (self self' : t) (st : fitted) tcats
    (tnums : list (string * list num)) (n : Z) (tu ti : option (list Z))
    I (V : list (list float32)) :
  state self = Some st →
  transform astype_float32 one self tcats tnums n tu ti = Ok (self', (I, V)) →
  self' = set_state self (touched st tcats)
  ∧ identity_check self tu ti = Ok ()
  ∧ ∃ rows,
      array_T (transform_columns self st tcats tnums n tu ti) = Ok rows
      ∧ I = astype astype_int32 rows.
Proof.
  intros Hst. rewrite (transform_fitted self st) by done. intros Ht.
  apply bind_Ok in Ht as ([] & Hc & Ht).
  apply bind_Ok in Ht as (rows & Hrows & Ht).
  apply bind_Ok in Ht as (vrows & Hvrows & Ht).
  injection Ht as <- <- <-. eauto.
Qed.

End facts.
End TransformFacts.

Module FitSpec.
Import Np NpFacts FeatureBuilder FeatureBuilderNotions FeatureBuilderFacts.

Lemma cat_columns_lengths (start : Z) cats (m : nat) :
  Forall (λ kv : string * list Z, length kv.2 = m) cats →
  Forall (λ c, length c = m) (cat_columns start cats).
Proof.
  intros Hc. revert start. induction Hc as [|kv cats Hkv _ IH]; intros start.
  - constructor.
  - simpl. constructor; [|apply IH]. unfold ranked. by rewrite length_fmap.
Qed.

Lemma sorted_lt_lookup_inv (l : list Z) (i j : nat) (x y : Z) :
  StronglySorted Z.lt l → l !! i = Some x → l !! j = Some y →
  x < y → (i < j)%nat.
Proof.
  intros Hl Hi Hj Hxy.
  destruct (Nat.lt_trichotomy i j) as [Hlt|[->|Hgt]]; [done| |].
  - simplify_eq. lia.
  - pose proof (sorted_lt_lookup l j i y x Hl Hj Hi Hgt). lia.
Qed.

Section spec.
Context {num float32 : Type}.
Variable astype_float32 : num → float32.
Variable one : num.

Lemma fit_is_Ok (self : t) cats (nums : list (string * list num)) (n : Z)
    (uf itf : option (list Z)) :
  fit_inputs_ok self cats nums n uf itf →
  ∃ r, fit astype_float32 one self cats nums n uf itf = Ok r.
Proof.
  intros (Hcats & Hnums & Hid). unfold fit.
  set (a := fit_loops one cats nums n).
  assert (Forall (λ c, length c = Z.to_nat n) (l_indices a)) as Hi.
  { unfold a. rewrite fit_loops_indices. apply Forall_app. split.
    - apply Forall_fmap, Forall_forall. intros j _. simpl.
      unfold times. by rewrite length_replicate.
    - by apply cat_columns_lengths. }
  assert (Forall (λ c, length c = Z.to_nat n) (l_values a)) as Hv.
  { unfold a. rewrite fit_loops_values. apply Forall_app. split.
    - apply Forall_fmap. eapply Forall_impl; [exact Hnums|]. done.
    - apply Forall_replicate. unfold times. by rewrite length_replicate. }
  destruct (include_user_item self).
  - destruct Hid as ([nu ->] & [ni ->] & u & i & -> & -> & Hu & Hi');
      [done|]. simpl.
    destruct (array_T_is_Ok
                ((l_indices a ++ [(λ u0, u0 + l_count a) <$> u])
                   ++ [(λ i0, i0 + (l_count a + nu)) <$> i])
                (Z.to_nat n)) as [rows ->].
    { rewrite !Forall_app, !Forall_singleton, !length_fmap. auto. }
    destruct (array_T_is_Ok
                (l_values a ++ [times one n; times one n])
                (Z.to_nat n)) as [vrows ->].
    { rewrite Forall_app. split; [done|]. unfold times.
      repeat constructor; by rewrite length_replicate. }
    simpl. eauto.
  - simpl.
    destruct (array_T_is_Ok (l_indices a) (Z.to_nat n) Hi) as [rows ->].
    destruct (array_T_is_Ok (l_values a) (Z.to_nat n) Hv) as [vrows ->].
    simpl. eauto.
Qed.

(** C5 (amended): [fit] returns on inputs whose columns have
    [train_size] entries, and the [feature_size] it returns, which is
    also the one it stores, is the number of numerical columns plus the
    numbers of distinct values of the categorical columns, plus
    [n_users] and [n_items] when the identity blocks are enabled; with
    three numerical columns and two categorical columns of two and three
    distinct values, identity blocks disabled, it is 8. *)
Theorem fit_feature_size (self : t) cats (nums : list (string * list num))
    (n : Z) (uf itf : option (list Z)) :
  (fit_inputs_ok self cats nums n uf itf →
   ∃ r, fit astype_float32 one self cats nums n uf itf = Ok r)
  ∧ (∀ self' fi fv fs,
       fit astype_float32 one self cats nums n uf itf
       = Ok (self', (fi, fv, fs)) →
       feature_size <$> state self' = Some fs
       ∧ ∃ nu ni,
           (include_user_item self = true →
            n_users self = Some nu ∧ n_items self = Some ni)
           ∧ fs = Z.of_nat (length nums)
                  + Z.of_nat (sum_list_with (λ kv, distinct kv.2) cats)
                  + (if include_user_item self then nu + ni else 0))
  ∧ (∀ self' fi fv fs,
       fit astype_float32 one self cats nums n uf itf
       = Ok (self', (fi, fv, fs)) →
       length nums = 3%nat → distinct <$> cats.*2 = [2; 3]%nat →
       include_user_item self = false →
       fs = 8).
Proof.
  split; [apply fit_is_Ok|].
  assert (∀ self' fi fv fs,
            fit astype_float32 one self cats nums n uf itf
            = Ok (self', (fi, fv, fs)) →
            state self' = Some {| total_count := l_count (fit_loops one cats nums n);
                                  val_index_dict := l_dict (fit_loops one cats nums n);
                                  feature_size := fs |}
            ∧ fs = Z.of_nat (length nums)
                   + Z.of_nat (sum_list_with (λ kv, distinct kv.2) cats)
                   + identity_width self
            ∧ (include_user_item self = true →
               is_Some (n_users self) ∧ is_Some (n_items self))) as Hinv.
  { intros self' fi fv fs (-> & Hfs & Hid & _)%fit_Ok_inv.
    rewrite fit_loops_count in Hfs. split; [done|]. split; [lia|].
    intros Hinc. destruct (Hid Hinc) as (? & ? & _). done. }
  split.
  - intros self' fi fv fs (Hst & Hfs & Hid)%Hinv.
    split; [by rewrite Hst|]. unfold identity_width in Hfs.
    destruct (include_user_item self).
    + destruct Hid as ([nu Hnu] & [ni Hni]); [done|].
      exists nu, ni. rewrite Hnu, Hni in Hfs. simpl in Hfs.
      split; [done|lia].
    + exists 0, 0. split; [done|lia].
  - intros self' fi fv fs (_ & Hfs & _)%Hinv Hnums Hcats Hinc.
    unfold identity_width in Hfs. rewrite Hinc, Hnums in Hfs.
    destruct cats as [|kv1 [|kv2 [|kv3 cats]]]; try done.
    injection Hcats as Hd1 Hd2. simpl in Hfs. lia.
Qed.

(** C8: [fit] does not depend on what the builder held before: two
    builders made with the same arguments return the same arrays, the
    same [feature_size] and end in the same state.  On columns of
    [train_size] entries [fit] returns; and a [fit] that returns leaves a
    state with the returned [feature_size] and, for every categorical
    column, a vocabulary in which the distinct values of the column are
    numbered in ascending order by the consecutive indices of the
    column's block. *)
Theorem fit_deterministic (self1 self2 : t) cats
    (nums : list (string * list num)) (n : Z) (uf itf : option (list Z)) :
  same_config self1 self2 → NoDup cats.*1 →
  fit astype_float32 one self1 cats nums n uf itf
  = fit astype_float32 one self2 cats nums n uf itf
  ∧ (fit_inputs_ok self1 cats nums n uf itf →
     ∃ r, fit astype_float32 one self1 cats nums n uf itf = Ok r)
  ∧ ∀ self' out,
      fit astype_float32 one self1 cats nums n uf itf = Ok (self', out) →
      ∃ st,
        state self' = Some st
        ∧ feature_size st = out.2
        ∧ ∀ j kv,
            cats !! j = Some kv →
            let off := block_offset (Z.of_nat (length nums)) cats j in
            ∃ m, val_index_dict st !! kv.1 = Some m
                 ∧ (∀ x, x ∈ kv.2 ↔ is_Some (m !! x))
                 ∧ (∀ x y ix iy,
                      m !! x = Some ix → m !! y = Some iy → x < y →
                      ix < iy)
                 ∧ (∀ idx, (∃ x, m !! x = Some idx)
                           ↔ off ≤ idx < off + Z.of_nat (distinct kv.2)).
Proof.
  intros (Hvs & Hinc & Hnu & Hni) Hnd. split.
  { unfold fit, set_state. by rewrite Hvs, Hinc, Hnu, Hni. }
  split; [apply fit_is_Ok|].
  intros self' [[fi fv] fs] (-> & _)%fit_Ok_inv.
  eexists. split; [done|]. split; [done|].
  intros j kv Hj off. simpl.
  rewrite (fit_loops_dict one cats nums n j kv Hnd Hj). fold off.
  eexists. split; [done|].
  assert (∀ x ix, vocabulary kv.2 off !! x = Some ix →
            x ∈ kv.2 ∧ ix = Z.of_nat (position x (unique kv.2)) + off)
    as Hinv.
  { intros x ix Hx. destruct (decide (x ∈ kv.2)) as [Hin|Hout].
    - rewrite vocabulary_lookup_elem in Hx by done. split; congruence.
    - rewrite vocabulary_lookup_None in Hx by done. done. }
  split; [|split].
  - intros x. split.
    + intros Hx. rewrite vocabulary_lookup_elem by done. eauto.
    + intros [ix Hx]. by apply Hinv in Hx as [? _].
  - intros x y ix iy [Hx ->]%Hinv [Hy ->]%Hinv Hxy.
    apply elem_of_unique, position_lookup in Hx, Hy.
    pose proof (sorted_lt_lookup_inv _ _ _ _ _ (unique_sorted kv.2)
                  Hx Hy Hxy). lia.
  - intros idx. unfold distinct. rewrite <- unique_length. split.
    + intros [x [Hx ->]%Hinv].
      apply elem_of_unique, position_lt in Hx. lia.
    + intros Hidx.
      destruct (lookup_lt_is_Some_2 (unique kv.2) (Z.to_nat (idx - off)))
        as [x Hx]; [lia|].
      exists x. rewrite (vocabulary_lookup_rank _ _ _ _ Hx). f_equal. lia.
Qed.

End spec.
End FitSpec.

Module TransformSpec.
Import Np NpFacts FeatureBuilder FeatureBuilderNotions FeatureBuilderFacts
  TransformFacts FitSpec.

Lemma dict_update_inv (d : gmap Z Z) (pairs : list (Z * Z)) (x y : Z) :
  dict_update d pairs !! x = Some y → d !! x = Some y ∨ (x, y) ∈ pairs.
Proof.
  unfold dict_update. revert d.
  induction pairs as [|[k v] pairs IH]; intros d; simpl; [auto|].
  intros [Hd|Hin]%IH.
  - simpl in Hd. destruct (decide (k = x)) as [->|Hne].
    + rewrite lookup_insert_eq in Hd. injection Hd as ->. right. by left.
    + rewrite lookup_insert_ne in Hd by done. by left.
  - right. by right.
Qed.

Lemma encode_lookup (st : fitted) (kv : string * list Z) (r : nat) (v : Z) :
  kv.2 !! r = Some v →
  encode st kv !! r = Some (default (feature_size st) (vocab_index st kv.1 v)).
Proof.
  intros Hv. unfold encode, fillna, series_map, vocab_index.
  by rewrite !list_lookup_fmap, Hv.
Qed.


Section spec.
Context {num float32 : Type}.
Variable astype_float32 : num → float32.
Variable one : num.

Lemma fit_categorical_below (n : Z) (a : loop (num:=num)) cats :
  0 ≤ l_count a → dict_below (l_dict a) (l_count a) →
  let r := foldl (fit_categorical_step one n) a cats in
  dict_below (l_dict r) (l_count r).
Proof.
  revert a. induction cats as [|kv cats IH]; intros a H0 Hb; simpl; [done|].
  apply IH; unfold fit_categorical_step; cbn [l_dict l_count]; [lia|].
  intros k m x idx Hk Hm.
  destruct (decide (kv.1 = k)) as [<-|Hne].
  - rewrite lookup_insert_eq in Hk. injection Hk as <-.
    apply dict_update_inv in Hm as [Hm|Hm].
    + rewrite defaultdict_getitem_1 in Hm. unfold vocab_of in Hm.
      destruct (l_dict a !! kv.1) as [e|] eqn:He; simpl in Hm; [|done].
      pose proof (Hb _ _ _ _ He Hm). lia.
    + apply elem_of_zip_r in Hm.
      change (idx ∈ unique ((λ i, i + l_count a) <$> (unique_inverse kv.2).2))
        in Hm.
      rewrite unique_shifted_inverse in Hm.
      apply list_elem_of_fmap in Hm as (i & -> & Hi%elem_of_seq).
      unfold unique_inverse. simpl. lia.
  - rewrite lookup_insert_ne in Hk by done.
    pose proof (Hb _ _ _ _ Hk Hm). lia.
Qed.

Lemma fit_loops_below cats (nums : list (string * list num)) (n : Z) :
  dict_below (l_dict (fit_loops one cats nums n))
    (l_count (fit_loops one cats nums n)).
Proof.
  unfold fit_loops. apply fit_categorical_below.
  - destruct (fit_numerical_loop n
                {| l_indices := []; l_values := []; l_count := 0;
                   l_dict := ∅ |} nums) as (_ & _ & -> & _). simpl. lia.
  - destruct (fit_numerical_loop n
                {| l_indices := []; l_values := []; l_count := 0;
                   l_dict := ∅ |} nums) as (_ & _ & _ & ->). simpl.
    intros k m x idx Hk. done.
Qed.


Lemma transform_columns_cat (self : t) st tcats
    (tnums : list (string * list num)) n tu ti (j : nat) kv :
  tcats !! j = Some kv →
  transform_columns self st tcats tnums n tu ti !! (length tnums + j)%nat
  = Some (encode st kv).
Proof.
  intros Hj. unfold transform_columns.
  rewrite lookup_app_r by (rewrite length_fmap, length_seq; lia).
  rewrite length_fmap, length_seq.
  replace (length tnums + j - length tnums)%nat with j by lia.
  rewrite lookup_app_l.
  - by rewrite list_lookup_fmap, Hj.
  - rewrite length_fmap. by eapply lookup_lt_Some.
Qed.


Lemma in_range_pos (bound : Z) (l : list Z) :
  Forall (λ x, 0 ≤ x < bound) l → (0 < length l)%nat → 0 < bound.
Proof. destruct 1; simpl; lia. Qed.

(** C3 (amended): after a [fit] whose [feature_size] fits in int32,
    [transform] resolves a categorical value without an index to the
    index [feature_size]; and when, in addition, it is given no more
    numerical columns than [fit] was and the identity arguments are known
    users and items, every index it produces is in [0, feature_size) or is
    [feature_size]. *)
Theorem transform_index_range (self0 self self' : t) cats
    (nums tnums : list (string * list num)) (n tn : Z)
    (uf itf tu ti : option (list Z)) tcats fi I
    (fv V : list (list float32)) (fs : Z) :
  fit astype_float32 one self0 cats nums n uf itf = Ok (self, (fi, fv, fs)) →
  transform astype_float32 one self tcats tnums tn tu ti
  = Ok (self', (I, V)) →
  int32_min ≤ fs ≤ int32_max →
  (∀ st j kv r v,
     state self = Some st → tcats !! j = Some kv → kv.2 !! r = Some v →
     vocab_index st kv.1 v = None →
     cell I r (length tnums + j) = Some fs)
  ∧ ((length tnums ≤ length nums)%nat →
     identity_in_range self tu ti →
     ∀ row x, row ∈ I → x ∈ row → 0 ≤ x < fs ∨ x = fs).
Proof.
  intros (-> & Hfs & Hfid & _)%fit_Ok_inv Ht Hfit32.
  set (a := fit_loops one cats nums n) in *.
  set (st0 := {| total_count := l_count a; val_index_dict := l_dict a;
                 feature_size := fs |}) in *.
  eapply (transform_Ok_inv _ _ _ _ st0) in Ht as (_ & Hchk & rows & Hrows & ->);
    [|done].
  split.
  - intros st j kv r v [= <-] Hj Hv Hnone.
    pose proof (transform_columns_cat (set_state self0 st0) st0 tcats tnums
                  tn tu ti j kv Hj) as Hcol.
    pose proof (encode_lookup st0 kv r v Hv) as Hcell.
    rewrite Hnone in Hcell. simpl in Hcell.
    pose proof (array_T_cell _ _ _ _ _ _ Hrows Hcol Hcell) as Hc.
    rewrite cell_astype, Hc. simpl. f_equal. by apply astype_int32_id.
  - intros Hnum Hrange.
    pose proof (fit_loops_count one cats nums n) as Hcount. fold a in Hcount.
    pose proof (fit_loops_below cats nums n) as Hbelow. fold a in Hbelow.
    pose proof (array_T_Ok_inv _ _ Hrows) as [_ Hlen].
    (* with at least one row, the identity block has positive widths *)
    assert ((0 < length rows)%nat →
            l_count a ≤ fs
            ∧ Forall (λ c, Forall (λ y, l_count a ≤ y < fs) c)
                (transform_identity_columns (set_state self0 st0) st0 tu ti))
      as Hwidth.
    { intros Hpos. unfold identity_width in Hfs.
      unfold identity_check in Hchk.
      unfold transform_columns in Hlen. rewrite !Forall_app in Hlen.
      destruct Hlen as (_ & _ & Hlen).
      unfold transform_identity_columns in *. simpl in *.
      destruct (include_user_item self0); [|split; [lia|constructor]].
      destruct Hfid as ([nu Hnu] & [ni Hni] & _); [done|].
      destruct tu as [u|]; [|done]. destruct ti as [i|]; [|done].
      rewrite Hnu, Hni in *. simpl in *.
      destruct (Hrange nu ni u i) as [Hu Hi]; try done.
      inversion Hlen as [|? ? Hlu Hlen']; subst.
      inversion Hlen' as [|? ? Hli _]; subst.
      rewrite length_fmap in Hlu, Hli.
      pose proof (in_range_pos nu u Hu ltac:(lia)).
      pose proof (in_range_pos ni i Hi ltac:(lia)).
      split; [lia|]. repeat constructor.
      - apply Forall_fmap. eapply Forall_impl; [exact Hu|]. simpl. lia.
      - apply Forall_fmap. eapply Forall_impl; [exact Hi|]. simpl. lia. }
    intros row x Hrow Hx. unfold astype in Hrow.
    apply list_elem_of_fmap in Hrow as (row' & -> & Hrow').
    apply list_elem_of_fmap in Hx as (y & -> & Hy).
    assert (0 < length rows)%nat as Hpos.
    { destruct rows; [by apply elem_of_nil in Hrow'|simpl; lia]. }
    destruct (Hwidth Hpos) as [Hle Hidc].
    destruct (array_T_entry _ _ _ _ Hrows Hrow' Hy) as (c & Hc & Hyc).
    assert (0 ≤ y < fs ∨ y = fs) as Hyr.
    { unfold transform_columns in Hc.
      rewrite !elem_of_app in Hc. destruct Hc as [Hc|[Hc|Hc]].
      - apply list_elem_of_fmap in Hc as (j & -> & Hj%elem_of_seq).
        unfold times in Hyc. apply elem_of_replicate in Hyc as [-> _]. lia.
      - apply list_elem_of_fmap in Hc as (kv & -> & Hkv).
        unfold encode, fillna, series_map in Hyc.
        rewrite <- list_fmap_compose in Hyc.
        apply list_elem_of_fmap in Hyc as (v & -> & Hv). simpl.
        unfold vocab_of.
        destruct (l_dict a !! kv.1) as [m|] eqn:Hm; simpl.
        + destruct (m !! v) as [idx|] eqn:Hidx; simpl; [|by right].
          pose proof (Hbelow _ _ _ _ Hm Hidx). lia.
        + rewrite lookup_empty. simpl. by right.
      - rewrite Forall_forall in Hidc. specialize (Hidc c Hc).
        rewrite Forall_forall in Hidc. specialize (Hidc y Hyc). lia. }
    rewrite astype_int32_id; [done|]. unfold int32_min in *. lia.
Qed.

(** C4: a raw value of a categorical column of [fit] has an index in
    the frozen vocabulary, the rank of the value among the distinct
    values of the column plus the start of the column's block, and a
    later [transform] of a column of that name writes for the value the
    very index that [fit] wrote for it (as stored, in int32; it is the
    vocabulary's index itself whenever that fits in int32). *)
Theorem transform_round_trip (self0 self self' : t) cats
    (nums tnums : list (string * list num)) (n tn : Z)
    (uf itf tu ti : option (list Z)) tcats fi I
    (fv V : list (list float32)) (fs : Z)
    (j0 j r0 r : nat) (k : string) (col tcol : list Z) (v : Z) :
  NoDup cats.*1 →
  fit astype_float32 one self0 cats nums n uf itf = Ok (self, (fi, fv, fs)) →
  cats !! j0 = Some (k, col) → col !! r0 = Some v →
  transform astype_float32 one self tcats tnums tn tu ti
  = Ok (self', (I, V)) →
  tcats !! j = Some (k, tcol) → tcol !! r = Some v →
  ∃ st idx,
    state self = Some st
    ∧ vocab_index st k v = Some idx
    ∧ idx = block_offset (Z.of_nat (length nums)) cats j0
            + Z.of_nat (position v (unique col))
    ∧ 0 ≤ idx < total_count st
    ∧ cell fi r0 (length nums + j0) = Some (astype_int32 idx)
    ∧ cell I r (length tnums + j) = cell fi r0 (length nums + j0)
    ∧ (idx ≤ int32_max → cell I r (length tnums + j) = Some idx).
Proof.
  intros Hnd (-> & Hfs & _ & rows0 & Hrows0 & ->)%fit_Ok_inv Hj0 Hr0 Ht Hj Hr.
  set (a := fit_loops one cats nums n) in *.
  set (st0 := {| total_count := l_count a; val_index_dict := l_dict a;
                 feature_size := fs |}) in *.
  eapply (transform_Ok_inv _ _ _ _ st0) in Ht as (_ & _ & rows & Hrows & ->);
    [|done].
  set (off := block_offset (Z.of_nat (length nums)) cats j0).
  assert (v ∈ col) as Hv by (by eapply list_elem_of_lookup_2).
  assert (l_dict a !! k = Some (vocabulary col off)) as Hdict.
  { apply (fit_loops_dict one cats nums n j0 (k, col) Hnd Hj0). }
  assert (vocab_index st0 k v
          = Some (Z.of_nat (position v (unique col)) + off)) as Hidx.
  { unfold vocab_index, vocab_of. simpl. rewrite Hdict. simpl.
    by apply vocabulary_lookup_elem. }
  assert (cell rows0 r0 (length nums + j0)
          = Some (Z.of_nat (position v (unique col)) + off)) as Hfit.
  { eapply array_T_cell; [exact Hrows0| |].
    - rewrite lookup_app_l.
      + unfold a. rewrite fit_loops_indices.
        rewrite lookup_app_r by (rewrite length_fmap, length_seq; lia).
        rewrite length_fmap, length_seq.
        replace (length nums + j0 - length nums)%nat with j0 by lia.
        apply (cat_columns_lookup _ _ _ (k, col) Hj0).
      + unfold a. rewrite fit_loops_indices, length_app, length_fmap,
          length_seq, cat_columns_length.
        apply lookup_lt_Some in Hj0. lia.
    - unfold ranked. simpl. by rewrite list_lookup_fmap, Hr0. }
  assert (cell rows r (length tnums + j)
          = Some (Z.of_nat (position v (unique col)) + off)) as Htr.
  { eapply array_T_cell; [exact Hrows| |].
    - apply (transform_columns_cat _ _ _ _ _ _ _ _ (k, tcol) Hj).
    - rewrite (encode_lookup st0 (k, tcol) r v Hr). simpl.
      by rewrite Hidx. }
  assert (0 ≤ Z.of_nat (position v (unique col)) + off < l_count a) as Hrange.
  { eapply (fit_loops_below cats nums n); [exact Hdict|].
    by apply vocabulary_lookup_elem. }
  exists st0, (Z.of_nat (position v (unique col)) + off).
  rewrite !cell_astype, Hfit, Htr. simpl.
  repeat split; try done; try lia.
  intros Hmax. f_equal. apply astype_int32_id. unfold int32_min. lia.
Qed.


(** C10 (amended): [transform] leaves the constructor attributes,
    [total_count], [feature_size] and every vocabulary of the builder as
    they were; the one change it makes to [val_index_dict] is an empty
    vocabulary for each categorical column name that had none, so the
    state is untouched when every name has one; and a second call with
    the same arguments returns the same arrays. *)
Theorem transform_frame (self self' : t) (st : fitted) tcats
    (tnums : list (string * list num)) (n : Z) (tu ti : option (list Z))
    (out : list (list Z) * list (list float32)) :
  state self = Some st →
  transform astype_float32 one self tcats tnums n tu ti = Ok (self', out) →
  same_config self self'
  ∧ (∃ st', state self' = Some st'
            ∧ total_count st' = total_count st
            ∧ feature_size st' = feature_size st
            ∧ (∀ k m, val_index_dict st !! k = Some m →
                      val_index_dict st' !! k = Some m)
            ∧ (∀ k m, val_index_dict st' !! k = Some m →
                      val_index_dict st !! k = Some m
                      ∨ (m = ∅ ∧ k ∈ tcats.*1
                         ∧ val_index_dict st !! k = None)))
  ∧ (Forall (λ kv, is_Some (val_index_dict st !! kv.1)) tcats →
     self' = self)
  ∧ transform astype_float32 one self' tcats tnums n tu ti
    = Ok (self', out).
Proof.
  intros Hst Ht. destruct out as [I V].
  pose proof Ht as Ht'.
  apply (transform_Ok_inv _ _ _ _ st) in Ht' as (-> & Hchk & rows & Hrows & ->);
    [|done].
  split; [done|]. split; [|split].
  - exists (touched st tcats). simpl. repeat split; try done.
    + intros k m. apply touch_lookup_Some.
    + intros k m. apply touch_lookup_inv.
  - intros Hknown. unfold touched. rewrite touch_known by done.
    destruct self, st. simpl in *. by subst.
  - rewrite (transform_fitted _ _ _ (touched st tcats)) by done.
    rewrite (transform_fitted _ _ self st) in Ht by done.
    assert (transform_columns (set_state self (touched st tcats))
              (touched st tcats) tcats tnums n tu ti
            = transform_columns self st tcats tnums n tu ti) as ->.
    { unfold transform_columns. f_equal. f_equal.
      apply list_fmap_ext. intros _ kv _. apply encode_touched. }
    assert (touched (touched st tcats) tcats = touched st tcats) as ->.
    { unfold touched. simpl. by rewrite touch_idem. }
    change (identity_check (set_state self (touched st tcats)) tu ti)
      with (identity_check self tu ti).
    change (transform_value_columns one
              (set_state self (touched st tcats)) tcats tnums n)
      with (transform_value_columns one self tcats tnums n).
    rewrite Hchk, Hrows in Ht |- *. simpl in *.
    destruct (array_T (transform_value_columns one self tcats tnums n))
      as [vrows| |]; simpl in *; [|done..].
    injection Ht as <-. reflexivity.
Qed.

End spec.
End TransformSpec.

(** ** [FeatureBuilder]: layout, errors and round trips *)

Module BuilderFacts.
Import Np NpFacts FeatureBuilder FeatureBuilderNotions FeatureBuilderFacts
  TransformFacts FitSpec TransformSpec LayoutNotions.

Lemma uniform_Forall (ls : list nat) (n : nat) :
  Forall (λ x, x = n) ls → uniform ls.
Proof.
  rewrite Forall_forall. intros Hl x y Hx Hy.
  by rewrite (Hl x Hx), (Hl y Hy).
Qed.

Lemma array_T_uniform {A} (cols : list (list A)) :
  uniform (length <$> cols) → ∃ rows, array_T cols = Ok rows.
Proof.
  intros Hu. destruct cols as [|c cols]; [by eexists|].
  apply (array_T_is_Ok _ (length c)).
  apply Forall_forall. intros c' Hc'. apply Hu.
  - by apply list_elem_of_fmap_2.
  - rewrite fmap_cons. by left.
Qed.

Lemma array_T_Ok_uniform {A} (cols rows : list (list A)) :
  array_T cols = Ok rows → uniform (length <$> cols).
Proof.
  intros [_ Hlen]%array_T_Ok_inv. apply (uniform_Forall _ (length rows)).
  by apply Forall_fmap.
Qed.

Lemma array_T_ragged {A} (cols : list (list A)) :
  ¬ uniform (length <$> cols) → array_T cols = Raise ValueError.
Proof.
  intros Hu. destruct (array_T cols) as [rows|e|] eqn:Ha.
  - by apply array_T_Ok_uniform in Ha.
  - unfold array_T in Ha. destruct cols as [|c cols]; [done|].
    case_decide; [|congruence].
    destruct (mapM _ _); simpl in Ha; congruence.
  - unfold array_T in Ha. destruct cols as [|c cols]; [done|].
    case_decide; [|done]. by destruct (mapM _ _).
Qed.

Lemma array_T_outcome {A} (cols : list (list A)) :
  (∃ rows, array_T cols = Ok rows) ∨ array_T cols = Raise ValueError.
Proof.
  unfold array_T. destruct cols as [|c cols]; [by left; eexists|].
  case_decide; [|by right].
  destruct (mapM _ _); simpl; [left; by eexists|by right].
Qed.

(** The rows of [np.array(cols).T] are as many as a column is long, and
    as wide as there are columns. *)
Lemma array_T_rows {A} (cols rows : list (list A)) (c : list A) :
  array_T cols = Ok rows → c ∈ cols → length rows = length c.
Proof.
  intros [_ Hlen]%array_T_Ok_inv Hc. rewrite Forall_forall in Hlen.
  by rewrite (Hlen c Hc).
Qed.

Lemma array_T_width {A} (cols rows : list (list A)) (row : list A) :
  array_T cols = Ok rows → row ∈ rows → length row = length cols.
Proof.
  intros [Hrows _]%array_T_Ok_inv Hrow.
  apply list_elem_of_lookup in Hrow as [r Hr].
  destruct (Forall2_lookup_r _ _ _ r row Hrows Hr) as (r' & _ & Hcols).
  by apply Forall2_length in Hcols.
Qed.

Lemma block_offset_next (start : Z) (cats : list (string * list Z))
    (j j' : nat) kv :
  cats !! j = Some kv → (j < j')%nat →
  block_offset start cats j + Z.of_nat (distinct kv.2)
  ≤ block_offset start cats j'.
Proof.
  intros Hj Hlt. unfold block_offset.
  assert (take j' cats = take (S j) cats ++ drop (S j) (take j' cats)) as ->.
  { rewrite <- (take_drop (S j) (take j' cats)) at 1.
    rewrite take_take. f_equal. f_equal. lia. }
  rewrite (take_S_r _ _ _ Hj), !sum_list_with_app. simpl. lia.
Qed.

Section facts.
Context {num float32 : Type}.
Variable astype_float32 : num → float32.
Variable one : num.

(** [fit] as the check of the identity arguments followed by the two
    array constructions. *)
Lemma fit_unfold (self : t) cats (nums : list (string * list num)) (n : Z)
    (uf itf : option (list Z)) :
  let a := fit_loops one cats nums n in
  let fs := l_count a + identity_width self in
  fit astype_float32 one self cats nums n uf itf
  = _ ← fit_identity_check self uf itf;
    rows ← array_T (l_indices a ++ fit_identity_columns self (l_count a) uf itf);
    vrows ← array_T (transform_value_columns one self cats nums n);
    Ok (set_state self
          {| total_count := l_count a; val_index_dict := l_dict a;
             feature_size := fs |},
        (astype astype_int32 rows, astype astype_float32 vrows, fs)).
Proof.
  intros a fs. unfold fit. fold a.
  unfold fit_identity_check, fit_identity_columns, transform_value_columns.
  subst fs. unfold identity_width.
  rewrite (app_assoc nums.*2).
  rewrite <- (fit_loops_values one cats nums n). fold a.
  destruct (include_user_item self).
  - destruct uf as [u|]; [|done]. destruct (n_users self) as [nu|]; [|done].
    destruct itf as [i|]; [|done]. destruct (n_items self) as [ni|]; [|done].
    simpl. rewrite <- !app_assoc. simpl.
    replace (l_count a + nu + ni) with (l_count a + (nu + ni)) by lia.
    reflexivity.
  - simpl. rewrite !app_nil_r.
    replace (l_count a + 0) with (l_count a) by lia.
    destruct (array_T (l_indices a)) as [rows| |]; simpl; try done.
Qed.

Lemma fit_index_columns_lengths (self : t) cats
    (nums : list (string * list num)) (n : Z) (uf itf : option (list Z)) :
  length <$> (l_indices (fit_loops one cats nums n)
                ++ fit_identity_columns self
                     (l_count (fit_loops one cats nums n)) uf itf)
  = fit_index_lengths self cats nums n uf itf.
Proof.
  rewrite fit_loops_indices. unfold fit_index_lengths, fit_identity_columns.
  rewrite !fmap_app, <- app_assoc. f_equal; [|f_equal].
  - rewrite <- list_fmap_compose.
    apply list_eq. intros j. rewrite list_lookup_fmap.
    destruct (decide (j < length nums)%nat) as [Hj|Hj].
    + rewrite lookup_seq_lt, lookup_replicate_2 by done. simpl.
      unfold times. by rewrite length_replicate.
    + rewrite lookup_seq_ge by lia. simpl. symmetry.
      apply lookup_replicate_None. lia.
  - generalize (Z.of_nat (length nums)).
    induction cats as [|kv cats IH]; intros s; simpl; [done|].
    rewrite IH. unfold ranked. by rewrite length_fmap.
  - destruct (include_user_item self); [|done]. simpl.
    by rewrite !length_fmap.
Qed.

Lemma fit_value_columns_lengths (self : t) cats
    (nums : list (string * list num)) (n : Z) :
  length <$> transform_value_columns one self cats nums n
  = fit_value_lengths self cats nums n.
Proof.
  unfold transform_value_columns, fit_value_lengths.
  rewrite !fmap_app. f_equal; [|f_equal].
  - by rewrite <- list_fmap_compose.
  - rewrite fmap_replicate. unfold times. by rewrite length_replicate.
  - destruct (include_user_item self); [|done]. simpl.
    unfold times. by rewrite !length_replicate.
Qed.

Lemma fit_identity_check_Ok (self : t) (uf itf : option (list Z)) :
  fit_identity_check self uf itf = Ok () ↔ identity_given self uf itf.
Proof.
  unfold fit_identity_check, identity_given.
  destruct (include_user_item self); [|done].
  destruct uf, (n_users self), itf, (n_items self); split; try done;
    try (intros Hg; destruct (Hg eq_refl) as (Ha & Hb & Hc & Hd);
         by (inversion Ha || inversion Hb || inversion Hc || inversion Hd)).
Qed.

Lemma fit_identity_check_Raise (self : t) (uf itf : option (list Z)) :
  ¬ identity_given self uf itf →
  fit_identity_check self uf itf = Raise TypeError.
Proof.
  intros Hg. unfold fit_identity_check, identity_given in *.
  destruct (include_user_item self); [|by destruct Hg].
  destruct uf, (n_users self), itf, (n_items self); try done.
  destruct Hg. eauto.
Qed.

(** The vocabularies of [fit] encode the training columns as [fit] itself
    did. *)
Lemma encode_training (st : fitted) cats (nums : list (string * list num))
    (n : Z) :
  NoDup cats.*1 →
  val_index_dict st = l_dict (fit_loops one cats nums n) →
  encode st <$> cats = cat_columns (Z.of_nat (length nums)) cats.
Proof.
  intros Hnd Hd. apply list_eq. intros j. rewrite list_lookup_fmap.
  destruct (cats !! j) as [kv|] eqn:Hj; simpl.
  - rewrite (cat_columns_lookup _ _ _ _ Hj). f_equal.
    unfold encode, fillna, series_map, ranked, vocab_of.
    rewrite Hd, (fit_loops_dict one cats nums n j kv Hnd Hj). simpl.
    rewrite <- list_fmap_compose. apply list_fmap_ext. intros r x Hx. simpl.
    rewrite vocabulary_lookup_elem; [done|].
    by eapply list_elem_of_lookup_2.
  - symmetry. apply lookup_ge_None_2. rewrite cat_columns_length.
    by apply lookup_ge_None_1.
Qed.

Lemma fit_loops_known cats (nums : list (string * list num)) (n : Z) :
  NoDup cats.*1 →
  Forall (λ kv, is_Some (l_dict (fit_loops one cats nums n) !! kv.1)) cats.
Proof.
  intros Hnd. apply Forall_forall. intros kv Hkv.
  apply list_elem_of_lookup in Hkv as [j Hj].
  rewrite (fit_loops_dict one cats nums n j kv Hnd Hj). eauto.
Qed.

Lemma fit_loops_indices_length cats (nums : list (string * list num)) (n : Z) :
  length (l_indices (fit_loops one cats nums n))
  = (length nums + length cats)%nat.
Proof.
  by rewrite fit_loops_indices, length_app, length_fmap, length_seq,
    cat_columns_length.
Qed.

Lemma value_columns_length (self : t) cats (nums : list (string * list num))
    (n : Z) :
  length (transform_value_columns one self cats nums n)
  = width self cats nums.
Proof.
  unfold transform_value_columns, width.
  rewrite !length_app, length_fmap, length_replicate.
  destruct (include_user_item self); simpl; lia.
Qed.

Lemma value_columns_ones (self : t) cats (nums : list (string * list num))
    (n : Z) (j : nat) (c : list num) :
  (length nums ≤ j)%nat →
  transform_value_columns one self cats nums n !! j = Some c →
  c = times one n.
Proof.
  intros Hj Hc. unfold transform_value_columns in Hc.
  rewrite lookup_app_r in Hc by (by rewrite length_fmap).
  apply list_elem_of_lookup_2 in Hc.
  apply elem_of_app in Hc as [Hc|Hc].
  - by apply elem_of_replicate in Hc as [-> _].
  - destruct (include_user_item self); [|by apply elem_of_nil in Hc].
    repeat (apply elem_of_cons in Hc as [->|Hc]; [done|]).
    by apply elem_of_nil in Hc.
Qed.

(** The value array: as wide as there are columns, the raw values in the
    numerical columns and [1.0] in the others. *)
Lemma value_cells (self : t) cats (nums : list (string * list num)) (n : Z)
    (vrows : list (list num)) :
  array_T (transform_value_columns one self cats nums n) = Ok vrows →
  let V := astype astype_float32 vrows in
  Forall (λ row, length row = width self cats nums) V
  ∧ (∀ j k col r x,
       nums !! j = Some (k, col) → col !! r = Some x →
       cell V r j = Some (astype_float32 x))
  ∧ (∀ j r,
       (length nums ≤ j < width self cats nums)%nat → (r < length V)%nat →
       cell V r j = Some (astype_float32 one)).
Proof.
  intros Hv V. subst V. split; [|split].
  - apply Forall_forall. intros row Hrow. unfold astype in Hrow.
    apply list_elem_of_fmap in Hrow as (row' & -> & Hrow').
    rewrite length_map, (array_T_width _ _ _ Hv Hrow').
    apply value_columns_length.
  - intros j k col r x Hj Hx. rewrite cell_astype.
    erewrite array_T_cell; [done|exact Hv| |exact Hx].
    unfold transform_value_columns. rewrite lookup_app_l.
    + by rewrite list_lookup_fmap, Hj.
    + rewrite length_fmap. by eapply lookup_lt_Some.
  - intros j r Hj Hr. rewrite cell_astype.
    destruct (lookup_lt_is_Some_2 (transform_value_columns one self cats nums n)
                j) as [c Hc]; [rewrite value_columns_length; lia|].
    assert (c = times one n) as -> by (eapply value_columns_ones; [|done]; lia).
    erewrite array_T_cell; [done|exact Hv|exact Hc|].
    unfold astype in Hr. rewrite length_map in Hr.
    rewrite (array_T_rows _ _ _ Hv (list_elem_of_lookup_2 _ _ _ Hc)) in Hr.
    unfold times in *. rewrite length_replicate in Hr.
    by apply lookup_replicate_2.
Qed.

End facts.
End BuilderFacts.

Module BuilderSpec.
Import Np NpFacts FeatureBuilder FeatureBuilderNotions FeatureBuilderFacts
  TransformFacts FitSpec TransformSpec LayoutNotions BuilderFacts.

Section spec.
Context {num float32 : Type}.
Variable astype_float32 : num → float32.
Variable one : num.

(** X1: [transform] applied to the very columns [fit] was given returns
    the two arrays [fit] returned, and leaves the builder as [fit] left
    it. *)
Theorem transform_of_training_data (self0 self : t) cats
    (nums : list (string * list num)) (n : Z) (uf itf : option (list Z))
    fi (fv : list (list float32)) (fs : Z) :
  NoDup cats.*1 →
  fit astype_float32 one self0 cats nums n uf itf = Ok (self, (fi, fv, fs)) →
  transform astype_float32 one self cats nums n uf itf = Ok (self, (fi, fv)).
Proof.
  intros Hnd Hfit. rewrite fit_unfold in Hfit.
  set (a := fit_loops one cats nums n) in *.
  apply bind_Ok in Hfit as ([] & Hchk & Hfit).
  apply bind_Ok in Hfit as (rows & Hrows & Hfit).
  apply bind_Ok in Hfit as (vrows & Hvrows & Hfit).
  injection Hfit as <- <- <- <-.
  set (st0 := {| total_count := l_count a; val_index_dict := l_dict a;
                 feature_size := l_count a + identity_width self0 |}).
  rewrite (transform_fitted _ _ (set_state self0 st0) st0) by done.
  assert (identity_check (set_state self0 st0) uf itf = Ok ()) as ->.
  { unfold fit_identity_check in Hchk. unfold identity_check. simpl.
    destruct (include_user_item self0); [|done].
    destruct uf, (n_users self0), itf; try done. }
  assert (transform_columns (set_state self0 st0) st0 cats nums n uf itf
          = l_indices a ++ fit_identity_columns self0 (l_count a) uf itf)
    as ->.
  { unfold transform_columns, a. rewrite fit_loops_indices.
    rewrite (encode_training one st0 cats nums n Hnd eq_refl).
    rewrite <- app_assoc. do 2 f_equal.
    unfold transform_identity_columns, fit_identity_columns. simpl.
    destruct (include_user_item self0); [|done]. do 2 f_equal.
    apply list_fmap_ext. intros _ i _. simpl. fold a. lia. }
  change (transform_value_columns one (set_state self0 st0) cats nums n)
    with (transform_value_columns one self0 cats nums n).
  simpl. rewrite Hrows. simpl. rewrite Hvrows. simpl.
  assert (touched st0 cats = st0) as ->; [|done].
  unfold touched. simpl. fold st0.
  rewrite touch_known; [done|]. by apply fit_loops_known.
Qed.

(** X2: after [fit] no index is shared: two raw values with one index
    are one value of one categorical column, and no index of a
    vocabulary is the index of a numerical column. *)
Theorem vocabulary_indices_distinct (self0 self : t) cats
    (nums : list (string * list num)) (n : Z) (uf itf : option (list Z))
    out (st : fitted) :
  NoDup cats.*1 →
  fit astype_float32 one self0 cats nums n uf itf = Ok (self, out) →
  state self = Some st →
  (∀ j j' kv kv' x x' idx,
     cats !! j = Some kv → cats !! j' = Some kv' →
     vocab_index st kv.1 x = Some idx → vocab_index st kv'.1 x' = Some idx →
     j = j' ∧ x = x')
  ∧ (∀ j kv x idx,
       cats !! j = Some kv → vocab_index st kv.1 x = Some idx →
       Z.of_nat (length nums) ≤ idx < total_count st).
Proof.
  intros Hnd Hfit Hst. destruct out as [[fi fv] fs].
  apply fit_Ok_inv in Hfit as (-> & _). simpl in Hst. injection Hst as <-.
  set (a := fit_loops one cats nums n).
  set (s := Z.of_nat (length nums)).
  assert (∀ j kv x idx,
            cats !! j = Some kv →
            vocab_index
              {| total_count := l_count a; val_index_dict := l_dict a;
                 feature_size := fs |} kv.1 x = Some idx →
            x ∈ unique kv.2
            ∧ idx = Z.of_nat (position x (unique kv.2)) + block_offset s cats j
            ∧ (position x (unique kv.2) < distinct kv.2)%nat) as Hinv.
  { intros j kv x idx Hj Hx. unfold vocab_index, vocab_of in Hx. simpl in Hx.
    unfold a in Hx. rewrite (fit_loops_dict one cats nums n j kv Hnd Hj) in Hx.
    simpl in Hx. fold s in Hx.
    destruct (decide (x ∈ kv.2)) as [Hin|Hout].
    - rewrite vocabulary_lookup_elem in Hx by done. injection Hx as <-.
      apply elem_of_unique in Hin. split; [done|]. split; [done|].
      unfold distinct. rewrite <- unique_length. by apply position_lt.
    - by rewrite vocabulary_lookup_None in Hx. }
  split.
  - intros j j' kv kv' x x' idx Hj Hj' Hx Hx'.
    destruct (Hinv _ _ _ _ Hj Hx) as (Hin & -> & Hp).
    destruct (Hinv _ _ _ _ Hj' Hx') as (Hin' & Heq & Hp').
    destruct (Nat.lt_trichotomy j j') as [Hlt|[<-|Hgt]].
    + pose proof (block_offset_next s cats j j' kv Hj Hlt). lia.
    + split; [done|]. assert (kv' = kv) as -> by congruence.
      apply position_lookup in Hin, Hin'.
      assert (position x (unique kv.2) = position x' (unique kv.2)) as Hpp
        by lia.
      rewrite Hpp in Hin. congruence.
    + pose proof (block_offset_next s cats j' j kv' Hj' Hgt). lia.
  - intros j kv x idx Hj Hx. simpl.
    destruct (Hinv _ _ _ _ Hj Hx) as (Hin & -> & Hp).
    pose proof (block_offset_mono s cats j).
    unfold a. rewrite fit_loops_count. fold s.
    destruct (decide (S j ≤ length cats)%nat) as [Hle|Hgt].
    + assert (block_offset s cats j + Z.of_nat (distinct kv.2)
              ≤ block_offset s cats (length cats)) as Hb.
      { destruct (decide (j < length cats)%nat);
          [by apply block_offset_next|lia]. }
      unfold block_offset in Hb at 2. rewrite firstn_all in Hb. lia.
    + apply lookup_lt_Some in Hj. lia.
Qed.

(** X3: [fit] returns exactly when the identity arguments and counts
    are there if the identity blocks are enabled, the index columns it
    builds have one length, and so have the value columns; it raises
    [TypeError] when an identity argument or count is missing, and
    [ValueError] otherwise. *)
Theorem fit_returns_iff (self : t) cats (nums : list (string * list num))
    (n : Z) (uf itf : option (list Z)) :
  let columns_ok :=
    uniform (fit_index_lengths self cats nums n uf itf)
    ∧ uniform (fit_value_lengths self cats nums n) in
  ((∃ r, fit astype_float32 one self cats nums n uf itf = Ok r)
   ↔ identity_given self uf itf ∧ columns_ok)
  ∧ (¬ identity_given self uf itf →
     fit astype_float32 one self cats nums n uf itf = Raise TypeError)
  ∧ (identity_given self uf itf → ¬ columns_ok →
     fit astype_float32 one self cats nums n uf itf = Raise ValueError).
Proof.
  intros columns_ok. subst columns_ok. rewrite fit_unfold.
  rewrite <- (fit_index_columns_lengths one self cats nums n uf itf).
  rewrite <- (fit_value_columns_lengths one self cats nums n).
  set (icols := l_indices _ ++ _). set (vcols := transform_value_columns _ _ _ _ _).
  split; [split|split].
  - intros [r Hr].
    apply bind_Ok in Hr as ([] & Hchk%fit_identity_check_Ok & Hr).
    apply bind_Ok in Hr as (rows & Hrows%array_T_Ok_uniform & Hr).
    apply bind_Ok in Hr as (vrows & Hvrows%array_T_Ok_uniform & Hr).
    done.
  - intros (Hchk%fit_identity_check_Ok & Hi & Hv).
    destruct (array_T_uniform icols Hi) as [rows Hrows].
    destruct (array_T_uniform vcols Hv) as [vrows Hvrows].
    rewrite Hchk. simpl. rewrite Hrows. simpl. rewrite Hvrows. simpl. eauto.
  - intros Hg. by rewrite (fit_identity_check_Raise _ _ _ Hg).
  - intros Hchk%fit_identity_check_Ok Hcols. rewrite Hchk. simpl.
    destruct (array_T icols) as [rows|e|] eqn:Hrows.
    + simpl. apply array_T_Ok_uniform in Hrows.
      rewrite array_T_ragged; [done|]. tauto.
    + simpl. destruct (array_T_outcome icols) as [[? ?]| ?]; congruence.
    + destruct (array_T_outcome icols) as [[? ?]| ?]; congruence.
Qed.

(** X4: [fit] does not compare [train_size] with the categorical
    columns: with categorical columns only and the identity blocks
    disabled it returns for every [train_size], an index array with as
    many rows as the columns are long beside a value array with
    [train_size] rows. *)
Theorem fit_train_size_unchecked (self : t) cats (n : Z) (m : nat)
    (uf itf : option (list Z)) :
  include_user_item self = false → cats ≠ [] →
  Forall (λ kv, length kv.2 = m) cats →
  ∃ self' fi fv fs,
    fit astype_float32 one self cats [] n uf itf = Ok (self', (fi, fv, fs))
    ∧ length fi = m ∧ length fv = Z.to_nat n.
Proof.
  intros Hinc Hne Hlen. rewrite fit_unfold.
  set (a := fit_loops one cats [] n).
  assert (fit_identity_check self uf itf = Ok ()) as ->.
  { unfold fit_identity_check. by rewrite Hinc. }
  assert (l_indices a ++ fit_identity_columns self (l_count a) uf itf
          = cat_columns 0 cats) as ->.
  { unfold a, fit_identity_columns.
    rewrite fit_loops_indices, Hinc, app_nil_r. done. }
  assert (transform_value_columns one self cats [] n
          = replicate (length cats) (times one n)) as ->.
  { unfold transform_value_columns. by rewrite Hinc, app_nil_r. }
  destruct (array_T_is_Ok (cat_columns 0 cats) m) as [rows Hrows].
  { by apply cat_columns_lengths. }
  destruct (array_T_is_Ok (replicate (length cats) (times one n)) (Z.to_nat n))
    as [vrows Hvrows].
  { apply Forall_replicate. unfold times. by rewrite length_replicate. }
  simpl. rewrite Hrows. simpl. rewrite Hvrows. simpl.
  eexists _, _, _, _. split; [done|].
  destruct cats as [|kv cats]; [done|]. unfold astype. rewrite !length_map.
  split.
  - rewrite (array_T_rows _ _ (ranked 0 kv.2) Hrows) by (by left).
    unfold ranked. rewrite length_fmap. by inversion Hlen.
  - rewrite (array_T_rows _ _ (times one n) Hvrows) by (by left).
    unfold times. by rewrite length_replicate.
Qed.

(** X5: on a builder that was never fitted [transform] raises
    [AttributeError] as soon as there is a categorical column or the
    identity blocks are enabled; with numerical columns only it returns,
    leaving the builder as it was, the position of every column as its
    index and the raw values. *)
Theorem transform_unfitted (self : t) tcats
    (tnums : list (string * list num)) (n : Z) (tu ti : option (list Z)) :
  state self = None →
  ((tcats ≠ [] ∨ include_user_item self = true) →
   transform astype_float32 one self tcats tnums n tu ti
   = Raise AttributeError)
  ∧ (tcats = [] → include_user_item self = false →
     Forall (λ kv, length kv.2 = Z.to_nat n) tnums →
     ∃ I V,
       transform astype_float32 one self tcats tnums n tu ti
       = Ok (self, (I, V))
       ∧ (∀ j r, (j < length tnums)%nat → (r < Z.to_nat n)%nat →
            cell I r j = Some (astype_int32 (Z.of_nat j)))
       ∧ (∀ j k col r x,
            tnums !! j = Some (k, col) → col !! r = Some x →
            cell V r j = Some (astype_float32 x))).
Proof.
  intros Hst. split.
  - intros Hor. unfold transform.
    destruct tcats as [|kv rest].
    + destruct Hor as [?|Hinc]; [done|]. simpl. rewrite Hinc, Hst. done.
    + simpl. rewrite Hst. done.
  - intros -> Hinc Hlen. unfold transform. simpl. rewrite Hinc. simpl.
    destruct (fit_numerical_loop n
                {| l_indices := []; l_values := []; l_count := 0;
                   l_dict := ∅ |} tnums) as (Hi & Hv & _ & _).
    change (@fit_numerical_step num n) with (@transform_numerical_step num n)
      in Hi, Hv.
    rewrite Hi, Hv. simpl.
    destruct (array_T_is_Ok
                ((λ j : nat, times (0 + Z.of_nat j) n) <$> seq 0 (length tnums))
                (Z.to_nat n)) as [rows Hrows].
    { apply Forall_fmap, Forall_forall. intros j _. simpl.
      unfold times. by rewrite length_replicate. }
    destruct (array_T_is_Ok tnums.*2 (Z.to_nat n)) as [vrows Hvrows].
    { by apply Forall_fmap. }
    rewrite Hrows. simpl. rewrite Hvrows. simpl.
    eexists _, _. split; [done|]. split.
    + intros j r Hj Hr. rewrite cell_astype.
      erewrite array_T_cell; [done|exact Hrows| |].
      * by rewrite list_lookup_fmap, lookup_seq_lt.
      * unfold times. by apply lookup_replicate_2.
    + intros j k col r x Hj Hx. rewrite cell_astype.
      erewrite array_T_cell; [done|exact Hvrows| |exact Hx].
      by rewrite list_lookup_fmap, Hj.
Qed.


(** X7: the arrays of [fit] have one column for every numerical
    column, one for every categorical column and two for the identity
    blocks when enabled; a numerical column holds its position as the
    index and the raw values as the values, and the values of every other
    column are [1.0]. *)
Theorem fit_output_layout (self self' : t) cats
    (nums : list (string * list num)) (n : Z) (uf itf : option (list Z))
    fi (fv : list (list float32)) (fs : Z) :
  fit astype_float32 one self cats nums n uf itf = Ok (self', (fi, fv, fs)) →
  Forall (λ row, length row = width self cats nums) fi
  ∧ Forall (λ row, length row = width self cats nums) fv
  ∧ (∀ j r, (j < length nums)%nat → (r < length fi)%nat →
       cell fi r j = Some (astype_int32 (Z.of_nat j)))
  ∧ (∀ j k col r x,
       nums !! j = Some (k, col) → col !! r = Some x →
       cell fv r j = Some (astype_float32 x))
  ∧ (∀ j r,
       (length nums ≤ j < width self cats nums)%nat → (r < length fv)%nat →
       cell fv r j = Some (astype_float32 one)).
Proof.
  intros Hfit. rewrite fit_unfold in Hfit.
  set (a := fit_loops one cats nums n) in *.
  apply bind_Ok in Hfit as ([] & Hchk & Hfit).
  apply bind_Ok in Hfit as (rows & Hrows & Hfit).
  apply bind_Ok in Hfit as (vrows & Hvrows & Hfit).
  injection Hfit as <- <- <- <-.
  destruct (value_cells astype_float32 one self cats nums n vrows Hvrows)
    as (Hw & Hnum & Hone).
  pose proof (fit_loops_indices_length one cats nums n) as Hl. fold a in Hl.
  split; [|split; [done|split; [|done]]].
  - apply Forall_forall. intros row Hrow. unfold astype in Hrow.
    apply list_elem_of_fmap in Hrow as (row' & -> & Hrow').
    rewrite length_map, (array_T_width _ _ _ Hrows Hrow').
    rewrite length_app, Hl. unfold fit_identity_columns, width.
    destruct (include_user_item self); simpl; lia.
  - intros j r Hj Hr. rewrite cell_astype.
    unfold astype in Hr. rewrite length_map in Hr.
    assert ((l_indices a ++ fit_identity_columns self (l_count a) uf itf) !! j
            = Some (times (Z.of_nat j) n)) as Hc.
    { rewrite lookup_app_l by lia. unfold a. rewrite fit_loops_indices.
      rewrite lookup_app_l by (by rewrite length_fmap, length_seq).
      by rewrite list_lookup_fmap, lookup_seq_lt. }
    erewrite array_T_cell; [done|exact Hrows|exact Hc|].
    rewrite (array_T_rows _ _ _ Hrows (list_elem_of_lookup_2 _ _ _ Hc)) in Hr.
    unfold times in *. rewrite length_replicate in Hr.
    by apply lookup_replicate_2.
Qed.

(** X8: the arrays of [transform] on a fitted builder have one column
    for every numerical column, one for every categorical column and two
    for the identity blocks when enabled; the values of a numerical
    column are the raw values, and the values of every other column are
    [1.0]. *)
Theorem transform_output_layout (self self' : t) (st : fitted) tcats
    (tnums : list (string * list num)) (n : Z) (tu ti : option (list Z))
    I (V : list (list float32)) :
  state self = Some st →
  transform astype_float32 one self tcats tnums n tu ti = Ok (self', (I, V)) →
  Forall (λ row, length row = width self tcats tnums) I
  ∧ Forall (λ row, length row = width self tcats tnums) V
  ∧ (∀ j k col r x,
       tnums !! j = Some (k, col) → col !! r = Some x →
       cell V r j = Some (astype_float32 x))
  ∧ (∀ j r,
       (length tnums ≤ j < width self tcats tnums)%nat → (r < length V)%nat →
       cell V r j = Some (astype_float32 one)).
Proof.
  intros Hst Ht. rewrite (transform_fitted _ _ self st) in Ht by done.
  apply bind_Ok in Ht as ([] & Hchk & Ht).
  apply bind_Ok in Ht as (rows & Hrows & Ht).
  apply bind_Ok in Ht as (vrows & Hvrows & Ht).
  injection Ht as <- <- <-.
  destruct (value_cells astype_float32 one self tcats tnums n vrows Hvrows)
    as (Hw & Hnum & Hone).
  split; [|done].
  apply Forall_forall. intros row Hrow. unfold astype in Hrow.
  apply list_elem_of_fmap in Hrow as (row' & -> & Hrow').
  rewrite length_map, (array_T_width _ _ _ Hrows Hrow').
  unfold transform_columns, transform_identity_columns, width.
  rewrite !length_app, !length_fmap, length_seq.
  destruct (include_user_item self); simpl; lia.
Qed.

End spec.
End BuilderSpec.

(** ** [NegativeSamplingFeat] *)

Module LabelSpec.
Import Np NpFacts NegativeSamplingFeat.

Lemma elem_of_strided (start step count i : nat) :
  i ∈ strided start step count
  ↔ ∃ j, (j < count)%nat ∧ i = (start + j * step)%nat.
Proof.
  revert start. induction count as [|c IH]; intros start; simpl.
  - rewrite elem_of_nil. split; [done|]. intros (j & Hj & _). lia.
  - rewrite elem_of_cons, IH. split.
    + intros [->|(j & Hj & ->)].
      * exists 0%nat. split; lia.
      * exists (S j). split; lia.
    + intros ([|j] & Hj & ->).
      * left. lia.
      * right. exists j. split; lia.
Qed.

(** A slice assignment writes the value at the listed positions and
    leaves the other entries. *)
Lemma slice_assign_lookup {A} (x : A) (idxs : list nat) (l : list A) (k : nat) :
  foldl (λ l i, <[i := x]> l) l idxs !! k
  = if decide (k ∈ idxs) then (λ _, x) <$> l !! k else l !! k.
Proof.
  revert l. induction idxs as [|i idxs IH]; intros l; cbn [foldl].
  - case_decide as Hk; [by apply elem_of_nil in Hk|done].
  - rewrite IH. destruct (decide (i = k)) as [->|Hne].
    + rewrite (decide_True (P := k ∈ k :: idxs)) by (by left).
      destruct (decide (k < length l)%nat).
      * rewrite list_lookup_insert_eq by done.
        destruct (lookup_lt_is_Some_2 l k) as [y ->]; [done|].
        by case_decide.
      * rewrite list_insert_ge by lia.
        rewrite (lookup_ge_None_2 l k) by lia. by case_decide.
    + rewrite list_lookup_insert_ne by done.
      repeat case_decide; try done; exfalso;
        rewrite elem_of_cons in *; intuition congruence.
Qed.

Lemma slice_assign_length {A} (x : A) (idxs : list nat) (l : list A) :
  length (foldl (λ l i, <[i := x]> l) l idxs) = length l.
Proof.
  revert l. induction idxs as [|i idxs IH]; intros l; simpl; [done|].
  by rewrite IH, length_insert.
Qed.

(** The positions [0, f, 2f, ...] below [m * f] are the multiples of
    [f]. *)
Lemma multiple_iff_mod (m k : nat) (f : Z) :
  0 < f → (Z.of_nat k < Z.of_nat m * f) →
  (∃ j, (j < m)%nat ∧ k = (0 + j * Z.to_nat f)%nat) ↔ Z.of_nat k `mod` f = 0.
Proof.
  intros Hf Hk. split.
  - intros (j & _ & ->).
    replace (Z.of_nat (0 + j * Z.to_nat f)) with (Z.of_nat j * f) by lia.
    apply Z_mod_mult.
  - intros Hmod. exists (Z.to_nat (Z.of_nat k `div` f)).
    pose proof (Z.div_mod (Z.of_nat k) f ltac:(lia)) as Hdm.
    rewrite Hmod in Hdm.
    assert (0 ≤ Z.of_nat k `div` f) by (apply Z.div_pos; lia).
    assert (Z.of_nat k `div` f < Z.of_nat m).
    { apply Z.div_lt_upper_bound; lia. }
    split; [lia|]. nia.
Qed.

End LabelSpec.

Module SampleSpec.
Import Np NpFacts NegativeSamplingFeat SamplerNotions.

Lemma bind_join {A B} (f : A → list B) (l : list A) :
  l ≫= f = mjoin (f <$> l).
Proof. induction l as [|x l IH]; csimpl; [done|]. by rewrite IH. Qed.

Section spec.
Context `{NumpyRandom}.

Lemma randint_Ok (n : Z) (g : rng) (r : Z * rng) :
  randint 0 n g = Ok r → r = np_random_randint 0 n g ∧ 0 ≤ r.1 < n.
Proof.
  unfold randint. case_decide as Hn; [|done]. intros [= <-].
  split; [done|]. by apply randint_range.
Qed.

Lemma reject_Ok (fuel : nat) (n : Z) (c : gset Z) (x y : Z) (g g' : rng) :
  reject fuel n c x g = Ok (y, g') → (y ∉ c) ∧ (y = x ∨ 0 ≤ y < n).
Proof.
  revert x g. induction fuel as [|fuel IH]; intros x g; simpl.
  - case_decide; [done|]. intros [= <- <-]. auto.
  - case_decide; [|intros [= <- <-]; auto].
    intros ([x1 g1] & [_ Hr]%randint_Ok & Hrej)%bind_Ok.
    apply IH in Hrej as [Hy [->|Hy']]; auto.
Qed.

Lemma reject_mono (fuel fuel' : nat) (n : Z) (c : gset Z) (x : Z) (g : rng)
    (r : Z * rng) :
  reject fuel n c x g = Ok r → (fuel ≤ fuel')%nat →
  reject fuel' n c x g = Ok r.
Proof.
  revert fuel' x g. induction fuel as [|fuel IH]; intros fuel' x g; simpl.
  - case_decide; [done|]. intros Hr _. destruct fuel'; simpl;
      by rewrite decide_False.
  - intros Hr Hle. destruct fuel' as [|fuel']; [lia|]. simpl.
    case_decide; [|done].
    apply bind_Ok in Hr as ([x1 g1] & Hd & Hrej).
    rewrite Hd. simpl. apply IH; [done|lia].
Qed.

Lemma reject_terminates (n : Z) (c : gset Z) :
  unsaturated n c → ∀ x g, ∃ fuel r, reject fuel n c x g = Ok r.
Proof.
  intros (y & Hy & Hyc) x g.
  destruct (randint_recurrent 0 n g y Hy) as [m Hm].
  revert x g Hm. induction m as [|m IH]; intros x g Hm.
  - destruct (decide (x ∈ c)) as [Hx|Hx].
    + simpl in Hm.
      destruct (np_random_randint 0 n g) as [x1 g1] eqn:Hd.
      simpl in Hm. subst x1. exists 1%nat, (y, g1). simpl.
      rewrite decide_True by done.
      unfold randint. rewrite decide_True by lia. rewrite Hd. simpl.
      by rewrite decide_False.
    + exists 0%nat. eexists. simpl. by rewrite decide_False.
  - destruct (decide (x ∈ c)) as [Hx|Hx].
    + rewrite Nat.iter_succ_r in Hm.
      destruct (np_random_randint 0 n g) as [x1 g1] eqn:Hd.
      destruct (IH x1 g1) as (fuel & r & Hr); [exact Hm|].
      exists (S fuel), r. simpl. rewrite decide_True by done.
      unfold randint. rewrite decide_True by lia. rewrite Hd. done.
    + exists 0%nat. eexists. simpl. by rewrite decide_False.
Qed.

Lemma negatives_Ok (fuel count : nat) (n : Z) (dict : gmap Z (gset Z))
    (u : Z) (acc items : list Z) (g g' : rng) :
  negatives fuel count n dict u acc g = Ok (items, g') →
  ∃ negs, items = acc ++ negs ∧ length negs = count
          ∧ Forall (negative_for n dict u) negs.
Proof.
  revert acc g. induction count as [|count IH]; intros acc g; simpl.
  - intros [= <- <-]. exists []. by rewrite app_nil_r.
  - intros ([x g1] & [_ Hx]%randint_Ok & Hk)%bind_Ok.
    apply bind_Ok in Hk as (c & Hc%expect_Ok & Hk).
    apply bind_Ok in Hk as ([y g2] & Hrej & Hk).
    apply reject_Ok in Hrej as [Hyc Hy].
    apply IH in Hk as (negs & -> & Hlen & Hnegs).
    exists (y :: negs). rewrite <- app_assoc. simpl.
    repeat split; [lia|]. constructor; [|done].
    exists c. repeat split; try done; destruct Hy as [->|]; simpl in *; lia.
Qed.

Lemma sample_loop_Ok (fuel : nat) (pairs : list (Z * Z)) (num_neg n : Z)
    (dict : gmap Z (gset Z)) (acc items : list Z) (g g' : rng) :
  sample_loop fuel pairs num_neg n dict acc g = Ok (items, g') →
  ∃ groups, items = acc ++ mjoin groups
            ∧ Forall2 (group_of num_neg n dict) pairs groups.
Proof.
  revert acc g. induction pairs as [|ui pairs IH]; intros acc g; simpl.
  - intros [= <- <-]. exists []. by rewrite app_nil_r.
  - intros ([items1 g1] & Hneg & Hk)%bind_Ok.
    apply negatives_Ok in Hneg as (negs & -> & Hlen & Hnegs).
    apply IH in Hk as (groups & -> & Hgroups).
    exists ((ui.2 :: negs) :: groups). csimpl.
    rewrite <- !app_assoc. simpl. split; [done|].
    constructor; [|done]. by exists negs.
Qed.

Lemma negatives_terminates (n : Z) (dict : gmap Z (gset Z)) (u : Z)
    (c : gset Z) (count : nat) :
  dict !! u = Some c → unsaturated n c →
  ∀ acc g, ∃ fuel r, ∀ fuel', (fuel ≤ fuel')%nat →
    negatives fuel' count n dict u acc g = Ok r.
Proof.
  intros Hc Hun. induction count as [|count IH]; intros acc g; simpl.
  - exists 0%nat. eexists. done.
  - assert (0 < n) as Hn by (destruct Hun as (y & ? & _); lia).
    unfold randint. rewrite decide_True by done. simpl.
    destruct (np_random_randint 0 n g) as [x g1]. rewrite Hc. simpl.
    destruct (reject_terminates n c Hun x g1) as (f1 & [y g2] & Hrej).
    destruct (IH (acc ++ [y]) g2) as (f2 & r & Hr).
    exists (f1 `max` f2)%nat, r. intros fuel' Hle.
    rewrite (reject_mono f1 fuel' _ _ _ _ _ Hrej) by lia. simpl.
    apply Hr. lia.
Qed.

Lemma sample_loop_terminates (pairs : list (Z * Z)) (num_neg n : Z)
    (dict : gmap Z (gset Z)) :
  Forall (λ ui, ∃ c, dict !! ui.1 = Some c ∧ unsaturated n c) pairs →
  ∀ acc g, ∃ fuel r, ∀ fuel', (fuel ≤ fuel')%nat →
    sample_loop fuel' pairs num_neg n dict acc g = Ok r.
Proof.
  induction 1 as [|ui pairs (c & Hc & Hun) _ IH]; intros acc g; simpl.
  - exists 0%nat. eexists. done.
  - destruct (negatives_terminates n dict ui.1 c (Z.to_nat num_neg) Hc Hun
                (acc ++ [ui.2]) g) as (f1 & [items1 g1] & Hneg).
    destruct (IH items1 g1) as (f2 & r & Hr).
    exists (f1 `max` f2)%nat, r. intros fuel' Hle.
    rewrite Hneg by lia. simpl. apply Hr. lia.
Qed.

End spec.
End SampleSpec.

Module ReindexSpec.
Import Np NpFacts NegativeSamplingFeat SamplerNotions SampleSpec.

Lemma insert_by_key_perm p l : insert_by_key p l ≡ₚ p :: l.
Proof.
  induction l as [|q l IH]; simpl; [done|].
  case_decide; [done|]. rewrite IH. apply Permutation_swap.
Qed.

Lemma sort_by_key_perm l : sort_by_key l ≡ₚ l.
Proof.
  induction l as [|p l IH]; simpl; [done|].
  unfold sort_by_key in *. simpl. by rewrite insert_by_key_perm, IH.
Qed.

Lemma insert_by_key_sorted p l :
  StronglySorted key_le l → StronglySorted key_le (insert_by_key p l).
Proof.
  induction 1 as [|q l Hl IH Hq]; simpl.
  - repeat constructor.
  - case_decide as Hpq.
    + constructor; [by constructor|]. constructor; [done|].
      eapply Forall_impl; [exact Hq|]. unfold key_le. simpl. lia.
    + constructor; [done|]. rewrite insert_by_key_perm.
      constructor; [|done]. unfold key_le. lia.
Qed.

Lemma sort_by_key_sorted l : StronglySorted key_le (sort_by_key l).
Proof.
  induction l as [|p l IH]; simpl; [constructor|].
  by apply insert_by_key_sorted.
Qed.

Lemma seq_sorted (s n : nat) : StronglySorted le (seq s n).
Proof.
  revert s. induction n as [|n IH]; intros s; simpl; constructor; [done|].
  apply Forall_forall. intros i Hi%elem_of_seq. lia.
Qed.

(** On a sequence of column numbers that is a rearrangement of
    [0 .. w-1], the sorted keys are [0 .. w-1]. *)
Lemma sorted_keys (keys : list nat) (w : nat) :
  keys ≡ₚ seq 0 w →
  (sort_by_key (zip keys (seq 0 (length keys)))).*1 = seq 0 w.
Proof.
  intros Hperm. apply (StronglySorted_unique le).
  - apply (StronglySorted_fmap fst key_le le); [|apply sort_by_key_sorted].
    by intros p q.
  - apply seq_sorted.
  - rewrite sort_by_key_perm, fst_zip; [done|]. by rewrite length_seq.
Qed.

Lemma argsort_length (keys : list nat) : length (argsort keys) = length keys.
Proof.
  unfold argsort. rewrite length_fmap, (Permutation_length (sort_by_key_perm _)).
  rewrite length_zip, length_seq. lia.
Qed.

Lemma argsort_lookup (keys : list nat) (w j i : nat) :
  keys ≡ₚ seq 0 w → argsort keys !! j = Some i → keys !! i = Some j.
Proof.
  intros Hperm Hj. unfold argsort in Hj.
  rewrite list_lookup_fmap in Hj.
  destruct (sort_by_key _ !! j) as [[key i']|] eqn:Hs; simplify_eq/=.
  assert (key = j) as ->.
  { pose proof (sorted_keys keys w Hperm) as Hk.
    apply (f_equal (λ l, l !! j)) in Hk.
    rewrite list_lookup_fmap, Hs in Hk. simpl in Hk.
    symmetry in Hk. apply lookup_seq in Hk. lia. }
  apply list_elem_of_lookup_2 in Hs. rewrite sort_by_key_perm in Hs.
  apply list_elem_of_lookup in Hs as [p Hp].
  apply lookup_zip_with_Some in Hp as (a & b & [= <- <-] & Ha & Hb).
  apply lookup_seq in Hb as [-> _]. done.
Qed.

Lemma take_rows_seq (n : nat) (idx l : list nat) :
  take_rows (seq 0 n) idx = Ok l → l = idx.
Proof.
  unfold take_rows. intros Hm%expect_Ok%mapM_Some.
  symmetry. apply list_eq_Forall2.
  eapply Forall2_impl; [exact Hm|]. simpl.
  intros i x Hi%lookup_seq. lia.
Qed.



Lemma repeat_rows_lookup {A} (f k : nat) (a : list A) (x : A) :
  (a ≫= replicate f) !! k = Some x → a !! (k `div` f)%nat = Some x.
Proof.
  rewrite bind_join.
  rewrite (join_lookup_Some_same_length f).
  - intros (j & l & i' & Hl & Hx & ->).
    rewrite list_lookup_fmap in Hl.
    destruct (a !! j) as [y|] eqn:Hj; simplify_eq/=.
    apply lookup_replicate in Hx as [-> Hi'].
    rewrite Nat.div_add_l by lia. rewrite Nat.div_small by lia.
    by rewrite Nat.add_0_r.
  - apply Forall_fmap, Forall_forall. intros y _. simpl.
    by rewrite length_replicate.
Qed.

Lemma repeat_rows_length {A} (f : nat) (a : list A) :
  length (a ≫= replicate f) = (length a * f)%nat.
Proof.
  induction a as [|x a IH]; csimpl; [done|].
  rewrite length_app, length_replicate, IH. lia.
Qed.

Lemma negative_sampling_Ok_inv {A} (num_neg : Z) (values : list (list A))
    (user_col item_col : list nat) (item_unique : list (list A))
    (items : list Z) (out : list (list A)) :
  negative_sampling num_neg values user_col item_col item_unique items
  = Ok out →
  ∃ uvals isamp,
    mapM (λ row : list A, mapM (λ c, row !! c) user_col) values = Some uvals
    ∧ 0 ≤ num_neg + 1
    ∧ mapM (getitem item_unique) items = Some isamp
    ∧ length (uvals ≫= replicate (Z.to_nat (num_neg + 1))) = length isamp
    ∧ mapM (λ row : list A,
              mapM (λ c, row !! c) (argsort (user_col ++ item_col)))
        (zip_with app (uvals ≫= replicate (Z.to_nat (num_neg + 1))) isamp)
      = Some out.
Proof.
  unfold negative_sampling.
  intros (uvals & Hu%expect_Ok & Hk)%bind_Ok.
  apply bind_Ok in Hk as (usamp & Hrep & Hk).
  unfold repeat_rows in Hrep. case_decide as Hf; [done|].
  injection Hrep as <-.
  apply bind_Ok in Hk as (isamp & Hi & Hk).
  unfold rows_of_items in Hi.
  assert (mapM (getitem item_unique) items = Some isamp) as Hi'.
  { destruct items; [done|]. by apply expect_Ok in Hi. }
  case_decide as Hlen; [|done].
  apply bind_Ok in Hk as (col_reindex & ->%take_rows_seq & Hout%expect_Ok).
  exists uvals, isamp. repeat split; try done. lia.
Qed.

Lemma negative_sampling_length {A} (num_neg : Z) (values : list (list A))
    (user_col item_col : list nat) (item_unique : list (list A))
    (items : list Z) (out : list (list A)) :
  negative_sampling num_neg values user_col item_col item_unique items
  = Ok out →
  length out = length items.
Proof.
  intros (uvals & isamp & _ & _ & Hi & Hlen & Hout)%negative_sampling_Ok_inv.
  apply length_mapM in Hi, Hout.
  rewrite length_zip_with in Hout. lia.
Qed.


End ReindexSpec.

Module CallSpec.
Import Np NpFacts NegativeSamplingFeat SamplerNotions LabelSpec SampleSpec
  ReindexSpec CallNotions.

Lemma take_rows_Ok {A} (a a' : list A) (idx : list nat) :
  take_rows a idx = Ok a' ↔ gathered idx a a'.
Proof. unfold take_rows, gathered. by rewrite expect_Ok, mapM_Some. Qed.

Lemma take_rows_is_Ok {A} (a : list A) (idx : list nat) :
  Forall (λ j, j < length a)%nat idx → ∃ a', take_rows a idx = Ok a'.
Proof.
  intros Hidx. unfold take_rows.
  destruct (mapM_is_Some_2 (λ i, a !! i) idx) as [a' ->]; [|by eexists].
  eapply Forall_impl; [exact Hidx|]. intros j Hj. simpl.
  by apply lookup_lt_is_Some_2.
Qed.

Lemma shuffled_false {A} (mask : list nat) (a : list A) :
  shuffled false mask a = Ok a.
Proof. done. Qed.

Lemma argsort_perm (keys : list nat) : argsort keys ≡ₚ seq 0 (length keys).
Proof.
  unfold argsort. rewrite sort_by_key_perm.
  by rewrite snd_zip by (rewrite length_seq; lia).
Qed.

Lemma rows_of_items_is_Ok {A} (table : list (list A)) (items : list Z)
    (n : Z) :
  items ≠ [] → n ≤ Z.of_nat (length table) →
  Forall (λ i, 0 ≤ i < n) items →
  ∃ rows, rows_of_items table items = Ok rows
          ∧ length rows = length items
          ∧ Forall (λ row, row ∈ table) rows.
Proof.
  intros Hne Hn Hitems.
  destruct (mapM (getitem table) items) as [rows|] eqn:Hm.
  - exists rows. split; [|split].
    + unfold rows_of_items. destruct items; [done|]. by rewrite Hm.
    + symmetry. by eapply length_mapM.
    + apply mapM_Some in Hm. apply Forall_forall. intros row Hrow.
      apply list_elem_of_lookup in Hrow as [k Hk].
      destruct (Forall2_lookup_r _ _ _ _ _ Hm Hk) as (i & _ & Hi).
      unfold getitem in Hi. repeat case_decide; try done;
        by eapply list_elem_of_lookup_2.
  - exfalso. apply mapM_None, Exists_exists in Hm as (i & Hi & Hnone).
    rewrite Forall_forall in Hitems. specialize (Hitems i Hi).
    unfold getitem in Hnone. rewrite decide_True in Hnone by lia.
    apply lookup_ge_None in Hnone. lia.
Qed.

(** On arrays that fit, the body of the two paths returns. *)
Lemma negative_sampling_is_Ok {A} (num_neg : Z) (len : nat) (n_items : Z)
    (values : list (list A)) (user_col item_col : list nat)
    (item_unique : list (list A)) (items : list Z) :
  0 ≤ num_neg →
  path_ok len n_items values user_col item_col item_unique →
  items ≠ [] → Forall (λ i, 0 ≤ i < n_items) items →
  length items = (len * Z.to_nat (num_neg + 1))%nat →
  ∃ out,
    negative_sampling num_neg values user_col item_col item_unique items
    = Ok out.
Proof.
  intros Hneg (Hlen & Hucols & Hn & Hicols) Hne Hitems Hli.
  unfold negative_sampling, take_cols.
  destruct (mapM (λ row : list A, mapM (λ c, row !! c) user_col) values)
    as [uv|] eqn:Huv; first last.
  { exfalso. apply mapM_None, Exists_exists in Huv as (row & Hrow & Hnone).
    apply mapM_None, Exists_exists in Hnone as (c & Hc & Hnone).
    rewrite Forall_forall in Hucols. specialize (Hucols row Hrow).
    rewrite Forall_forall in Hucols. specialize (Hucols c Hc).
    apply lookup_ge_None in Hnone. lia. }
  simpl. unfold repeat_rows. rewrite decide_False by lia. simpl.
  destruct (rows_of_items_is_Ok item_unique items n_items Hne Hn Hitems)
    as (isamp & -> & Hlis & Hisamp).
  simpl.
  assert (Forall (λ urow, length urow = length user_col) uv) as Huvl.
  { apply mapM_Some in Huv. apply Forall_forall. intros urow Hu.
    apply list_elem_of_lookup in Hu as [k Hk].
    destruct (Forall2_lookup_r _ _ _ _ _ Huv Hk) as (row & _ & Hrow).
    symmetry. by eapply length_mapM. }
  rewrite decide_True; first last.
  { rewrite repeat_rows_length, <- (length_mapM _ _ _ Huv), Hlen. lia. }
  destruct (take_rows_is_Ok (seq 0 (length (user_col ++ item_col)))
              (argsort (user_col ++ item_col))) as [reindex Hre].
  { apply Forall_forall. intros j Hj. rewrite argsort_perm in Hj.
    apply elem_of_seq in Hj. rewrite length_seq. lia. }
  rewrite Hre. simpl. apply take_rows_seq in Hre as ->.
  destruct (mapM_is_Some_2
              (λ row : list A,
                 mapM (λ c, row !! c) (argsort (user_col ++ item_col)))
              (zip_with app (uv ≫= replicate (Z.to_nat (num_neg + 1)))
                 isamp)) as [out ->]; [|by eexists].
  apply Forall_forall. intros row Hrow.
  apply elem_of_zip_with in Hrow as (urow & irow & -> & Hu & Hi).
  apply mapM_is_Some_2, Forall_forall. intros c Hc. simpl.
  apply lookup_lt_is_Some_2. rewrite argsort_perm in Hc.
  apply elem_of_seq in Hc. rewrite length_app in Hc |- *.
  apply list_elem_of_bind in Hu as (urow' & Hu & Hu').
  apply elem_of_replicate in Hu as [-> _].
  rewrite Forall_forall in Huvl, Hisamp, Hicols.
  rewrite (Huvl _ Hu'). pose proof (Hicols _ (Hisamp _ Hi)). lia.
Qed.

Section spec.
Context `{NumpyRandom} {D float32 : Type}.
Variables zero one : float32.

Lemma label_length (self : t D) (L : list float32) :
  _label_negative_sampling zero one self = Ok L →
  length L
  = Z.to_nat (Z.of_nat (len (the_dataset self)) * (num_neg self + 1)).
Proof.
  unfold _label_negative_sampling.
  repeat case_decide; try done; intros [= <-].
  - by rewrite length_replicate.
  - by rewrite slice_assign_length, length_replicate.
Qed.

Lemma sample_items_length (fuel : nat) (self : t D) (g g' : rng)
    (sampled : list Z) :
  sample_items fuel self g = Ok (sampled, g') →
  0 ≤ num_neg self →
  length (user_indices (the_dataset self)) = len (the_dataset self) →
  length (item_indices (the_dataset self)) = len (the_dataset self) →
  length sampled
  = Z.to_nat (Z.of_nat (len (the_dataset self)) * (num_neg self + 1)).
Proof.
  intros (groups & -> & Hgroups)%sample_loop_Ok Hneg Hlu Hli. simpl.
  rewrite length_join,
    (sum_list_fmap_same (Z.to_nat (num_neg self + 1))).
  - apply Forall2_length in Hgroups. rewrite <- Hgroups.
    rewrite length_zip, Hlu, Hli. nia.
  - apply Forall_forall. intros grp Hgrp.
    apply list_elem_of_lookup in Hgrp as [p Hp].
    destruct (Forall2_lookup_r _ _ _ _ _ Hgroups Hp)
      as (ui & _ & negs & -> & Hn & _).
    simpl. lia.
Qed.

(** The parts of a call that returns. *)
Lemma call_Ok_iff (fuel : nat) (self : t D) (seed : Z)
    (dense random : bool) (S' : list (list Z))
    (D' : option (list (list D))) (L' : list float32) :
  let total :=
    Z.to_nat (Z.of_nat (len (the_dataset self)) * (num_neg self + 1)) in
  let drawn := np_random_permutation total (np_random_seed seed) in
  __call__ zero one fuel self seed dense random = Ok (S', D', L')
  ↔ ∃ L items g' S,
      _label_negative_sampling zero one self = Ok L
      ∧ sample_items fuel self drawn.2 = Ok (items, g')
      ∧ _sparse_negative_sampling self items = Ok S
      ∧ shuffled random drawn.1 L = Ok L'
      ∧ shuffled random drawn.1 S = Ok S'
      ∧ if dense
        then ∃ d d', _dense_negative_sampling self items = Ok d
                     ∧ shuffled random drawn.1 d = Ok d'
                     ∧ D' = Some d'
        else D' = None.
Proof.
  intros total drawn. unfold __call__. fold total. fold drawn.
  destruct drawn as [mask g1]. simpl. split.
  - intros (L & HL & Hk)%bind_Ok.
    apply bind_Ok in Hk as (L1 & HL1 & Hk).
    apply bind_Ok in Hk as ([items g'] & Hitems & Hk).
    apply bind_Ok in Hk as (S & HS & Hk).
    apply bind_Ok in Hk as (S1 & HS1 & Hk).
    exists L, items, g', S. destruct dense.
    + apply bind_Ok in Hk as (d & Hd & Hk).
      apply bind_Ok in Hk as (d1 & Hd1 & Hk).
      injection Hk as <- <- <-. repeat split; eauto.
    + injection Hk as <- <- <-. repeat split; eauto.
  - intros (L & items & g' & S & HL & Hitems & HS & HL1 & HS1 & Hd).
    rewrite HL. simpl. rewrite HL1. simpl. rewrite Hitems. simpl.
    rewrite HS. simpl. rewrite HS1. simpl. destruct dense.
    + destruct Hd as (d & d' & Hd & Hd1 & ->).
      rewrite Hd. simpl. rewrite Hd1. done.
    + by rewrite Hd.
Qed.

(** C6: for a non-negative [num_neg] the label array is there, has
    [len(dataset) * (num_neg + 1)] entries, and holds [1.0] at the
    positions [k] with [k mod (num_neg + 1) = 0] and [0.0] at the
    others; with [num_neg = 2] and four interactions it is
    [[1,0,0,1,0,0,1,0,0,1,0,0]]; and it is the label array that an
    unshuffled call returns. *)
Theorem label_negative_sampling_spec (self : t D) :
  0 ≤ num_neg self →
  (∃ labels,
     _label_negative_sampling zero one self = Ok labels
     ∧ Z.of_nat (length labels)
       = Z.of_nat (len (the_dataset self)) * (num_neg self + 1)
     ∧ ∀ k, (k < length labels)%nat →
            labels !! k
            = Some (if decide (Z.of_nat k `mod` (num_neg self + 1) = 0)
                    then one else zero))
  ∧ (len (the_dataset self) = 4%nat → num_neg self = 2 →
     _label_negative_sampling zero one self
     = Ok [one; zero; zero; one; zero; zero;
           one; zero; zero; one; zero; zero])
  ∧ (∀ fuel seed dense S Dv L,
       __call__ zero one fuel self seed dense false = Ok (S, Dv, L) →
       _label_negative_sampling zero one self = Ok L).
Proof.
  intros Hneg. split; [|split].
  - unfold _label_negative_sampling.
    set (factor := num_neg self + 1).
    set (m := len (the_dataset self)).
    rewrite decide_False by nia.
    rewrite decide_False by lia. rewrite decide_False by lia.
    eexists. split; [done|].
    rewrite slice_assign_length, length_replicate.
    split; [nia|]. intros k Hk.
    rewrite slice_assign_lookup, lookup_replicate_2 by done. simpl.
    assert ((Z.of_nat m * factor + factor - 1) `div` factor = Z.of_nat m)
      as ->.
    { replace (Z.of_nat m * factor + factor - 1)
        with (Z.of_nat m * factor + (factor - 1)) by lia.
      rewrite Z.div_add_l by lia. rewrite Z.div_small by lia. lia. }
    rewrite Nat2Z.id.
    pose proof (multiple_iff_mod m k factor ltac:(lia) ltac:(nia)) as Hiff.
    rewrite <- elem_of_strided in Hiff.
    repeat case_decide; try done; exfalso; tauto.
  - intros Hlen Hnum. unfold _label_negative_sampling.
    rewrite Hlen, Hnum. reflexivity.
  - intros fuel seed dense S Dv L
      (L0 & items & g' & S0 & HL & _ & _ & HL1 & _)%call_Ok_iff.
    rewrite shuffled_false in HL1. by injection HL1 as <-.
Qed.

(** C2: when every user of the dataset has a consumed set that leaves
    out some item of [[0, n_items)], [sample_items] returns with enough
    fuel; what it returns holds, for every interaction [(u, i)], the item
    [i] followed by [num_neg] items of [[0, n_items)] that are not in
    the consumed set of [u], [len(dataset) * (num_neg + 1)] items in
    all, and the sparse and dense arrays built from them have as many
    rows. *)
Theorem sample_items_spec (self : t D) (g : rng) :
  let ds := the_dataset self in
  let n := n_items (the_data_info self) in
  let pairs := zip (user_indices ds) (item_indices ds) in
  let factor := Z.to_nat (num_neg self + 1) in
  0 ≤ num_neg self →
  length (user_indices ds) = len ds →
  length (item_indices ds) = len ds →
  (∀ u i, (u, i) ∈ pairs →
          ∃ c, train_user_consumed ds !! u = Some c ∧ unsaturated n c) →
  (∃ fuel sampled g', sample_items fuel self g = Ok (sampled, g'))
  ∧ ∀ fuel sampled g',
      sample_items fuel self g = Ok (sampled, g') →
      Z.of_nat (length sampled) = Z.of_nat (len ds) * (num_neg self + 1)
      ∧ (∀ out, _sparse_negative_sampling self sampled = Ok out →
                length out = length sampled)
      ∧ (∀ out, _dense_negative_sampling self sampled = Ok out →
                length out = length sampled)
      ∧ ∀ p u i,
          pairs !! p = Some (u, i) →
          sampled !! (p * factor)%nat = Some i
          ∧ ∀ q, (1 ≤ q ≤ Z.to_nat (num_neg self))%nat →
                 ∃ y c,
                   sampled !! (p * factor + q)%nat = Some y
                   ∧ train_user_consumed ds !! u = Some c
                   ∧ 0 ≤ y < n ∧ y ∉ c.
Proof.
  intros ds n pairs factor Hneg Hlu Hli Hcons. split.
  - destruct (sample_loop_terminates pairs (num_neg self) n
                (train_user_consumed ds)) with (acc := @nil Z) (g := g)
      as (fuel & [sampled g'] & Hr).
    { apply Forall_forall. intros [u i] Hui. by apply (Hcons u i). }
    exists fuel, sampled, g'. apply Hr. lia.
  - intros fuel sampled g' Hrun.
    pose proof (sample_items_length _ _ _ _ _ Hrun Hneg Hlu Hli) as Hlen.
    apply sample_loop_Ok in Hrun as (groups & -> & Hgroups). simpl in *.
    assert (Forall (λ grp : list Z, length grp = factor) groups) as Hgl.
    { apply Forall_forall. intros grp Hgrp.
      apply list_elem_of_lookup in Hgrp as [p Hp].
      destruct (Forall2_lookup_r _ _ _ _ _ Hgroups Hp)
        as (ui & _ & negs & -> & Hn & _).
      simpl. unfold factor. lia. }
    split; [unfold ds; lia|].
    split; [intros out; apply negative_sampling_length|].
    split; [intros out; apply negative_sampling_length|].
    intros p u i Hp.
    destruct (Forall2_lookup_l _ _ _ _ _ Hgroups Hp)
      as (grp & Hgrp & negs & -> & Hn & Hnegs).
    simpl in *. split.
    + replace (p * factor)%nat with (p * factor + 0)%nat by lia.
      apply (join_lookup_Some_same_length' factor); [done| |].
      * unfold factor. lia.
      * eexists. split; [exact Hgrp|done].
    + intros q Hq.
      destruct (lookup_lt_is_Some_2 negs (q - 1)) as [y Hy]; [lia|].
      rewrite Forall_forall in Hnegs.
      destruct (Hnegs y) as (c & Hc & Hyr & Hyc).
      { by eapply list_elem_of_lookup_2. }
      exists y, c. repeat split; try done; try lia.
      apply (join_lookup_Some_same_length' factor); [done| |].
      * unfold factor. lia.
      * eexists. split; [exact Hgrp|].
        destruct q as [|q]; [lia|]. simpl.
        by replace (S q - 1)%nat with q in Hy by lia.
Qed.


Lemma label_is_Ok (self : t D) :
  0 ≤ num_neg self → ∃ L, _label_negative_sampling zero one self = Ok L.
Proof.
  intros Hneg. unfold _label_negative_sampling.
  rewrite decide_False by nia. rewrite decide_False by lia.
  rewrite decide_False by lia. by eexists.
Qed.

(** What [sample_items] returns are items of [[0, n_items)] when the
    items of the dataset are. *)
Lemma sample_items_range (fuel : nat) (self : t D) (g g' : rng)
    (sampled : list Z) :
  sample_items fuel self g = Ok (sampled, g') →
  Forall (λ i, 0 ≤ i < n_items (the_data_info self))
    (item_indices (the_dataset self)) →
  Forall (λ i, 0 ≤ i < n_items (the_data_info self)) sampled.
Proof.
  intros (groups & -> & Hgroups)%sample_loop_Ok Hitems. simpl.
  apply Forall_forall. intros y Hy.
  apply list_elem_of_join in Hy as (grp & Hy & Hgrp).
  apply list_elem_of_lookup in Hgrp as [p Hp].
  destruct (Forall2_lookup_r _ _ _ _ _ Hgroups Hp)
    as ([u i] & Hui & negs & -> & _ & Hnegs).
  apply elem_of_cons in Hy as [->|Hy].
  - simpl. rewrite Forall_forall in Hitems. apply Hitems.
    apply list_elem_of_lookup_2 in Hui.
    apply elem_of_zip_r in Hui. done.
  - rewrite Forall_forall in Hnegs.
    destruct (Hnegs y Hy) as (c & _ & Hr & _). done.
Qed.

(** On a dataset that fits, a call returns once the fuel is enough for
    its rejection loops. *)
Lemma call_is_Ok (self : t D) (seed : Z) (dense random : bool) :
  0 ≤ num_neg self → call_inputs_ok self dense →
  ∃ fuel r, __call__ zero one fuel self seed dense random = Ok r.
Proof.
  intros Hneg (Hpos & Hlu & Hli & Hitems & Hcons & Hsp & Hde).
  set (total :=
         Z.to_nat (Z.of_nat (len (the_dataset self)) * (num_neg self + 1))).
  set (drawn := np_random_permutation total (np_random_seed seed)).
  assert (Forall (λ j, j < total)%nat drawn.1) as Hrange.
  { apply Forall_forall. intros j Hj. unfold drawn in Hj.
    rewrite permutation_perm in Hj. apply elem_of_seq in Hj. lia. }
  destruct (label_is_Ok self Hneg) as [L HL].
  destruct (sample_loop_terminates
              (zip (user_indices (the_dataset self))
                 (item_indices (the_dataset self)))
              (num_neg self) (n_items (the_data_info self))
              (train_user_consumed (the_dataset self)))
    with (acc := @nil Z) (g := drawn.2) as (fuel & [items g'] & Hr).
  { apply Forall_forall. intros [u i] Hui. by apply (Hcons u i). }
  specialize (Hr fuel (Nat.le_refl _)).
  change (sample_items fuel self drawn.2 = Ok (items, g')) in Hr.
  pose proof (label_length self _ HL) as HlenL.
  pose proof (sample_items_length _ _ _ _ _ Hr Hneg Hlu Hli) as Hlen.
  pose proof (sample_items_range _ _ _ _ _ Hr Hitems) as Hir.
  fold total in HlenL, Hlen.
  assert (total = (len (the_dataset self)
                   * Z.to_nat (num_neg self + 1))%nat) as Htotal
    by (unfold total; nia).
  assert (items ≠ []) as Hne.
  { intros ->. simpl in Hlen. nia. }
  assert (∀ A (values : list (list A)) ucol icol table,
            path_ok (len (the_dataset self)) (n_items (the_data_info self))
              values ucol icol table →
            ∃ out out',
              negative_sampling (num_neg self) values ucol icol table items
              = Ok out
              ∧ shuffled random drawn.1 out = Ok out') as Hpath.
  { intros A values ucol icol table Hok.
    destruct (negative_sampling_is_Ok (num_neg self) _ _ values ucol icol
                table items Hneg Hok Hne Hir) as [out Hout]; [lia|].
    exists out. destruct random; [|by exists out].
    destruct (take_rows_is_Ok out drawn.1) as [out' Hout'];
      [|by exists out'].
    by rewrite (negative_sampling_length _ _ _ _ _ _ _ Hout), Hlen. }
  assert (∃ L', shuffled random drawn.1 L = Ok L') as [L' HL'].
  { destruct random; [|by exists L]. apply take_rows_is_Ok.
    by rewrite HlenL. }
  destruct (Hpath _ _ _ _ _ Hsp) as (S & S' & HS & HS').
  exists fuel. destruct dense.
  - destruct (Hpath _ _ _ _ _ (Hde eq_refl)) as (d & d' & Hd & Hd').
    exists (S', Some d', L'). apply call_Ok_iff.
    exists L, items, g', S. repeat split; eauto.
  - exists (S', None, L'). apply call_Ok_iff.
    exists L, items, g', S. repeat split; eauto.
Qed.

(** C1: the mask a call draws is a rearrangement of
    [0 .. len(dataset) * (num_neg + 1) - 1].  On a dataset that fits, a
    shuffled call returns once the fuel is enough, and it returns
    whenever the unshuffled call does.  What a shuffled call returns is
    made of the label array, of the sparse array and of the dense array
    (when asked for) of the items sampled, the arrays an unshuffled call
    returns, read through that one mask: at every row [k] the sparse
    row, the dense row and the label are those of row [mask[k]] of
    these arrays. *)
Theorem call_shuffle_consistent (self : t D) (seed : Z) (dense : bool) :
  let ds := the_dataset self in
  let total := Z.to_nat (Z.of_nat (len ds) * (num_neg self + 1)) in
  let drawn := np_random_permutation total (np_random_seed seed) in
  let mask := drawn.1 in
  0 ≤ num_neg self →
  length (user_indices ds) = len ds →
  length (item_indices ds) = len ds →
  mask ≡ₚ seq 0 total
  ∧ (call_inputs_ok self dense →
     ∃ fuel r, __call__ zero one fuel self seed dense true = Ok r)
  ∧ (∀ fuel S Dv L,
       __call__ zero one fuel self seed dense false = Ok (S, Dv, L) →
       ∃ r, __call__ zero one fuel self seed dense true = Ok r)
  ∧ (∀ fuel S' Dv' L',
       __call__ zero one fuel self seed dense true = Ok (S', Dv', L') →
       ∃ items g' S Dv L,
         sample_items fuel self drawn.2 = Ok (items, g')
         ∧ _label_negative_sampling zero one self = Ok L
         ∧ _sparse_negative_sampling self items = Ok S
         ∧ dense_of self dense items Dv
         ∧ __call__ zero one fuel self seed dense false = Ok (S, Dv, L)
         ∧ length S' = total ∧ length L' = total
         ∧ (∀ d', Dv' = Some d' → length d' = total)
         ∧ ∀ k, (k < total)%nat →
                ∃ j, mask !! k = Some j ∧ (j < total)%nat
                     ∧ same_example S S' Dv Dv' L L' j k).
Proof.
  intros ds total drawn mask Hneg Hlu Hli.
  assert (mask ≡ₚ seq 0 total) as Hperm by apply permutation_perm.
  assert (length mask = total) as Hmask.
  { by rewrite (Permutation_length Hperm), length_seq. }
  assert (Forall (λ j, j < total)%nat mask) as Hrange.
  { apply Forall_forall. intros j Hj. rewrite Hperm in Hj.
    apply elem_of_seq in Hj. lia. }
  split; [done|]. split; [by apply call_is_Ok|]. split.
  - intros fuel S Dv L
      (L0 & items & g' & S0 & HL & Hitems & HS & HL1 & HS1 & Hd)%call_Ok_iff.
    rewrite shuffled_false in HL1. rewrite shuffled_false in HS1.
    injection HL1 as <-. injection HS1 as <-.
    pose proof (label_length self _ HL) as HlenL.
    pose proof (sample_items_length _ _ _ _ _ Hitems Hneg Hlu Hli) as Hlen.
    pose proof (negative_sampling_length _ _ _ _ _ _ _ HS) as HlenS.
    destruct (take_rows_is_Ok L0 mask) as [L' HL']; [by rewrite HlenL|].
    destruct (take_rows_is_Ok S0 mask) as [S' HS'].
    { rewrite HlenS, Hlen. done. }
    destruct dense.
    + destruct Hd as (d & d0 & Hd & Hd1 & ->).
      pose proof (negative_sampling_length _ _ _ _ _ _ _ Hd) as Hlend.
      destruct (take_rows_is_Ok d mask) as [d' Hd'].
      { rewrite Hlend, Hlen. done. }
      exists (S', Some d', L'). apply call_Ok_iff.
      exists L0, items, g', S0. repeat split; eauto.
    + exists (S', None, L'). apply call_Ok_iff.
      exists L0, items, g', S0. repeat split; eauto.
  - intros fuel S' Dv' L'
      (L & items & g' & S & HL & Hitems & HS & HL1 & HS1 & Hd)%call_Ok_iff.
    simpl in HL1, HS1. apply take_rows_Ok in HL1, HS1.
    assert (∀ k, (k < total)%nat →
              ∃ j, mask !! k = Some j ∧ (j < total)%nat
                   ∧ (∃ s, S !! j = Some s ∧ S' !! k = Some s)
                   ∧ (∃ l, L !! j = Some l ∧ L' !! k = Some l)) as Hrows.
    { intros k Hk.
      destruct (lookup_lt_is_Some_2 mask k) as [j Hj]; [lia|].
      exists j. split; [done|]. split.
      { rewrite Forall_forall in Hrange. apply Hrange.
        by eapply list_elem_of_lookup_2. }
      destruct (Forall2_lookup_l _ _ _ _ _ HS1 Hj) as (s & Hs' & Hs).
      destruct (Forall2_lookup_l _ _ _ _ _ HL1 Hj) as (l & Hl' & Hl).
      split; eauto. }
    destruct dense.
    + destruct Hd as (d & d' & Hd & Hd1 & ->).
      simpl in Hd1. apply take_rows_Ok in Hd1.
      exists items, g', S, (Some d), L.
      split; [done|]. split; [done|]. split; [done|]. split; [done|].
      split.
      { apply call_Ok_iff. exists L, items, g', S.
        repeat split; try done. eauto. }
      split; [by rewrite <- (Forall2_length _ _ _ HS1)|].
      split; [by rewrite <- (Forall2_length _ _ _ HL1)|].
      split.
      { intros ? [= <-]. by rewrite <- (Forall2_length _ _ _ Hd1). }
      intros k Hk. destruct (Hrows k Hk) as (j & Hj & Hjt & Hs & Hl).
      exists j. repeat split; try done.
      destruct (Forall2_lookup_l _ _ _ _ _ Hd1 Hj) as (x & Hx' & Hx). eauto.
    + subst Dv'. exists items, g', S, None, L.
      split; [done|]. split; [done|]. split; [done|]. split; [done|].
      split.
      { apply call_Ok_iff. exists L, items, g', S. repeat split; done. }
      split; [by rewrite <- (Forall2_length _ _ _ HS1)|].
      split; [by rewrite <- (Forall2_length _ _ _ HL1)|].
      split; [done|].
      intros k Hk. destruct (Hrows k Hk) as (j & Hj & Hjt & Hs & Hl).
      exists j. repeat split; done.
Qed.

End spec.
End CallSpec.

(** ** [NegativeSamplingFeat]: termination, errors and rows *)

Module SamplerFacts.
Import Np NpFacts NegativeSamplingFeat SamplerNotions LabelSpec SampleSpec
  ReindexSpec CallSpec SamplingNotions.

Lemma gathered_omap {A} (mask : list nat) (a a' : list A) :
  gathered mask a a' → omap (λ j, a !! j) mask = a'.
Proof.
  unfold gathered. induction 1 as [|j x mask a' Hj _ IH]; [done|].
  csimpl. rewrite Hj. simpl. by rewrite IH.
Qed.

Lemma omap_lookup_seq {A} (pre l : list A) :
  omap (λ j, (pre ++ l) !! j) (seq (length pre) (length l)) = l.
Proof.
  revert pre. induction l as [|x l IH]; intros pre; [done|].
  simpl. rewrite list_lookup_middle by done. f_equal.
  specialize (IH (pre ++ [x])).
  rewrite <- app_assoc, length_app in IH. simpl in IH.
  by rewrite Nat.add_1_r in IH.
Qed.

(** Reading an array through a rearrangement of its positions gives a
    rearrangement of the array. *)
Lemma gathered_perm {A} (mask : list nat) (a a' : list A) :
  mask ≡ₚ seq 0 (length a) → gathered mask a a' → a' ≡ₚ a.
Proof.
  intros Hperm Hg. rewrite <- (gathered_omap _ _ _ Hg), Hperm.
  pose proof (omap_lookup_seq [] a) as Hs.
  change (omap (λ j, a !! j) (seq 0 (length a)) = a) in Hs. by rewrite Hs.
Qed.

Lemma gathered_zip {A B} (mask : list nat) (a a' : list A) (b b' : list B) :
  gathered mask a a' → gathered mask b b' →
  gathered mask (zip a b) (zip a' b').
Proof.
  unfold gathered. intros Ha. revert b'.
  induction Ha as [|j x mask a' Hj _ IH]; intros b' Hb.
  - inversion Hb. constructor.
  - inversion Hb as [|j' y mask' b'' Hy Hb']; subst. simpl.
    constructor; [|by apply IH].
    by rewrite lookup_zip_with, Hj, Hy.
Qed.

(** Every output row of the shared body, column by column. *)
Lemma negative_sampling_row {A} (num_neg : Z) (values : list (list A))
    (user_col item_col : list nat) (item_unique : list (list A))
    (items : list Z) (out : list (list A)) (w k : nat) (R : list A) :
  negative_sampling num_neg values user_col item_col item_unique items
  = Ok out →
  user_col ++ item_col ≡ₚ seq 0 w →
  out !! k = Some R →
  row_of num_neg values user_col item_col item_unique items k R.
Proof.
  intros (uvals & isamp & Hu & Hf & Hi & Hlen & Hout)%negative_sampling_Ok_inv
    Hperm Hk.
  set (f := Z.to_nat (num_neg + 1)) in *.
  set (orig := user_col ++ item_col) in *.
  apply mapM_Some in Hu, Hi, Hout.
  destruct (Forall2_lookup_r _ _ _ _ _ Hout Hk) as (cat & Hcat & HR).
  apply lookup_zip_with_Some in Hcat as (urow & irow & -> & Hurow & Hirow).
  pose proof (repeat_rows_lookup _ _ _ _ Hurow) as Huv.
  destruct (Forall2_lookup_r _ _ _ _ _ Hu Huv) as (src & Hsrc & Hcols).
  destruct (Forall2_lookup_r _ _ _ _ _ Hi Hirow) as (i & Hik & Hrow).
  apply mapM_Some in Hcols, HR.
  assert (length urow = length user_col) as Hlu.
  { symmetry. by eapply Forall2_length. }
  assert (NoDup orig) as Hnd by (rewrite Hperm; apply NoDup_seq).
  assert (∀ p c, orig !! p = Some c →
            is_Some (R !! c) ∧ R !! c = (urow ++ irow) !! p) as Hcell.
  { intros p c Hp.
    assert (c < length (argsort orig))%nat as Hc.
    { rewrite argsort_length, (Permutation_length Hperm), length_seq.
      apply list_elem_of_lookup_2 in Hp. rewrite Hperm in Hp.
      apply elem_of_seq in Hp. lia. }
    destruct (lookup_lt_is_Some_2 _ _ Hc) as [i' Hi'].
    pose proof (argsort_lookup orig w c i' Hperm Hi') as Ho.
    assert (i' = p) as -> by (eapply NoDup_lookup; eauto).
    destruct (Forall2_lookup_l _ _ _ _ _ HR Hi') as (y & Hy & Hcy).
    rewrite Hy, Hcy. eauto. }
  exists src, i, irow. repeat split; try done.
  - rewrite <- (Forall2_length _ _ _ HR). apply argsort_length.
  - apply list_elem_of_lookup in H as [p Hp].
    apply (Hcell p). unfold orig. by apply lookup_app_l_Some.
  - apply list_elem_of_lookup in H as [p Hp].
    destruct (Hcell p c) as [_ ->].
    { unfold orig. by apply lookup_app_l_Some. }
    rewrite lookup_app_l by (rewrite Hlu; by eapply lookup_lt_Some).
    destruct (Forall2_lookup_l _ _ _ _ _ Hcols Hp) as (y & -> & ->). done.
  - apply (Hcell (length user_col + q)%nat). unfold orig.
    rewrite lookup_app_r by lia.
    by replace (length user_col + q - length user_col)%nat with q by lia.
  - destruct (Hcell (length user_col + q)%nat c) as [_ ->].
    { unfold orig. rewrite lookup_app_r by lia.
      by replace (length user_col + q - length user_col)%nat with q by lia. }
    rewrite lookup_app_r by lia.
    by replace (length user_col + q - length urow)%nat with q by lia.
Qed.

Section facts.
Context `{NumpyRandom}.

Lemma reject_saturated (fuel : nat) (n : Z) (c : gset Z) (x : Z) (g : rng) :
  0 < n → saturated n c → x ∈ c → reject fuel n c x g = OutOfFuel.
Proof.
  intros Hn Hsat. revert x g. induction fuel as [|fuel IH]; intros x g Hx; simpl.
  - by rewrite decide_True.
  - rewrite decide_True by done. unfold randint.
    rewrite decide_True by done. simpl.
    pose proof (randint_range 0 n g Hn) as Hr.
    destruct (np_random_randint 0 n g) as [x1 g1]. simpl in *.
    apply IH. by apply Hsat.
Qed.

Lemma reject_outcome (fuel : nat) (n : Z) (c : gset Z) (x : Z) (g : rng) :
  0 < n →
  (∃ r, reject fuel n c x g = Ok r) ∨ reject fuel n c x g = OutOfFuel.
Proof.
  intros Hn. revert x g. induction fuel as [|fuel IH]; intros x g; simpl.
  - case_decide; [by right|left; by eexists].
  - case_decide; [|left; by eexists]. unfold randint.
    rewrite decide_True by done. simpl.
    destruct (np_random_randint 0 n g) as [x1 g1]. apply IH.
Qed.

Lemma negatives_outcome (fuel count : nat) (n : Z) (dict : gmap Z (gset Z))
    (u : Z) (acc : list Z) (g : rng) :
  0 < n → is_Some (dict !! u) →
  (∃ r, negatives fuel count n dict u acc g = Ok r)
  ∨ negatives fuel count n dict u acc g = OutOfFuel.
Proof.
  intros Hn [c Hc]. revert acc g.
  induction count as [|count IH]; intros acc g; simpl.
  - left. by eexists.
  - unfold randint. rewrite decide_True by done. simpl.
    destruct (np_random_randint 0 n g) as [x g1]. rewrite Hc. simpl.
    destruct (reject_outcome fuel n c x g1 Hn) as [[[y g2] ->]| ->];
      [|by right].
    simpl. apply IH.
Qed.

Lemma negatives_saturated (fuel count : nat) (n : Z)
    (dict : gmap Z (gset Z)) (u : Z) (c : gset Z) (acc : list Z) (g : rng) :
  0 < n → dict !! u = Some c → saturated n c →
  negatives fuel (S count) n dict u acc g = OutOfFuel.
Proof.
  intros Hn Hc Hsat. simpl. unfold randint. rewrite decide_True by done.
  simpl. pose proof (randint_range 0 n g Hn) as Hr.
  destruct (np_random_randint 0 n g) as [x g1]. rewrite Hc. simpl in *.
  rewrite reject_saturated; [done..|]. by apply Hsat.
Qed.

Lemma sample_loop_saturated (fuel : nat) (pairs : list (Z * Z))
    (num_neg n : Z) (dict : gmap Z (gset Z)) (acc : list Z) (g : rng) :
  1 ≤ num_neg → 0 < n →
  Forall (λ ui, is_Some (dict !! ui.1)) pairs →
  Exists (λ ui, ∃ c, dict !! ui.1 = Some c ∧ saturated n c) pairs →
  sample_loop fuel pairs num_neg n dict acc g = OutOfFuel.
Proof.
  intros Hneg Hn Hall Hex. revert acc g.
  induction Hall as [|ui pairs Hui Hall IH]; intros acc g.
  { by apply Exists_nil in Hex. }
  simpl. destruct (Z.to_nat num_neg) as [|count] eqn:Hc; [lia|].
  apply Exists_cons in Hex as [(c & Hdc & Hsat)|Hex].
  - by rewrite (negatives_saturated _ _ _ _ _ c).
  - rewrite <- Hc.
    destruct (negatives_outcome fuel (Z.to_nat num_neg) n dict ui.1
                (acc ++ [ui.2]) g Hn Hui) as [[[items1 g1] ->]| ->];
      [|done].
    simpl. by apply IH.
Qed.

Lemma sample_loop_no_negatives (fuel : nat) (pairs : list (Z * Z))
    (num_neg n : Z) (dict : gmap Z (gset Z)) (acc : list Z) (g : rng) :
  num_neg ≤ 0 →
  sample_loop fuel pairs num_neg n dict acc g = Ok (acc ++ pairs.*2, g).
Proof.
  intros Hneg. revert acc.
  induction pairs as [|ui pairs IH]; intros acc; simpl.
  - by rewrite app_nil_r.
  - replace (Z.to_nat num_neg) with 0%nat by lia. simpl.
    rewrite IH, <- app_assoc. done.
Qed.

End facts.
End SamplerFacts.

Module SamplerSpec.
Import Np NpFacts NegativeSamplingFeat SamplerNotions LabelSpec SampleSpec
  ReindexSpec CallSpec SamplingNotions SamplerFacts.

Section spec.
Context `{NumpyRandom} {D float32 : Type}.
Variables zero one : float32.

(** X9: with at least one negative per interaction, [sample_items]
    returns (for some amount of fuel) exactly when every user of the
    dataset has a consumed set, and one that leaves out some item of
    [[0, n_items)]. *)
Theorem sample_items_returns_iff (self : t D) (g : rng) :
  1 ≤ num_neg self →
  (∃ fuel r, sample_items fuel self g = Ok r)
  ↔ ∀ u i,
      (u, i) ∈ zip (user_indices (the_dataset self))
                 (item_indices (the_dataset self)) →
      ∃ c, train_user_consumed (the_dataset self) !! u = Some c
           ∧ unsaturated (n_items (the_data_info self)) c.
Proof.
  intros Hneg. split.
  - intros (fuel & [sampled g'] & Hrun) u i Hui.
    apply sample_loop_Ok in Hrun as (groups & _ & Hgroups).
    apply list_elem_of_lookup in Hui as [p Hp].
    destruct (Forall2_lookup_l _ _ _ _ _ Hgroups Hp)
      as (grp & _ & negs & _ & Hn & Hnegs).
    destruct negs as [|y negs]; [simpl in Hn; lia|].
    apply Forall_cons in Hnegs as [(c & Hc & Hy & Hyc) _].
    exists c. split; [done|]. by exists y.
  - intros Hcons.
    destruct (sample_loop_terminates
                (zip (user_indices (the_dataset self))
                   (item_indices (the_dataset self)))
                (num_neg self) (n_items (the_data_info self))
                (train_user_consumed (the_dataset self)))
      with (acc := @nil Z) (g := g) as (fuel & r & Hr).
    { apply Forall_forall. intros [u i] Hui. by apply (Hcons u i). }
    exists fuel, r. apply Hr. lia.
Qed.

(** X10: when every user of the dataset has a consumed set and the set
    of one of them holds every item of [[0, n_items)], the rejection loop
    of [sample_items] never ends: whatever the fuel, the run is out of
    fuel (it neither returns nor raises). *)
Theorem sample_items_saturated_diverges (self : t D) (g : rng) (fuel : nat) :
  let pairs := zip (user_indices (the_dataset self))
                 (item_indices (the_dataset self)) in
  let dict := train_user_consumed (the_dataset self) in
  let n := n_items (the_data_info self) in
  1 ≤ num_neg self → 0 < n →
  (∀ u i, (u, i) ∈ pairs → is_Some (dict !! u)) →
  (∃ u i c, (u, i) ∈ pairs ∧ dict !! u = Some c ∧ saturated n c) →
  sample_items fuel self g = OutOfFuel.
Proof.
  intros pairs dict n Hneg Hn Hall (u & i & c & Hui & Hc & Hsat).
  apply sample_loop_saturated; try done.
  - apply Forall_forall. intros [u' i'] Hin. by apply (Hall u' i').
  - apply Exists_exists. exists (u, i). split; [done|]. by exists c.
Qed.

(** X11: with [num_neg <= 0] no negative is drawn: [sample_items]
    returns the positive items of the interactions, in order, without
    looking up a consumed set and without a draw from the generator. *)
Theorem sample_items_no_negatives (fuel : nat) (self : t D) (g : rng) :
  num_neg self ≤ 0 →
  sample_items fuel self g
  = Ok ((zip (user_indices (the_dataset self))
           (item_indices (the_dataset self))).*2, g).
Proof. intros Hneg. unfold sample_items. by rewrite sample_loop_no_negatives. Qed.

(** X12: on a dataset without interactions a call raises [IndexError]:
    the empty item array is no index into the table of the items. *)
Theorem call_empty_dataset (fuel : nat) (self : t D) (seed : Z)
    (dense random : bool) :
  0 ≤ num_neg self →
  len (the_dataset self) = 0%nat →
  user_indices (the_dataset self) = [] →
  __call__ zero one fuel self seed dense random = Raise IndexError.
Proof.
  intros Hneg Hlen Hu. unfold __call__.
  assert (_label_negative_sampling zero one self = Ok []) as ->.
  { unfold _label_negative_sampling. rewrite Hlen. simpl.
    rewrite decide_False by lia. rewrite decide_False by lia.
    by rewrite Z.div_small by lia. }
  replace (Z.to_nat (Z.of_nat (len (the_dataset self)) * (num_neg self + 1)))
    with 0%nat by (rewrite Hlen; lia).
  pose proof (permutation_perm 0 (np_random_seed seed)) as Hperm.
  destruct (np_random_permutation 0 (np_random_seed seed)) as [mask g1].
  simpl in Hperm. apply Permutation_nil_r in Hperm as ->.
  assert (∀ A (a : list A), shuffled random [] a
                            = if random then Ok [] else Ok a) as Hsh.
  { intros A a. by destruct random. }
  simpl. rewrite Hsh. 
  assert ((if random then Ok [] else Ok []) = @Ok (list float32) []) as ->
    by (by destruct random).
  simpl. unfold sample_items. rewrite Hu. simpl.
  unfold _sparse_negative_sampling, negative_sampling.
  destruct (take_cols _ _) as [uv|e|] eqn:Htc; simpl.
  - unfold repeat_rows. rewrite decide_False by lia. done.
  - unfold take_cols in Htc. destruct (mapM _ _); simpl in Htc; congruence.
  - unfold take_cols in Htc. destruct (mapM _ _); simpl in Htc; congruence.
Qed.

(** X13: the [dense] flag changes nothing but the presence of the dense
    array: what a call with [dense=True] returns as sparse rows and
    labels, the call with [dense=False] returns too; and when both calls
    return, the sparse rows and the labels are the same. *)
Theorem call_dense_flag (fuel : nat) (self : t D) (seed : Z) (random : bool) :
  (∀ S Dv L,
     __call__ zero one fuel self seed true random = Ok (S, Dv, L) →
     __call__ zero one fuel self seed false random = Ok (S, None, L))
  ∧ (∀ S Dv L S' Dv' L',
       __call__ zero one fuel self seed false random = Ok (S, Dv, L) →
       __call__ zero one fuel self seed true random = Ok (S', Dv', L') →
       S' = S ∧ L' = L ∧ Dv = None ∧ is_Some Dv').
Proof.
  split.
  - intros S Dv L (L0 & items & g' & S0 & HL & Hi & HS & HL1 & HS1 & _)
      %call_Ok_iff.
    apply call_Ok_iff. exists L0, items, g', S0. done.
  - intros S Dv L S' Dv' L'
      (L0 & items & g' & S0 & HL & Hi & HS & HL1 & HS1 & ->)%call_Ok_iff
      (L0' & items' & g'' & S0' & HL' & Hi' & HS' & HL1' & HS1'
         & d & d' & _ & _ & ->)%call_Ok_iff.
    simplify_eq. repeat split; try congruence. eauto.
Qed.

(** X14: every row of the sparse and of the dense output is assembled
    from the dataset and the table of the items: row [k] has as many
    entries as there are columns, on the user-side columns it holds the
    entries of the dataset row of interaction [k div (num_neg + 1)], and
    on the item-side columns the entries of the table row of the item
    sampled for [k]. *)
Theorem negative_sampling_rows (self : t D) (items : list Z) (k w : nat) :
  let ds := the_dataset self in
  let info := the_data_info self in
  (∀ out R,
     _sparse_negative_sampling self items = Ok out →
     user_sparse_col info ++ item_sparse_col info ≡ₚ seq 0 w →
     out !! k = Some R →
     row_of (num_neg self) (sparse_indices ds)
       (user_sparse_col info) (item_sparse_col info)
       (item_sparse_unique info) items k R)
  ∧ (∀ out R,
       _dense_negative_sampling self items = Ok out →
       user_dense_col info ++ item_dense_col info ≡ₚ seq 0 w →
       out !! k = Some R →
       row_of (num_neg self) (dense_values ds)
         (user_dense_col info) (item_dense_col info)
         (item_dense_unique info) items k R).
Proof.
  intros ds info. split; intros out R Hout Hperm HR.
  - by eapply negative_sampling_row.
  - by eapply negative_sampling_row.
Qed.

(** X15: shuffling loses and repeats no example: the shuffled output,
    as rows paired with their labels (and with their dense rows), is a
    rearrangement of the unshuffled output. *)
Theorem call_shuffle_permutes (fuel : nat) (self : t D) (seed : Z)
    (dense : bool) S Dv L S' Dv' L' :
  0 ≤ num_neg self →
  length (user_indices (the_dataset self)) = len (the_dataset self) →
  length (item_indices (the_dataset self)) = len (the_dataset self) →
  __call__ zero one fuel self seed dense false = Ok (S, Dv, L) →
  __call__ zero one fuel self seed dense true = Ok (S', Dv', L') →
  zip S' L' ≡ₚ zip S L
  ∧ ∀ d d', Dv = Some d → Dv' = Some d' →
      zip (zip S' d') L' ≡ₚ zip (zip S d) L.
Proof.
  intros Hneg Hlu Hli
    (L0 & items & g' & S0 & HL & Hitems & HS & HL1 & HS1 & Hd)%call_Ok_iff
    (L0' & items' & g'' & S0' & HL' & Hitems' & HS' & HL1' & HS1' & Hd')
      %call_Ok_iff.
  rewrite shuffled_false in HL1. rewrite shuffled_false in HS1. simplify_eq.
  assert (L0' = L) as -> by congruence.
  assert (items' = items) as -> by congruence.
  assert (S0' = S) as -> by congruence.
  set (total := Z.to_nat (Z.of_nat (len (the_dataset self))
                          * (num_neg self + 1))) in *.
  set (mask := (np_random_permutation total (np_random_seed seed)).1) in *.
  assert (mask ≡ₚ seq 0 total) as Hperm by apply permutation_perm.
  pose proof (label_length _ _ self _ HL) as HlenL.
  pose proof (sample_items_length _ _ _ _ _ Hitems Hneg Hlu Hli) as Hlen.
  pose proof (negative_sampling_length _ _ _ _ _ _ _ HS) as HlenS.
  simpl in HL1', HS1'. apply take_rows_Ok in HL1', HS1'.
  split.
  - apply (gathered_perm mask); [|by apply gathered_zip].
    rewrite length_zip, HlenL, HlenS, Hlen. fold total.
    by rewrite Nat.min_id.
  - intros d d' -> ->. destruct dense; [|done].
    destruct Hd as (d0 & d0' & Hd0 & Hd1 & [= <-]).
    destruct Hd' as (d1 & d1' & Hd1' & Hd2 & [= <-]).
    rewrite shuffled_false in Hd1. simplify_eq.
    assert (d1 = d) as -> by congruence.
    pose proof (negative_sampling_length _ _ _ _ _ _ _ Hd0) as Hlend.
    simpl in Hd2. apply take_rows_Ok in Hd2.
    apply (gathered_perm mask); [|by repeat apply gathered_zip].
    rewrite !length_zip, HlenL, HlenS, Hlend, Hlen. fold total.
    by rewrite !Nat.min_id.
Qed.

(** X16: [_label_negative_sampling] raises [ValueError] exactly when
    [num_neg] is -1 (a slice step of zero), or is below -1 on a dataset
    with interactions (a negative array length), and a call raises it
    then; with [num_neg] below -1 and no interaction it returns the
    empty array. *)
Theorem label_negative_sampling_errors (self : t D) :
  let m := Z.of_nat (len (the_dataset self)) in
  let bad := num_neg self = -1 ∨ (num_neg self < -1 ∧ 0 < m) in
  (_label_negative_sampling zero one self = Raise ValueError ↔ bad)
  ∧ (¬ bad → ∃ labels, _label_negative_sampling zero one self = Ok labels)
  ∧ (num_neg self < -1 → m = 0 →
     _label_negative_sampling zero one self = Ok [])
  ∧ (bad → ∀ fuel seed dense random,
       __call__ zero one fuel self seed dense random = Raise ValueError).
Proof.
  intros m bad. subst bad.
  assert (_label_negative_sampling zero one self = Raise ValueError
          ↔ num_neg self = -1 ∨ (num_neg self < -1 ∧ 0 < m)) as Hiff.
  { unfold _label_negative_sampling. fold m.
    repeat case_decide; split; try done; try nia; intros _; nia. }
  split; [done|]. split; [|split].
  - intros Hgood. unfold _label_negative_sampling in *. fold m in Hiff |- *.
    repeat case_decide; eauto; exfalso; apply Hgood, Hiff; done.
  - intros Hneg Hm. unfold _label_negative_sampling. fold m. rewrite Hm.
    simpl. rewrite decide_False by lia. by rewrite decide_True by lia.
  - intros Hbad%Hiff fuel seed dense random. unfold __call__.
    destruct (np_random_permutation _ _) as [mask g1].
    by rewrite Hbad.
Qed.

End spec.
End SamplerSpec.

(** ** [next_batch]: batches, shared rows and termination *)

Module BatchFacts.
Import Np NpFacts NextBatch BatchNotions.

Lemma slice_chunk {A} (a : list A) (size : Z) (k : nat) (n : nat) :
  0 < size → length a = n →
  slice a (Z.of_nat k * size)
    (Z.min (Z.of_nat n) ((Z.of_nat k + 1) * size))
  = chunk size k a.
Proof.
  intros Hs Hn. unfold slice, slice_start, slice_index, chunk.
  rewrite Hn.
  replace ((Z.of_nat k + 1) * size) with (Z.of_nat k * size + size) by lia.
  replace (k * Z.to_nat size)%nat with (Z.to_nat (Z.of_nat k * size)) by nia.
  assert (0 ≤ Z.of_nat k * size) as Hp by nia.
  generalize dependent (Z.of_nat k * size). intros p Hp.
  rewrite decide_False by lia. rewrite decide_False by lia.
  destruct (decide (p ≤ Z.of_nat n)) as [Hle|Hgt].
  - rewrite (Z.min_l p) by lia.
    destruct (decide (p + size ≤ Z.of_nat n)) as [Hle'|Hgt'].
    + rewrite !Z.min_l by lia. f_equal. lia.
    + rewrite (Z.min_l (Z.of_nat n)) by lia. rewrite Z.min_id.
      rewrite !take_ge; [done|rewrite length_drop; lia..].
  - rewrite (Z.min_r p) by lia.
    rewrite !drop_ge by lia. by rewrite !take_nil.
Qed.

Lemma chunks_join {A} (size : Z) (m : nat) (a : list A) :
  mjoin ((λ k, chunk size k a) <$> seq 0 m)
  = take (m * Z.to_nat size) a.
Proof.
  induction m as [|m IH]; [done|].
  rewrite seq_S, fmap_app, join_app, IH. simpl. rewrite app_nil_r.
  unfold chunk. rewrite take_take_drop. f_equal. lia.
Qed.

Lemma slice_length {A} (a : list A) (lo hi : Z) :
  (slice_start a lo + length (slice a lo hi) ≤ length a)%nat.
Proof.
  unfold slice. rewrite length_take, length_drop.
  assert (slice_start a lo ≤ length a)%nat; [|lia].
  unfold slice_start, slice_index. case_decide; lia.
Qed.

Lemma setitem_last {A} (a a' : list A) (x : A) :
  setitem a (-1) x = Some a' → a' = <[(length a - 1)%nat := x]> a.
Proof.
  unfold setitem. rewrite decide_False by lia.
  case_decide as Hl; [|done]. intros [= <-]. f_equal. lia.
Qed.

Lemma Forall2_replicate_same {A B} (P : A → B → Prop) (n : nat) (x : A)
    (y : B) :
  P x y → Forall2 P (replicate n x) (replicate n y).
Proof. intros Hp. induction n; simpl; by constructor. Qed.

Lemma blocks_length {A B} (f : A → list B) (n : nat) (l : list A) :
  (∀ x, length (f x) = n) → length (mjoin (f <$> l)) = (length l * n)%nat.
Proof.
  intros Hf. induction l as [|x l IH]; [done|]. csimpl.
  rewrite length_app, Hf, IH. lia.
Qed.

Section facts.
Context `{NumpyRandom} {D L D0 : Type}.
Variable zero : L.

(** The references a sample leaves in [indices], read through the heap
    of the lists. *)
Lemma index_blocks_deref (count : nat) (batch pre negs : list (list Z)) :
  length negs = length batch →
  Forall2 (λ r y, deref (pre ++ negs) r = Some y)
    (mjoin (zip_with (λ s j, inl s :: replicate count (inr j)) batch
              (seq (length pre) (length batch))))
    (mjoin (zip_with (index_block count) batch negs)).
Proof.
  revert pre negs. induction batch as [|s batch IH]; intros pre negs Hl.
  { destruct negs; [constructor|done]. }
  destruct negs as [|neg negs]; [done|]. simpl in Hl. csimpl.
  constructor; [done|]. apply Forall2_app.
  - apply Forall2_replicate_same. simpl. by apply list_lookup_middle.
  - specialize (IH (pre ++ [neg]) negs).
    rewrite <- app_assoc, length_app in IH. simpl in IH.
    rewrite Nat.add_1_r in IH. apply IH. lia.
Qed.

Lemma index_blocks_length (count : nat) (batch negs : list (list Z)) :
  length negs = length batch →
  length (mjoin (zip_with (index_block count) batch negs))
  = (length batch * S count)%nat.
Proof.
  revert negs. induction batch as [|s batch IH]; intros negs Hl; [done|].
  destruct negs as [|neg negs]; [done|]. simpl in Hl. csimpl.
  rewrite length_app, length_replicate, IH by lia. lia.
Qed.

(** The views a sample leaves in [values], read through the array. *)
Lemma value_blocks_deref (count vstart : nat) (st : list (list D))
    (b k : nat) :
  (vstart + k + b ≤ length st)%nat →
  Forall2 (λ r y, st !! r = Some y)
    (mjoin ((λ j, replicate (S count) (vstart + j)%nat) <$> seq k b))
    (mjoin (value_block count <$> take b (drop (vstart + k) st))).
Proof.
  revert k. induction b as [|b IH]; intros k Hk; [constructor|].
  destruct (lookup_lt_is_Some_2 st (vstart + k)) as [x Hx]; [lia|].
  rewrite (drop_S _ _ _ Hx). csimpl.
  constructor; [done|]. apply Forall2_app.
  - by apply Forall2_replicate_same.
  - replace (S (vstart + k)) with (vstart + S k)%nat by lia.
    apply IH. lia.
Qed.

Lemma negative_step_Ok (fuel : nat) (a : batch_attrs D)
    (ds : batch_data D L) (user : Z) (addr row : nat)
    (st st' : loop_state D L) (ss : list Z) :
  negative_step zero fuel a ds user addr row st = Ok st' →
  heap st !! addr = Some ss →
  ∃ y c ss' vv',
    train_user ds !! user = Some c ∧ 0 ≤ y < n_items ds ∧ (y ∉ c)
    ∧ indices st' = indices st ++ [inr addr]
    ∧ values st' = values st ++ [row]
    ∧ labels st' = labels st ++ [zero]
    ∧ heap st' = <[addr := ss']> (heap st)
    ∧ store st' = <[row := vv']> (store st)
    ∧ (item_feat a = Some false →
       ss' = <[(length ss - 1)%nat
               := y + (user_offset ds + n_users ds)]> ss
       ∧ store st !! row = Some vv').
Proof.
  unfold negative_step. intros Hstep Hss.
  apply bind_Ok in Hstep as ([x g1] & Hx & Hstep).
  apply SampleSpec.randint_Ok in Hx as [_ Hx].
  apply bind_Ok in Hstep as (c & Hc%expect_Ok & Hstep).
  apply bind_Ok in Hstep as ([y g2] & Hrej & Hstep).
  apply SampleSpec.reject_Ok in Hrej as [Hyc Hy].
  rewrite Hss in Hstep. simpl in Hstep.
  apply bind_Ok in Hstep as (ss1 & Hss1%expect_Ok%setitem_last & Hstep).
  apply bind_Ok in Hstep as (feat & Hfeat%expect_Ok & Hstep).
  apply bind_Ok in Hstep as (ss2 & Hss2 & Hstep).
  apply bind_Ok in Hstep as (vv & Hvv%expect_Ok & Hstep).
  apply bind_Ok in Hstep as (vv2 & Hvv2 & Hstep).
  injection Hstep as <-. simpl.
  exists y, c, ss2, vv2. repeat split; try done.
  - destruct Hy as [->|Hy]; simpl in *; lia.
  - destruct Hy as [->|Hy]; simpl in *; lia.
  - rewrite Hfeat in H0. injection H0 as ->. by injection Hss2 as <-.
  - rewrite Hfeat in H0. injection H0 as ->. by injection Hvv2 as <-.
Qed.

Lemma negatives_loop_Ok (fuel count : nat) (a : batch_attrs D)
    (ds : batch_data D L) (user : Z) (addr row : nat)
    (st st' : loop_state D L) (ss : list Z) :
  negatives_loop zero fuel count a ds user addr row st = Ok st' →
  heap st !! addr = Some ss →
  ∃ ss',
    indices st' = indices st ++ replicate count (inr addr)
    ∧ values st' = values st ++ replicate count row
    ∧ labels st' = labels st ++ replicate count zero
    ∧ heap st' = <[addr := ss']> (heap st)
    ∧ length (store st') = length (store st)
    ∧ (item_feat a = Some false →
       store st' = store st
       ∧ (count ≠ 0%nat →
          ∃ y c,
            train_user ds !! user = Some c ∧ 0 ≤ y < n_items ds ∧ (y ∉ c)
            ∧ ss' = <[(length ss - 1)%nat
                      := y + (user_offset ds + n_users ds)]> ss)).
Proof.
  revert st ss. induction count as [|count IH]; intros st ss Hloop Hss.
  - injection Hloop as <-. exists ss. rewrite !app_nil_r.
    rewrite list_insert_id by done. repeat split; done.
  - simpl in Hloop. apply bind_Ok in Hloop as (st1 & Hstep & Hloop).
    destruct (negative_step_Ok _ _ _ _ _ _ _ _ _ Hstep Hss)
      as (y & c & ss1 & vv1 & Hc & Hy & Hyc & Hi & Hv & Hl & Hh & Hs & Hfeat).
    assert (heap st1 !! addr = Some ss1) as Hss1.
    { rewrite Hh. apply list_lookup_insert_eq. by eapply lookup_lt_Some. }
    destruct (IH st1 ss1 Hloop Hss1)
      as (ss' & Hi' & Hv' & Hl' & Hh' & Hsl & Hfeat').
    exists ss'. rewrite Hi', Hv', Hl', Hh', Hsl, Hi, Hv, Hl, Hh, Hs.
    rewrite <- !app_assoc, list_insert_insert_eq, length_insert.
    repeat split; try done.
    + destruct (Hfeat H0) as [_ Hvv]. destruct (Hfeat' H0) as [-> _].
      rewrite Hs. by apply list_insert_id.
    + intros _. destruct (Hfeat H0) as [-> _].
      destruct (Hfeat' H0) as [_ Hss'].
      destruct count as [|count'].
      * injection Hloop as <-.
        assert (heap st1 !! addr = Some ss') as Hss'1.
        { rewrite Hh'. apply list_lookup_insert_eq.
          by eapply lookup_lt_Some. }
        exists y, c. repeat split; try done; try lia. congruence.
      * destruct Hss' as (y' & c' & Hc' & Hy' & Hyc' & ->); [done|].
        exists y', c'. repeat split; try done; try lia.
        by rewrite length_insert, list_insert_insert_eq.
Qed.

Lemma sample_step_Ok (fuel : nat) (num_neg : Z) (a : batch_attrs D)
    (ds : batch_data D L) (vstart nv : nat) (bl : list L)
    (st st' : loop_state D L) (k : nat) (sample : list Z) :
  sample_step zero fuel num_neg a ds vstart nv bl st k sample = Ok st' →
  let count := Z.to_nat num_neg in
  ∃ label neg,
    bl !! k = Some label ∧ (k < nv)%nat
    ∧ indices st'
      = indices st ++ inl sample :: replicate count (inr (length (heap st)))
    ∧ values st' = values st ++ replicate (S count) (vstart + k)%nat
    ∧ labels st' = labels st ++ label_block zero count label
    ∧ heap st' = heap st ++ [neg]
    ∧ length (store st') = length (store st)
    ∧ (item_feat a = Some false →
       store st' = store st
       ∧ (1 ≤ num_neg → negative_of ds sample neg)).
Proof.
  intros Hstep count. unfold sample_step in Hstep.
  apply bind_Ok in Hstep as (x & Hx%expect_Ok & Hstep).
  apply bind_Ok in Hstep as ([] & Hk & Hstep).
  case_decide as Hknv; [|done].
  apply bind_Ok in Hstep as (label & Hlabel%expect_Ok & Hstep).
  eapply (negatives_loop_Ok _ _ _ _ _ _ _ _ _ sample) in Hstep
    as (neg & Hi & Hv & Hl & Hh & Hsl & Hfeat);
    [|simpl; by apply list_lookup_middle].
  simpl in *. exists label, neg.
  rewrite Hi, Hv, Hl, Hh, Hsl, <- !app_assoc. simpl.
  repeat split; try done.
  - rewrite (insert_app_r_alt _ _ _ _ (Nat.le_refl _)).
    by rewrite Nat.sub_diag.
  - by destruct (Hfeat H0).
  - intros Hneg. destruct (Hfeat H0) as [_ Hneg'].
    destruct Hneg' as (y & c & Hc & Hy & Hyc & ->); [lia|].
    exists x, y, c. done.
Qed.

Lemma samples_loop_Ok (fuel : nat) (num_neg : Z) (a : batch_attrs D)
    (ds : batch_data D L) (vstart nv : nat) (bl : list L)
    (batch : list (list Z)) (k : nat) (st st' : loop_state D L) :
  samples_loop zero fuel num_neg a ds vstart nv bl k batch st = Ok st' →
  let count := Z.to_nat num_neg in
  ∃ negs,
    length negs = length batch
    ∧ length (take (length batch) (drop k bl)) = length batch
    ∧ (batch ≠ [] → k + length batch ≤ nv)%nat
    ∧ indices st'
      = indices st
          ++ mjoin (zip_with (λ s j, inl s :: replicate count (inr j)) batch
                      (seq (length (heap st)) (length batch)))
    ∧ values st'
      = values st
          ++ mjoin ((λ j, replicate (S count) (vstart + j)%nat)
                      <$> seq k (length batch))
    ∧ labels st'
      = labels st
          ++ mjoin (label_block zero count
                      <$> take (length batch) (drop k bl))
    ∧ heap st' = heap st ++ negs
    ∧ length (store st') = length (store st)
    ∧ (item_feat a = Some false →
       store st' = store st
       ∧ (1 ≤ num_neg → Forall2 (negative_of ds) batch negs)).
Proof.
  intros Hloop count. revert k st Hloop.
  induction batch as [|sample batch IH]; intros k st Hloop.
  - injection Hloop as <-. exists []. rewrite !app_nil_r.
    repeat split; try done.
  - simpl in Hloop. apply bind_Ok in Hloop as (st1 & Hstep & Hloop).
    destruct (sample_step_Ok _ _ _ _ _ _ _ _ _ _ _ Hstep)
      as (label & neg & Hlabel & Hk & Hi & Hv & Hl & Hh & Hsl & Hfeat).
    destruct (IH (S k) st1 Hloop)
      as (negs & Hn & Hlb & Hnv & Hi' & Hv' & Hl' & Hh' & Hsl' & Hfeat').
    exists (neg :: negs).
    rewrite Hi', Hv', Hl', Hh', Hsl', Hi, Hv, Hl, Hh, Hsl.
    rewrite (drop_S _ _ _ Hlabel). csimpl.
    rewrite length_app, <- !app_assoc. simpl. rewrite Nat.add_1_r.
    fold count. repeat split; try done; try lia.
    + intros _. destruct batch; simpl in *; [lia|].
      assert (S k + S (length batch) ≤ nv)%nat by (by apply Hnv). lia.
    + destruct (Hfeat H0) as [Hs _]. destruct (Hfeat' H0) as [-> _]. done.
    + intros Hneg. destruct (Hfeat H0) as [_ Hs].
      destruct (Hfeat' H0) as [_ Hs']. constructor; auto.
Qed.

(** Writes go to the rows of the samples only. *)
Lemma negatives_loop_store (fuel count : nat) (a : batch_attrs D)
    (ds : batch_data D L) (user : Z) (addr row : nat)
    (st st' : loop_state D L) (r : nat) :
  negatives_loop zero fuel count a ds user addr row st = Ok st' →
  is_Some (heap st !! addr) → r ≠ row →
  store st' !! r = store st !! r.
Proof.
  revert st. induction count as [|count IH]; intros st Hloop [ss Hss] Hr.
  - by injection Hloop as <-.
  - simpl in Hloop. apply bind_Ok in Hloop as (st1 & Hstep & Hloop).
    destruct (negative_step_Ok _ _ _ _ _ _ _ _ _ Hstep Hss)
      as (y & c & ss1 & vv1 & _ & _ & _ & _ & _ & _ & Hh & Hs & _).
    rewrite (IH st1 Hloop); [|rewrite Hh|done].
    + rewrite Hs. by apply list_lookup_insert_ne.
    + apply lookup_lt_is_Some. rewrite length_insert.
      by eapply lookup_lt_Some.
Qed.

Lemma samples_loop_store (fuel : nat) (num_neg : Z) (a : batch_attrs D)
    (ds : batch_data D L) (vstart nv : nat) (bl : list L)
    (batch : list (list Z)) (k : nat) (st st' : loop_state D L) (r : nat) :
  samples_loop zero fuel num_neg a ds vstart nv bl k batch st = Ok st' →
  (r < vstart + k ∨ vstart + k + length batch ≤ r)%nat →
  store st' !! r = store st !! r.
Proof.
  revert k st. induction batch as [|sample batch IH]; intros k st Hloop Hr.
  - by injection Hloop as <-.
  - simpl in Hloop. apply bind_Ok in Hloop as (st1 & Hstep & Hloop).
    simpl in Hr. rewrite (IH (S k) st1 Hloop) by lia.
    unfold sample_step in Hstep.
    apply bind_Ok in Hstep as (x & _ & Hstep).
    apply bind_Ok in Hstep as ([] & _ & Hstep).
    apply bind_Ok in Hstep as (label & _ & Hstep).
    apply (negatives_loop_store _ _ _ _ _ _ _ _ _ r) in Hstep; [done| |lia].
    simpl. rewrite list_lookup_middle; by eauto.
Qed.

Lemma samples_loop_users (fuel : nat) (num_neg : Z) (a : batch_attrs D)
    (ds : batch_data D L) (vstart nv : nat) (bl : list L)
    (batch : list (list Z)) (k : nat) (st st' : loop_state D L) :
  samples_loop zero fuel num_neg a ds vstart nv bl k batch st = Ok st' →
  Forall (λ sample, is_Some (getitem sample (-2))) batch.
Proof.
  revert k st. induction batch as [|sample batch IH]; intros k st Hloop.
  - constructor.
  - simpl in Hloop. apply bind_Ok in Hloop as (st1 & Hstep & Hloop).
    constructor; [|by eapply IH]. unfold sample_step in Hstep.
    apply bind_Ok in Hstep as (x & Hx%expect_Ok & _). eauto.
Qed.

(** More fuel does not change a result. *)
Lemma negative_step_mono (fuel fuel' : nat) (a : batch_attrs D)
    (ds : batch_data D L) (user : Z) (addr row : nat)
    (st st' : loop_state D L) :
  negative_step zero fuel a ds user addr row st = Ok st' →
  (fuel ≤ fuel')%nat →
  negative_step zero fuel' a ds user addr row st = Ok st'.
Proof.
  unfold negative_step. intros Hstep Hle.
  destruct (randint 0 (n_items ds) (gen st)) as [[x g1]| |]; try done.
  simpl in *. destruct (train_user ds !! user) as [c|]; try done.
  simpl in *.
  destruct (NegativeSamplingFeat.reject fuel (n_items ds) c x g1)
    as [[y g2]| |] eqn:Hrej; try done.
  by rewrite (SampleSpec.reject_mono _ _ _ _ _ _ _ Hrej Hle).
Qed.

Lemma negatives_loop_mono (fuel fuel' count : nat) (a : batch_attrs D)
    (ds : batch_data D L) (user : Z) (addr row : nat)
    (st st' : loop_state D L) :
  negatives_loop zero fuel count a ds user addr row st = Ok st' →
  (fuel ≤ fuel')%nat →
  negatives_loop zero fuel' count a ds user addr row st = Ok st'.
Proof.
  intros Hloop Hle. revert st Hloop.
  induction count as [|count IH]; intros st Hloop; [done|].
  simpl in *. apply bind_Ok in Hloop as (st1 & Hstep & Hloop).
  rewrite (negative_step_mono _ _ _ _ _ _ _ _ _ Hstep Hle). simpl.
  by apply IH.
Qed.

Lemma samples_loop_mono (fuel fuel' : nat) (num_neg : Z)
    (a : batch_attrs D) (ds : batch_data D L) (vstart nv : nat)
    (bl : list L) (batch : list (list Z)) (k : nat)
    (st st' : loop_state D L) :
  samples_loop zero fuel num_neg a ds vstart nv bl k batch st = Ok st' →
  (fuel ≤ fuel')%nat →
  samples_loop zero fuel' num_neg a ds vstart nv bl k batch st = Ok st'.
Proof.
  intros Hloop Hle. revert k st Hloop.
  induction batch as [|sample batch IH]; intros k st Hloop; [done|].
  simpl in *. apply bind_Ok in Hloop as (st1 & Hstep & Hloop).
  apply bind_Ok. exists st1. split; [|by apply IH].
  unfold sample_step in *.
  apply bind_Ok in Hstep as (x & -> & Hstep). simpl.
  apply bind_Ok in Hstep as ([] & -> & Hstep). simpl.
  apply bind_Ok in Hstep as (label & -> & Hstep). simpl.
  by eapply negatives_loop_mono.
Qed.

Lemma setitem_last_Some {A} (a : list A) (x : A) :
  a ≠ [] → setitem a (-1) x = Some (<[(length a - 1)%nat := x]> a).
Proof.
  intros Ha. unfold setitem. rewrite decide_False by lia.
  destruct a as [|y a]; [done|]. simpl length.
  rewrite decide_True by lia. do 2 f_equal. lia.
Qed.

(** With some item left for the user, the rounds of a sample end. *)
Lemma negatives_loop_returns (count : nat) (a : batch_attrs D)
    (ds : batch_data D L) (user : Z) (addr row : nat) (c : gset Z)
    (st : loop_state D L) (ss : list Z) :
  item_feat a = Some false →
  train_user ds !! user = Some c →
  SamplerNotions.unsaturated (n_items ds) c →
  heap st !! addr = Some ss → ss ≠ [] → is_Some (store st !! row) →
  ∃ fuel st', negatives_loop zero fuel count a ds user addr row st = Ok st'.
Proof.
  intros Hfeat Hc Hunsat. revert st ss.
  induction count as [|count IH]; intros st ss Hss Hne [vv Hvv].
  { exists 0%nat, st. done. }
  destruct (SampleSpec.reject_terminates _ _ Hunsat
              (np_random_randint 0 (n_items ds) (gen st)).1
              (np_random_randint 0 (n_items ds) (gen st)).2)
    as (f1 & [y g2] & Hrej).
  assert (∃ st1, negative_step zero f1 a ds user addr row st = Ok st1)
    as [st1 Hstep].
  { unfold negative_step, randint.
    destruct Hunsat as (y0 & Hy0 & _). rewrite decide_True by lia.
    simpl. destruct (np_random_randint 0 (n_items ds) (gen st)) as [x g1].
    rewrite Hc. simpl in *. rewrite Hrej. simpl. rewrite Hss. simpl.
    rewrite (setitem_last_Some _ _ Hne). simpl. rewrite Hfeat. simpl.
    rewrite Hvv. simpl. by eexists. }
  destruct (negative_step_Ok _ _ _ _ _ _ _ _ _ Hstep Hss)
    as (y' & c' & ss1 & vv1 & _ & _ & _ & _ & _ & _ & Hh & Hs & Hss1).
  destruct (Hss1 Hfeat) as [-> _].
  destruct (IH st1 (<[(length ss - 1)%nat
                      := y' + (user_offset ds + n_users ds)]> ss))
    as (f2 & st' & Hloop).
  { rewrite Hh. apply list_lookup_insert_eq. by eapply lookup_lt_Some. }
  { destruct ss; [done|]. by destruct (length (z :: ss) - 1)%nat. }
  { rewrite Hs. apply lookup_lt_is_Some. rewrite length_insert.
    by eapply lookup_lt_Some. }
  exists (f1 `max` f2)%nat, st'. simpl.
  rewrite (negative_step_mono f1) with (st' := st1); [|done|lia].
  simpl. apply (negatives_loop_mono f2); [done|lia].
Qed.

Lemma samples_loop_returns (num_neg : Z) (a : batch_attrs D)
    (ds : batch_data D L) (vstart nv : nat) (bl : list L)
    (batch : list (list Z)) (k : nat) (st : loop_state D L) :
  item_feat a = Some false →
  Forall (samplable ds num_neg) batch →
  (k + length batch ≤ nv)%nat → (k + length batch ≤ length bl)%nat →
  (vstart + nv ≤ length (store st))%nat →
  ∃ fuel st',
    samples_loop zero fuel num_neg a ds vstart nv bl k batch st = Ok st'.
Proof.
  intros Hfeat Hall. revert k st.
  induction Hall as [|sample batch (x & Hx & Hc) _ IH];
    intros k st Hnv Hbl Hst.
  { exists 0%nat, st. done. }
  simpl in Hnv, Hbl.
  destruct (lookup_lt_is_Some_2 bl k) as [label Hlabel]; [lia|].
  assert (sample ≠ []) as Hne by (by intros ->).
  assert (∃ f1 st1,
            sample_step zero f1 num_neg a ds vstart nv bl st k sample
            = Ok st1) as (f1 & st1 & Hstep).
  { unfold sample_step. rewrite Hx. simpl.
    rewrite decide_True by lia. simpl. rewrite Hlabel. simpl.
    destruct (Z.to_nat num_neg) as [|count] eqn:Hcount.
    { exists 0%nat. by eexists. }
    destruct Hc as (c & Hc & Hunsat); [lia|].
    eapply negatives_loop_returns; try done.
    - simpl. by apply list_lookup_middle.
    - simpl. apply lookup_lt_is_Some. lia. }
  destruct (sample_step_Ok _ _ _ _ _ _ _ _ _ _ _ Hstep)
    as (_ & _ & _ & _ & _ & _ & _ & _ & Hsl & _).
  destruct (IH (S k) st1) as (f2 & st' & Hloop); [lia..|].
  exists (f1 `max` f2)%nat, st'. simpl. apply bind_Ok. exists st1. split.
  - assert (samples_loop zero f1 num_neg a ds vstart nv bl k [sample] st
            = Ok st1) as Hone by (simpl; by rewrite Hstep).
    apply (samples_loop_mono _ (f1 `max` f2)) in Hone; [|lia].
    simpl in Hone. apply bind_Ok in Hone as (st1' & Hst1' & [= ->]). done.
  - apply (samples_loop_mono f2); [done|lia].
Qed.

Lemma take_rows_gathered {A} (a a' : list A) (mask : list nat) :
  take_rows a mask = Ok a' ↔ SamplerNotions.gathered mask a a'.
Proof.
  unfold take_rows, SamplerNotions.gathered.
  by rewrite expect_Ok, mapM_Some.
Qed.

Lemma take_rows_perm {A} (a : list A) (mask : list nat) :
  mask ≡ₚ seq 0 (length a) → ∃ a', take_rows a mask = Ok a'.
Proof.
  intros Hperm. unfold take_rows.
  destruct (mapM (λ i, a !! i) mask) as [a'|] eqn:Hm; [by eexists|].
  apply mapM_None, Exists_exists in Hm as (j & Hj & Hnone).
  rewrite Hperm in Hj. apply elem_of_seq in Hj.
  apply lookup_ge_None in Hnone. lia.
Qed.

Lemma mapM_Forall2 {A B} (f : A → option B) (l : list A) (k : list B) :
  Forall2 (λ x y, f x = Some y) l k → mapM f l = Some k.
Proof. by rewrite mapM_Some. Qed.

(** What a returning call of the sampling branch went through. *)
Lemma next_batch_sampling_Ok (fuel : nat) (self : NegativeSamplingFeat.t D0)
    (a a' : batch_attrs D) (ds ds' : batch_data D L) (g g' : rng)
    (I : list (list Z)) (V : list (list D)) (Lb : list L) :
  pre_sampling a = Some false →
  next_batch zero fuel self a ds g = Outcome (Ok (a', ds', g', (I, V, Lb))) →
  ∃ size k st mask IA VA,
    int_truediv (NegativeSamplingFeat.batch_size self)
      (NegativeSamplingFeat.num_neg self + 1) = Some size
    ∧ i a = Some k
    ∧ samples_loop zero fuel (NegativeSamplingFeat.num_neg self) a ds
        (slice_start (train_feat_values ds) (k * size))
        (length (batch_rows (train_feat_values ds) k size
                   (length (train_feat_indices ds))))
        (batch_rows (train_labels ds) k size
           (length (train_feat_indices ds)))
        0 (batch_rows (train_feat_indices ds) k size
             (length (train_feat_indices ds)))
        {| heap := []; indices := []; values := []; labels := [];
           store := train_feat_values ds; gen := g |} = Ok st
    ∧ np_random_permutation (length (indices st)) (gen st) = (mask, g')
    ∧ mapM (deref (heap st)) (indices st) = Some IA
    ∧ mapM (λ r, store st !! r) (values st) = Some VA
    ∧ SamplerNotions.gathered mask IA I
    ∧ SamplerNotions.gathered mask VA V
    ∧ SamplerNotions.gathered mask (labels st) Lb
    ∧ a' = set_i a (k + 1)
    ∧ ds' = set_train_feat_values ds (store st).
Proof.
  unfold next_batch. intros -> Hrun.
  destruct (int_truediv _ _) as [size|]; [|done].
  injection Hrun as Hrun.
  apply bind_Ok in Hrun as (k & Hk%expect_Ok & Hrun).
  apply bind_Ok in Hrun as (st & Hst & Hrun).
  destruct (np_random_permutation _ _) as [mask g1] eqn:Hmask.
  apply bind_Ok in Hrun as (IA & HIA%expect_Ok & Hrun).
  apply bind_Ok in Hrun as (VA & HVA%expect_Ok & Hrun).
  apply bind_Ok in Hrun as (I1 & HI%take_rows_gathered & Hrun).
  apply bind_Ok in Hrun as (V1 & HV%take_rows_gathered & Hrun).
  apply bind_Ok in Hrun as (L1 & HL%take_rows_gathered & Hrun).
  injection Hrun as <- <- <- <- <- <-.
  exists size, k, st, mask, IA, VA. done.
Qed.

Lemma batch_rows_take {A} (a a' : list A) (k size : Z) (n lb : nat) :
  length a' = length a →
  (lb ≤ length (batch_rows a k size n))%nat →
  take lb (batch_rows a' k size n)
  = take lb (drop (slice_start a (k * size)) a').
Proof.
  unfold batch_rows, slice, slice_start. intros ->.
  rewrite length_take. intros Hlb.
  rewrite take_take. f_equal. lia.
Qed.

Lemma batch_rows_length {A B} (a : list A) (b : list B) (k size : Z)
    (n : nat) :
  length a = length b →
  length (batch_rows a k size n) = length (batch_rows b k size n).
Proof.
  unfold batch_rows, slice, slice_start. intros Hl.
  rewrite !length_take, !length_drop, Hl. done.
Qed.

Lemma set_train_feat_values_id (ds : batch_data D L) :
  set_train_feat_values ds (train_feat_values ds) = ds.
Proof. by destruct ds. Qed.

(** The arrays of a returning call of the sampling branch. *)
Lemma sampling_assembled (fuel : nat) (self : NegativeSamplingFeat.t D0)
    (a a' : batch_attrs D) (ds ds' : batch_data D L) (g g' : rng)
    (I : list (list Z)) (V : list (list D)) (Lb : list L) :
  pre_sampling a = Some false →
  next_batch zero fuel self a ds g = Outcome (Ok (a', ds', g', (I, V, Lb))) →
  ∃ size k negs mask,
    int_truediv (NegativeSamplingFeat.batch_size self)
      (NegativeSamplingFeat.num_neg self + 1) = Some size
    ∧ i a = Some k
    ∧ a' = set_i a (k + 1)
    ∧ ds' = set_train_feat_values ds (train_feat_values ds')
    ∧ length (train_feat_values ds') = length (train_feat_values ds)
    ∧ (let n := length (train_feat_indices ds) in
       let batch := batch_rows (train_feat_indices ds) k size n in
       assembled zero (Z.to_nat (NegativeSamplingFeat.num_neg self))
         batch negs
         (take (length batch) (batch_rows (train_feat_values ds') k size n))
         (take (length batch) (batch_rows (train_labels ds) k size n))
         mask I V Lb
       ∧ Forall (λ sample, is_Some (getitem sample (-2))) batch
       ∧ (∀ r,
            (r < slice_start (train_feat_values ds) (k * size)
             ∨ slice_start (train_feat_values ds) (k * size) + length batch
               ≤ r)%nat →
            train_feat_values ds' !! r = train_feat_values ds !! r)
       ∧ (item_feat a = Some false →
          train_feat_values ds' = train_feat_values ds
          ∧ (1 ≤ NegativeSamplingFeat.num_neg self →
             Forall2 (negative_of ds) batch negs))).
Proof.
  intros Hpre Hrun.
  destruct (next_batch_sampling_Ok _ _ _ _ _ _ _ _ _ _ _ Hpre Hrun)
    as (size & k & st & mask & IA & VA & Hsize & Hk & Hloop & Hmask & HIA
        & HVA & HI & HV & HL & -> & ->).
  pose proof (samples_loop_users _ _ _ _ _ _ _ _ _ _ _ Hloop) as Husers.
  pose proof (λ r, samples_loop_store _ _ _ _ _ _ _ _ _ _ _ r Hloop)
    as Hstore.
  apply samples_loop_Ok in Hloop
    as (negs & Hn & Hlb & Hnv & Hi & Hv & Hl & Hh & Hsl & Hfeat).
  cbn [heap indices values labels store gen app length] in Hi, Hv, Hl, Hh,
    Hsl, Hfeat, Hstore.
  set (count := Z.to_nat (NegativeSamplingFeat.num_neg self)) in *.
  set (n := length (train_feat_indices ds)) in *.
  set (batch := batch_rows (train_feat_indices ds) k size n) in *.
  set (vstart := slice_start (train_feat_values ds) (k * size)) in *.
  assert (length batch ≤ length (batch_rows (train_feat_values ds) k size n))%nat
    as Hbnv.
  { destruct (decide (batch = [])) as [->|Hne]; [simpl; lia|].
    specialize (Hnv Hne). simpl in Hnv. done. }
  assert (vstart + length batch ≤ length (store st))%nat as Hrows.
  { rewrite Hsl.
    pose proof (slice_length (train_feat_values ds) (k * size)
                  (Z.min (Z.of_nat n) ((k + 1) * size))) as Hs.
    unfold batch_rows in Hbnv. fold vstart in Hs. lia. }
  assert (IA = mjoin (zip_with (index_block count) batch negs)) as ->.
  { pose proof (index_blocks_deref count batch [] negs Hn) as Hd.
    apply mapM_Forall2 in Hd. simpl in Hd.
    rewrite Hh, Hi in HIA. congruence. }
  assert (VA = mjoin (value_block count
                        <$> take (length batch) (drop vstart (store st))))
    as ->.
  { pose proof (value_blocks_deref count vstart (store st) (length batch) 0)
      as Hd.
    rewrite Nat.add_0_r in Hd. apply mapM_Forall2 in Hd; [|lia].
    rewrite Hv in HVA. congruence. }
  rewrite Hl in HL. simpl in HL. rewrite drop_0 in HL, Hlb.
  exists size, k, negs, mask. repeat split; try done.
  - rewrite length_take. simpl.
    rewrite (batch_rows_length (store st) (train_feat_values ds)) by done.
    fold batch. lia.
  - pose proof (permutation_perm (length (indices st)) (gen st)) as Hp.
    rewrite Hmask in Hp. simpl in Hp. rewrite Hi in Hp. simpl in Hp.
    rewrite Hp. f_equal.
    pose proof (index_blocks_deref count batch [] negs Hn) as Hd.
    apply Forall2_length in Hd. simpl in Hd. rewrite Hd.
    by rewrite index_blocks_length.
  - simpl. rewrite (batch_rows_take (train_feat_values ds)); done.
  - intros r Hr. simpl. apply Hstore. rewrite !Nat.add_0_r. exact Hr.
  - by destruct (Hfeat H0).
  - by destruct (Hfeat H0).
Qed.

(** A call of the sampling branch returns once its loop has. *)
Lemma next_batch_sampling_returns (fuel : nat)
    (self : NegativeSamplingFeat.t D0) (a : batch_attrs D)
    (ds : batch_data D L) (g : rng) (size k : Z) (st : loop_state D L) :
  pre_sampling a = Some false →
  int_truediv (NegativeSamplingFeat.batch_size self)
    (NegativeSamplingFeat.num_neg self + 1) = Some size →
  i a = Some k →
  samples_loop zero fuel (NegativeSamplingFeat.num_neg self) a ds
    (slice_start (train_feat_values ds) (k * size))
    (length (batch_rows (train_feat_values ds) k size
               (length (train_feat_indices ds))))
    (batch_rows (train_labels ds) k size (length (train_feat_indices ds)))
    0 (batch_rows (train_feat_indices ds) k size
         (length (train_feat_indices ds)))
    {| heap := []; indices := []; values := []; labels := [];
       store := train_feat_values ds; gen := g |} = Ok st →
  ∃ r, next_batch zero fuel self a ds g = Outcome (Ok r).
Proof.
  intros Hpre Hsize Hk Hloop. unfold next_batch.
  rewrite Hpre, Hsize, Hk. simpl. unfold batch_rows in Hloop.
  rewrite Hloop. simpl.
  pose proof (permutation_perm (length (indices st)) (gen st)) as Hp.
  destruct (np_random_permutation _ _) as [mask g1]. simpl in Hp.
  pose proof Hloop as Hloop'.
  apply samples_loop_Ok in Hloop'
    as (negs & Hn & Hlb & Hnv & Hi & Hv & Hl & Hh & Hsl & _).
  cbn [heap indices values labels store gen app length] in Hi, Hv, Hl, Hh,
    Hsl.
  subst negs.
  set (count := Z.to_nat (NegativeSamplingFeat.num_neg self)) in *.
  set (batch := slice (train_feat_indices ds) (k * size) _) in *.
  set (vstart := slice_start (train_feat_values ds) (k * size)) in *.
  assert (vstart + length batch ≤ length (store st))%nat as Hrows.
  { rewrite Hsl.
    pose proof (slice_length (train_feat_values ds) (k * size)
                  (Z.min (Z.of_nat (length (train_feat_indices ds)))
                     ((k + 1) * size))) as Hs.
    fold vstart in Hs.
    destruct (decide (batch = [])) as [->|Hne]; [simpl; lia|].
    specialize (Hnv Hne). simpl in Hnv. lia. }
  pose proof (index_blocks_deref count batch [] (heap st) Hn) as HdI.
  pose proof (Forall2_length _ _ _ HdI) as HlI.
  apply mapM_Forall2 in HdI. simpl in HdI, HlI.
  rewrite <- Hi in HdI. rewrite HdI. simpl.
  pose proof (value_blocks_deref count vstart (store st) (length batch) 0)
    as HdV.
  rewrite Nat.add_0_r in HdV. specialize (HdV Hrows).
  pose proof (Forall2_length _ _ _ HdV) as HlV.
  apply mapM_Forall2 in HdV.
  rewrite <- Hv in HdV. rewrite HdV. simpl.
  rewrite index_blocks_length in HlI by done.
  assert (length (indices st) = (length batch * S count)%nat) as Hlen
    by (by rewrite Hi).
  rewrite Hlen in Hp.
  destruct (take_rows_perm
              (mjoin (zip_with (index_block count) batch (heap st))) mask)
    as [I ->].
  { by rewrite index_blocks_length. }
  simpl.
  destruct (take_rows_perm
              (mjoin (value_block count
                        <$> take (length batch) (drop vstart (store st))))
              mask) as [V ->].
  { rewrite <- HlV, (blocks_length _ (S count)), length_seq;
      [done|intros; by rewrite length_replicate]. }
  simpl.
  destruct (take_rows_perm (labels st) mask) as [Lb ->].
  { rewrite Hl, (blocks_length _ (S count)), Hlb;
      [done|intros; simpl; by rewrite length_replicate]. }
  simpl. by eexists.
Qed.

End facts.
End BatchFacts.

Module BatchSpec.
Import Np NpFacts NextBatch BatchNotions BatchFacts.
Import NegativeSamplingFeat SamplerNotions.

Section spec.
Context `{NumpyRandom} {D L D0 : Type}.
Variable zero : L.

(** X17: with pre-sampled data, a positive batch size and the three
    arrays of one length, [m] calls in a row from [i = 0] all return;
    call [k] returns rows [k * batch_size] to [(k + 1) * batch_size] of
    each array, cut off at its end (nothing once the array is used up),
    so the batches joined are the first [m * batch_size] rows, in order;
    the counter is [m] afterwards. *)
Theorem presampled_batches (m fuel : nat) (self : t D0) (a : batch_attrs D)
    (ds : batch_data D L) (g : rng) :
  let size := batch_size self in
  pre_sampling a = Some true → i a = Some 0 → 0 < size →
  length (train_values_implicit ds) = length (train_indices_implicit ds) →
  length (train_labels_implicit ds) = length (train_indices_implicit ds) →
  ∃ a' outs,
    successive zero m fuel self a ds g = Some (a', outs)
    ∧ i a' = Some (Z.of_nat m)
    ∧ outs = (λ k, (chunk size k (train_indices_implicit ds),
                    chunk size k (train_values_implicit ds),
                    chunk size k (train_labels_implicit ds))) <$> seq 0 m
    ∧ mjoin (outs.*1.*1)
      = take (m * Z.to_nat size) (train_indices_implicit ds)
    ∧ mjoin (outs.*1.*2)
      = take (m * Z.to_nat size) (train_values_implicit ds)
    ∧ mjoin (outs.*2)
      = take (m * Z.to_nat size) (train_labels_implicit ds).
Proof.
  intros size Hpre Hi Hsize HlV HlL.
  assert (∀ k0 a,
            pre_sampling a = Some true → i a = Some (Z.of_nat k0) →
            ∃ a',
              successive zero m fuel self a ds g
              = Some (a', (λ k, (chunk size k (train_indices_implicit ds),
                                 chunk size k (train_values_implicit ds),
                                 chunk size k (train_labels_implicit ds)))
                            <$> seq k0 m)
              ∧ i a' = Some (Z.of_nat (k0 + m))) as Hgen.
  { clear a Hpre Hi. induction m as [|m IH]; intros k0 a Hpre Hi.
    - exists a. rewrite Nat.add_0_r. done.
    - simpl. unfold next_batch. rewrite Hpre, Hi. simpl.
      destruct (IH (S k0) (set_i a (Z.of_nat k0 + 1))) as (a' & -> & Hi').
      { done. }
      { simpl. f_equal. lia. }
      exists a'. simpl. split; [|rewrite Hi'; f_equal; lia].
      fold size.
      by rewrite !(slice_chunk _ _ _ (length (train_indices_implicit ds)))
        by done. }
  destruct (Hgen 0%nat a Hpre Hi) as (a' & Hrun & Hi').
  exists a'. eexists. split; [exact Hrun|]. split; [done|].
  split; [done|]. rewrite <- !list_fmap_compose.
  repeat split; apply chunks_join.
Qed.

(** X18: a returning call of the sampling branch advances the counter by
    one and returns three arrays with [num_neg + 1] rows for every
    sample of its batch, rearranged by one permutation: in the index
    array the row of the sample and [num_neg] times one and the same
    other row; in the value array [num_neg + 1] times the row of the
    sample as the dataset holds it after the call; in the label array
    the label of the sample and [num_neg] times [0.0]. *)
Theorem sampling_batch_assembled (fuel : nat) (self : t D0)
    (a a' : batch_attrs D) (ds ds' : batch_data D L) (g g' : rng)
    (I : list (list Z)) (V : list (list D)) (Lb : list L) :
  pre_sampling a = Some false →
  next_batch zero fuel self a ds g = Outcome (Ok (a', ds', g', (I, V, Lb))) →
  ∃ size k negs mask,
    int_truediv (batch_size self) (num_neg self + 1) = Some size
    ∧ i a = Some k
    ∧ i a' = Some (k + 1)
    ∧ let n := length (train_feat_indices ds) in
      let batch := batch_rows (train_feat_indices ds) k size n in
      assembled zero (Z.to_nat (num_neg self)) batch negs
        (take (length batch) (batch_rows (train_feat_values ds') k size n))
        (take (length batch) (batch_rows (train_labels ds) k size n))
        mask I V Lb.
Proof.
  intros Hpre Hrun.
  destruct (sampling_assembled _ _ _ _ _ _ _ _ _ _ _ _ Hpre Hrun)
    as (size & k & negs & mask & Hsize & Hk & -> & _ & _ & Hasm & _).
  exists size, k, negs, mask. done.
Qed.

(** X19: without item features ([item_feat] false) a returning call of
    the sampling branch leaves the dataset as it was, and with
    [num_neg >= 1] the row that stands [num_neg] times beside a sample
    is the sample with its last entry replaced: by the item index,
    offset by [user_offset + n_users], of one item of [[0, n_items)]
    that the user of the sample did not consume. *)
Theorem sampling_without_item_features (fuel : nat) (self : t D0)
    (a a' : batch_attrs D) (ds ds' : batch_data D L) (g g' : rng)
    (I : list (list Z)) (V : list (list D)) (Lb : list L) :
  pre_sampling a = Some false → item_feat a = Some false →
  next_batch zero fuel self a ds g = Outcome (Ok (a', ds', g', (I, V, Lb))) →
  ds' = ds
  ∧ ∃ size k negs mask,
      int_truediv (batch_size self) (num_neg self + 1) = Some size
      ∧ i a = Some k
      ∧ let n := length (train_feat_indices ds) in
        let batch := batch_rows (train_feat_indices ds) k size n in
        assembled zero (Z.to_nat (num_neg self)) batch negs
          (take (length batch) (batch_rows (train_feat_values ds) k size n))
          (take (length batch) (batch_rows (train_labels ds) k size n))
          mask I V Lb
        ∧ (1 ≤ num_neg self → Forall2 (negative_of ds) batch negs).
Proof.
  intros Hpre Hfeat Hrun.
  destruct (sampling_assembled _ _ _ _ _ _ _ _ _ _ _ _ Hpre Hrun)
    as (size & k & negs & mask & Hsize & Hk & _ & Hds & _ & Hasm & _ & _
        & Hnof).
  destruct (Hnof Hfeat) as [Hsame Hnegs].
  assert (ds' = ds) as ->.
  { rewrite Hds, Hsame. apply set_train_feat_values_id. }
  split; [done|]. exists size, k, negs, mask. done.
Qed.

(** X20: a returning call of the sampling branch changes nothing of the
    dataset but [train_feat_values], and of that array neither the
    number of rows nor any row outside the batch. *)
Theorem sampling_writes_within_batch (fuel : nat) (self : t D0)
    (a a' : batch_attrs D) (ds ds' : batch_data D L) (g g' : rng)
    (out : list (list Z) * list (list D) * list L) :
  pre_sampling a = Some false →
  next_batch zero fuel self a ds g = Outcome (Ok (a', ds', g', out)) →
  ∃ size k,
    int_truediv (batch_size self) (num_neg self + 1) = Some size
    ∧ i a = Some k
    ∧ ds' = set_train_feat_values ds (train_feat_values ds')
    ∧ length (train_feat_values ds') = length (train_feat_values ds)
    ∧ ∀ r,
        let start := slice_start (train_feat_values ds) (k * size) in
        let batch := batch_rows (train_feat_indices ds) k size
                       (length (train_feat_indices ds)) in
        (r < start ∨ start + length batch ≤ r)%nat →
        train_feat_values ds' !! r = train_feat_values ds !! r.
Proof.
  intros Hpre Hrun. destruct out as [[I V] Lb].
  destruct (sampling_assembled _ _ _ _ _ _ _ _ _ _ _ _ Hpre Hrun)
    as (size & k & negs & mask & Hsize & Hk & _ & Hds & Hlen & _ & _
        & Hrows & _).
  exists size, k. done.
Qed.

(** X21: without item features and with the three arrays of one length,
    a call of the sampling branch returns (for some amount of fuel)
    exactly when every row of its batch has a user entry and, if
    negatives are drawn, that user has a consumed set that leaves out
    some item of [[0, n_items)]. *)
Theorem sampling_returns_iff (self : t D0) (a : batch_attrs D)
    (ds : batch_data D L) (g : rng) (size k : Z) :
  pre_sampling a = Some false → item_feat a = Some false →
  i a = Some k →
  int_truediv (batch_size self) (num_neg self + 1) = Some size →
  length (train_feat_values ds) = length (train_feat_indices ds) →
  length (train_labels ds) = length (train_feat_indices ds) →
  (∃ fuel r, next_batch zero fuel self a ds g = Outcome (Ok r))
  ↔ Forall (samplable ds (num_neg self))
      (batch_rows (train_feat_indices ds) k size
         (length (train_feat_indices ds))).
Proof.
  intros Hpre Hfeat Hk Hsize HlV HlL. split.
  - intros (fuel & [[[a' ds'] g'] [[I V] Lb]] & Hrun).
    destruct (sampling_assembled _ _ _ _ _ _ _ _ _ _ _ _ Hpre Hrun)
      as (size' & k' & negs & mask & Hsize' & Hk' & _ & _ & _ & _ & Husers
          & _ & Hnof).
    assert (size' = size) as -> by congruence.
    assert (k' = k) as -> by congruence.
    destruct (Hnof Hfeat) as [_ Hnegs].
    destruct (decide (1 ≤ num_neg self)) as [Hneg|Hneg].
    + eapply Forall2_Forall_l; [exact (Hnegs Hneg)|].
      apply Forall_true.
      intros neg sample (x & y & c & Hx & Hc & Hy & Hyc & _).
      exists x. split; [done|]. intros _. exists c. split; [done|].
      by exists y.
    + eapply Forall_impl; [exact Husers|]. intros sample [x Hx].
      exists x. split; [done|]. intros ?. lia.
  - intros Hall.
    destruct (samples_loop_returns zero (num_neg self) a ds
                (slice_start (train_feat_values ds) (k * size))
                (length (batch_rows (train_feat_values ds) k size
                           (length (train_feat_indices ds))))
                (batch_rows (train_labels ds) k size
                   (length (train_feat_indices ds)))
                (batch_rows (train_feat_indices ds) k size
                   (length (train_feat_indices ds)))
                0
                {| heap := []; indices := []; values := []; labels := [];
                   store := train_feat_values ds; gen := g |}
                Hfeat Hall) as (fuel & st & Hloop).
    + simpl. by rewrite (batch_rows_length (train_feat_values ds)
                           (train_feat_indices ds)).
    + simpl. by rewrite (batch_rows_length (train_labels ds)
                           (train_feat_indices ds)).
    + simpl. apply slice_length.
    + exists fuel. by eapply next_batch_sampling_returns.
Qed.


End spec.
End BatchSpec.

(** * Worked examples *)

Module Examples.
Import Np NpFacts FeatureBuilder FeatureBuilderNotions FeatureBuilderFacts
  TransformFacts FitSpec TransformSpec.

(** Floats read as integers: the casts are the identity. *)
Definition fitZ := fit (λ x : Z, x) 1.
Definition transformZ := transform (λ x : Z, x) 1.

Definition returned_feature_size
    (r : run (t * (list (list Z) * list (list Z) * Z))) : option Z :=
  match r with
  | Ok (_, (_, _, fs)) => Some fs
  | _ => None
  end.

(** Three numerical columns, two categorical columns with two and three
    distinct values, three rows. *)
Definition nums3 : list (string * list Z) :=
  [("height", [170; 180; 165]); ("weight", [60; 80; 55]);
   ("age", [30; 40; 50])].
Definition cats2 : list (string * list Z) :=
  [("sex", [1; 0; 1]); ("city", [7; 3; 5])].

(** The vocabularies [fit] builds for [cats2] after three numerical
    columns. *)
Definition dict_ex : gmap string (gmap Z Z) :=
  {[ "sex" := {[ 0 := 3; 1 := 4 ]};
     "city" := {[ 3 := 5; 5 := 6; 7 := 7 ]} ]}.

Definition plain : t := __init__ false false None None.
Definition st_plain : fitted :=
  {| total_count := 8; val_index_dict := dict_ex; feature_size := 8 |}.
Definition plain_fitted : t := set_state plain st_plain.

Definition with_ids : t := __init__ false true (Some 2) (Some 3).
Definition st_ids : fitted :=
  {| total_count := 8; val_index_dict := dict_ex; feature_size := 13 |}.
Definition with_ids_fitted : t := set_state with_ids st_ids.

Lemma fit_plain :
  fitZ plain cats2 nums3 3 None None
  = Ok (plain_fitted,
        ([[0; 1; 2; 4; 7]; [0; 1; 2; 3; 5]; [0; 1; 2; 4; 6]],
         [[170; 60; 30; 1; 1]; [180; 80; 40; 1; 1]; [165; 55; 50; 1; 1]],
         8)).
Proof. vm_compute. reflexivity. Qed.

Definition tcats_ex : list (string * list Z) :=
  [("sex", [0; 2]); ("town", [7; 3])].
Definition tnums_ex : list (string * list Z) :=
  [("height", [1; 2]); ("weight", [1; 2]); ("age", [1; 2])].
Definition with_ids_touched : t :=
  set_state with_ids
    {| total_count := 8;
       val_index_dict := <[ "town" := ∅ ]> dict_ex;
       feature_size := 13 |}.
Definition fi_ex : list (list Z) :=
  [[0; 1; 2; 4; 7; 8; 12]; [0; 1; 2; 3; 5; 9; 10]; [0; 1; 2; 4; 6; 9; 11]].
Definition fv_ex : list (list Z) :=
  [[170; 60; 30; 1; 1; 1; 1]; [180; 80; 40; 1; 1; 1; 1];
   [165; 55; 50; 1; 1; 1; 1]].
Definition I_ex : list (list Z) :=
  [[0; 1; 2; 3; 13; 9; 10]; [0; 1; 2; 13; 13; 8; 12]].
Definition V_ex : list (list Z) :=
  [[1; 1; 1; 1; 1; 1; 1]; [2; 2; 2; 1; 1; 1; 1]].

Lemma fit_with_ids :
  fitZ with_ids cats2 nums3 3 (Some [0; 1; 1]) (Some [2; 0; 1])
  = Ok (with_ids_fitted, (fi_ex, fv_ex, 13)).
Proof. vm_compute. reflexivity. Qed.

Lemma transform_with_ids :
  transformZ with_ids_fitted tcats_ex tnums_ex 2 (Some [1; 0]) (Some [0; 2])
  = Ok (with_ids_touched, (I_ex, V_ex)).
Proof. vm_compute. reflexivity. Qed.

(** *** C5 *)

(** The scenario of C5 (three numerical columns, categorical columns with
    two and three distinct values, no identity blocks): [fit] returns the
    [feature_size] 8, not 5. *)
Lemma fit_scenario_feature_size :
  length nums3 = 3%nat
  ∧ distinct <$> cats2.*2 = [2; 3]%nat
  ∧ include_user_item plain = false
  ∧ returned_feature_size (fitZ plain cats2 nums3 3 None None) = Some 8
  ∧ returned_feature_size (fitZ plain cats2 nums3 3 None None) ≠ Some 5.
Proof. repeat split; try (vm_compute; reflexivity). vm_compute. discriminate. Qed.

(** *** C8 *)

Lemma fit_deterministic_witness :
  fitZ plain cats2 nums3 3 None None
  = fitZ plain_fitted cats2 nums3 3 None None
  ∧ (∃ r, fitZ plain cats2 nums3 3 None None = Ok r)
  ∧ ∃ st,
      state plain_fitted = Some st
      ∧ feature_size st = 8
      ∧ ∀ j kv,
          cats2 !! j = Some kv →
          let off := block_offset (Z.of_nat (length nums3)) cats2 j in
          ∃ m, val_index_dict st !! kv.1 = Some m
               ∧ (∀ x, x ∈ kv.2 ↔ is_Some (m !! x))
               ∧ (∀ x y ix iy,
                    m !! x = Some ix → m !! y = Some iy → x < y → ix < iy)
               ∧ (∀ idx, (∃ x, m !! x = Some idx)
                         ↔ off ≤ idx < off + Z.of_nat (distinct kv.2)).
Proof.
  destruct (fit_deterministic (λ x : Z, x) 1 plain plain_fitted cats2 nums3 3
              None None) as (Heq & Hret & Hvoc).
  - repeat split; reflexivity.
  - compute_done.
  - split; [exact Heq|]. split.
    + apply Hret. repeat split; try done; repeat constructor.
    + exact (Hvoc _ _ fit_plain).
Defined.

(** *** C3 *)

(** [fit] saw one numerical column and [feature_size] is 2; [transform]
    is given four and writes the index 3.  And with [2^31] known users the
    index of the one known item, [2^31], is stored as [-2^31]. *)
Lemma transform_index_out_of_range :
  (fitZ plain [("sex", [1])] [("height", [170])] 1 None None
   = Ok (set_state plain
           {| total_count := 2;
              val_index_dict := {[ "sex" := {[ 1 := 1 ]} ]};
              feature_size := 2 |},
         ([[0; 1]], [[170; 1]], 2))
   ∧ transformZ
       (set_state plain
          {| total_count := 2;
             val_index_dict := {[ "sex" := {[ 1 := 1 ]} ]};
             feature_size := 2 |})
       [("sex", [1])]
       [("height", [1]); ("weight", [2]); ("age", [3]); ("income", [4])]
       1 None None
     = Ok (set_state plain
             {| total_count := 2;
                val_index_dict := {[ "sex" := {[ 1 := 1 ]} ]};
                feature_size := 2 |},
           ([[0; 1; 2; 3; 1]], [[1; 2; 3; 4; 1]]))
   ∧ ¬ (0 ≤ 3 < 2 ∨ 3 = 2))
  ∧ (let many := __init__ false true (Some (2 ^ 31)) (Some 1) in
     let st := {| total_count := 0; val_index_dict := ∅;
                  feature_size := 2 ^ 31 + 1 |} in
     fitZ many [] [] 1 (Some [0]) (Some [0])
     = Ok (set_state many st, ([[0; - 2 ^ 31]], [[1; 1]], 2 ^ 31 + 1))
     ∧ transformZ (set_state many st) [] [] 1 (Some [0]) (Some [0])
       = Ok (set_state many st, ([[0; - 2 ^ 31]], [[1; 1]]))
     ∧ ¬ (0 ≤ - 2 ^ 31 < 2 ^ 31 + 1 ∨ - 2 ^ 31 = 2 ^ 31 + 1)).
Proof.
  split; [|cbv zeta]; (split; [vm_compute; reflexivity|]);
    (split; [vm_compute; reflexivity|lia]).
Qed.

Lemma transform_index_range_witness :
  (∀ st j kv r v,
     state with_ids_fitted = Some st → tcats_ex !! j = Some kv →
     kv.2 !! r = Some v → vocab_index st kv.1 v = None →
     cell I_ex r (length tnums_ex + j) = Some 13)
  ∧ ((length tnums_ex ≤ length nums3)%nat →
     identity_in_range with_ids_fitted (Some [1; 0]) (Some [0; 2]) →
     ∀ row x, row ∈ I_ex → x ∈ row → 0 ≤ x < 13 ∨ x = 13).
Proof.
  apply (transform_index_range (λ x : Z, x) 1 with_ids with_ids_fitted
           with_ids_touched cats2 nums3 tnums_ex 3 2
           (Some [0; 1; 1]) (Some [2; 0; 1]) (Some [1; 0]) (Some [0; 2])
           tcats_ex fi_ex I_ex fv_ex V_ex 13).
  - exact fit_with_ids.
  - exact transform_with_ids.
  - vm_compute. split; discriminate.
Defined.

(** The side conditions of the second part hold in the example. *)
Example transform_index_range_side_conditions :
  (length tnums_ex ≤ length nums3)%nat
  ∧ identity_in_range with_ids_fitted (Some [1; 0]) (Some [0; 2]).
Proof.
  split; [simpl; lia|].
  intros nu ni u i [= <-] [= <-] [= <-] [= <-].
  split; repeat constructor; lia.
Qed.

(** *** C4 *)

Lemma transform_round_trip_witness :
  ∃ st idx,
    state with_ids_fitted = Some st
    ∧ vocab_index st "sex" 0 = Some idx
    ∧ idx = block_offset (Z.of_nat (length nums3)) cats2 0
            + Z.of_nat (position 0 (unique [1; 0; 1]))
    ∧ 0 ≤ idx < total_count st
    ∧ cell fi_ex 1 (length nums3 + 0) = Some (astype_int32 idx)
    ∧ cell I_ex 0 (length tnums_ex + 0) = cell fi_ex 1 (length nums3 + 0)
    ∧ (idx ≤ int32_max → cell I_ex 0 (length tnums_ex + 0) = Some idx).
Proof.
  apply (transform_round_trip (λ x : Z, x) 1 with_ids with_ids_fitted
           with_ids_touched cats2 nums3 tnums_ex 3 2
           (Some [0; 1; 1]) (Some [2; 0; 1]) (Some [1; 0]) (Some [0; 2])
           tcats_ex fi_ex I_ex fv_ex V_ex 13 0 0 1 0 "sex" [1; 0; 1] [0; 2] 0).
  - compute_done.
  - exact fit_with_ids.
  - reflexivity.
  - reflexivity.
  - exact transform_with_ids.
  - reflexivity.
  - reflexivity.
Defined.

(** *** C9 *)



(** *** C10 *)

(** A [transform] with a column name that [fit] did not see: the builder
    has one vocabulary more after the call. *)
Lemma transform_inserts_vocabulary :
  transformZ with_ids_fitted tcats_ex tnums_ex 2 (Some [1; 0]) (Some [0; 2])
  = Ok (with_ids_touched, (I_ex, V_ex))
  ∧ (val_index_dict <$> state with_ids_fitted) ≫= (λ d, d !! "town") = None
  ∧ (val_index_dict <$> state with_ids_touched) ≫= (λ d, d !! "town")
    = Some ∅
  ∧ state with_ids_touched ≠ state with_ids_fitted.
Proof.
  split; [exact transform_with_ids|]. split; [vm_compute; reflexivity|].
  split; [vm_compute; reflexivity|].
  intros Heq.
  apply (f_equal (λ s, (val_index_dict <$> s) ≫= (λ d, d !! "town"))) in Heq.
  vm_compute in Heq. discriminate.
Qed.

Lemma transform_frame_witness :
  same_config with_ids_fitted with_ids_touched
  ∧ (∃ st', state with_ids_touched = Some st'
            ∧ total_count st' = total_count st_ids
            ∧ feature_size st' = feature_size st_ids
            ∧ (∀ k m, val_index_dict st_ids !! k = Some m →
                      val_index_dict st' !! k = Some m)
            ∧ (∀ k m, val_index_dict st' !! k = Some m →
                      val_index_dict st_ids !! k = Some m
                      ∨ (m = ∅ ∧ k ∈ tcats_ex.*1
                         ∧ val_index_dict st_ids !! k = None)))
  ∧ (Forall (λ kv, is_Some (val_index_dict st_ids !! kv.1)) tcats_ex →
     with_ids_touched = with_ids_fitted)
  ∧ transformZ with_ids_touched tcats_ex tnums_ex 2 (Some [1; 0])
      (Some [0; 2])
    = Ok (with_ids_touched, (I_ex, V_ex)).
Proof.
  apply (transform_frame (λ x : Z, x) 1 with_ids_fitted with_ids_touched
           st_ids tcats_ex tnums_ex 2 (Some [1; 0]) (Some [0; 2])
           (I_ex, V_ex)).
  - reflexivity.
  - exact transform_with_ids.
Defined.

End Examples.

Module SamplerExamples.
Import Np NpFacts NegativeSamplingFeat SamplerNotions LabelSpec SampleSpec
  ReindexSpec CallSpec CallNotions.

(** A generator for the examples: the state is a counter, a permutation
    is the reversal, and [randint] walks through its range. *)
Definition counter_randint (low high g : Z) : Z * Z :=
  (low + g `mod` (high - low), g + 1).

Lemma counter_permutation_perm (n : nat) (g : Z) :
  (reverse (seq 0 n), g + 1).1 ≡ₚ seq 0 n.
Proof. simpl. apply reverse_Permutation. Qed.

Lemma counter_randint_range (low high g : Z) :
  low < high → low ≤ (counter_randint low high g).1 < high.
Proof.
  intros Hlt. unfold counter_randint. simpl.
  pose proof (Z.mod_pos_bound g (high - low)). lia.
Qed.

Lemma counter_iter (n : nat) (low high g : Z) :
  Nat.iter n (λ g', (counter_randint low high g').2) g = g + Z.of_nat n.
Proof.
  induction n as [|n IH]; [simpl; lia|].
  rewrite Nat.iter_succ, IH. unfold counter_randint. simpl. lia.
Qed.

Lemma counter_randint_recurrent (low high g x : Z) :
  low ≤ x < high →
  ∃ n, (counter_randint low high
          (Nat.iter n (λ g', (counter_randint low high g').2) g)).1 = x.
Proof.
  intros Hx. exists (Z.to_nat ((x - low - g) `mod` (high - low))).
  rewrite counter_iter. unfold counter_randint. simpl.
  pose proof (Z.mod_pos_bound (x - low - g) (high - low) ltac:(lia)).
  rewrite Z2Nat.id by lia. rewrite Zplus_mod_idemp_r.
  replace (g + (x - low - g)) with (x - low) by lia.
  rewrite Z.mod_small by lia. lia.
Qed.

Definition counter : NumpyRandom :=
  {| rng := Z;
     np_random_seed := λ seed, seed;
     np_random_permutation := λ n g, (reverse (seq 0 n), g + 1);
     np_random_randint := counter_randint;
     permutation_perm := counter_permutation_perm;
     randint_range := counter_randint_range;
     randint_recurrent := counter_randint_recurrent |}.

(** Two interactions, [(user 0, item 2)] and [(user 1, item 0)], of three
    items.  Sparse columns 0 and 2 are user-side and column 1 is
    item-side; dense column 1 is user-side and column 0 is item-side. *)
Definition ds : dataset Z :=
  {| len := 2;
     user_indices := [0; 1];
     item_indices := [2; 0];
     train_user_consumed := {[ 0 := {[ 2 ]}; 1 := {[ 0; 1 ]} ]};
     sparse_indices := [[10; 52; 30]; [11; 50; 31]];
     dense_values := [[7; 100]; [5; 200]] |}.

Definition info : data_info Z :=
  {| n_items := 3;
     user_sparse_col := [0; 2]%nat;
     item_sparse_col := [1%nat];
     item_sparse_unique := [[50]; [51]; [52]];
     user_dense_col := [1%nat];
     item_dense_col := [0%nat];
     item_dense_unique := [[5]; [6]; [7]] |}.

Definition sampler : t Z := __init__ ds info 2 64.

Definition callZ := @__call__ counter Z Z 0 1.

Example sample_items_run :
  @sample_items counter Z 10 sampler 1 = Ok ([2; 1; 0; 0; 2; 2], 9).
Proof. vm_compute. reflexivity. Qed.

Example call_unshuffled :
  callZ 10 sampler 0 true false
  = Ok ([[10; 52; 30]; [10; 51; 30]; [10; 50; 30];
         [11; 50; 31]; [11; 52; 31]; [11; 52; 31]],
        Some [[7; 100]; [6; 100]; [5; 100]; [5; 200]; [7; 200]; [7; 200]],
        [1; 0; 0; 1; 0; 0]).
Proof. vm_compute. reflexivity. Qed.

Example call_shuffled :
  callZ 10 sampler 0 true true
  = Ok ([[11; 52; 31]; [11; 52; 31]; [11; 50; 31];
         [10; 50; 30]; [10; 51; 30]; [10; 52; 30]],
        Some [[7; 200]; [7; 200]; [5; 200]; [5; 100]; [6; 100]; [7; 100]],
        [0; 0; 1; 0; 0; 1]).
Proof. vm_compute. reflexivity. Qed.

(** *** C6 *)

Lemma label_negative_sampling_spec_witness :
  (∃ labels,
     @_label_negative_sampling Z Z 0 1 sampler = Ok labels
     ∧ Z.of_nat (length labels) = Z.of_nat (len ds) * (2 + 1)
     ∧ ∀ k, (k < length labels)%nat →
            labels !! k
            = Some (if decide (Z.of_nat k `mod` (2 + 1) = 0) then 1 else 0))
  ∧ (len ds = 4%nat → 2 = 2 →
     @_label_negative_sampling Z Z 0 1 sampler
     = Ok [1; 0; 0; 1; 0; 0; 1; 0; 0; 1; 0; 0])
  ∧ (∀ fuel seed dense S Dv L,
       callZ fuel sampler seed dense false = Ok (S, Dv, L) →
       @_label_negative_sampling Z Z 0 1 sampler = Ok L).
Proof.
  apply (@label_negative_sampling_spec counter Z Z 0 1 sampler).
  simpl. lia.
Defined.

(** *** C2 *)

Lemma sample_items_spec_witness :
  (∃ fuel sampled g',
     @sample_items counter Z fuel sampler 1 = Ok (sampled, g'))
  ∧ ∀ fuel sampled g',
      @sample_items counter Z fuel sampler 1 = Ok (sampled, g') →
      Z.of_nat (length sampled) = Z.of_nat (len ds) * (2 + 1)
      ∧ (∀ out, _sparse_negative_sampling sampler sampled = Ok out →
                length out = length sampled)
      ∧ (∀ out, _dense_negative_sampling sampler sampled = Ok out →
                length out = length sampled)
      ∧ ∀ p u i,
          zip (user_indices ds) (item_indices ds) !! p = Some (u, i) →
          sampled !! (p * Z.to_nat (2 + 1))%nat = Some i
          ∧ ∀ q, (1 ≤ q ≤ Z.to_nat 2)%nat →
                 ∃ y c,
                   sampled !! (p * Z.to_nat (2 + 1) + q)%nat = Some y
                   ∧ train_user_consumed ds !! u = Some c
                   ∧ 0 ≤ y < 3 ∧ y ∉ c.
Proof.
  apply (@sample_items_spec counter Z sampler 1).
  - simpl. lia.
  - reflexivity.
  - reflexivity.
  - intros u i Hin. simpl in Hin.
    apply elem_of_cons in Hin as [[= -> ->]|Hin].
    { exists {[ 2 ]}. split; [reflexivity|]. exists 0. split; [simpl; lia|].
      compute_done. }
    apply elem_of_cons in Hin as [[= -> ->]|Hin].
    { exists {[ 0; 1 ]}. split; [reflexivity|]. exists 2.
      split; [simpl; lia|]. compute_done. }
    by apply elem_of_nil in Hin.
Defined.

(** *** C7 *)


(** The row of the first negative of the first interaction: the columns
    of user 0 around the column of item 1. *)
Example reindex_first_negative :
  ∃ out,
    _sparse_negative_sampling sampler [2; 1; 0; 0; 2; 2] = Ok out
    ∧ [0; 2; 1]%nat ≡ₚ seq 0 (length [10; 51; 30])
    ∧ assembled_from 2 (sparse_indices ds) [0; 2]%nat [1%nat]
        [[50]; [51]; [52]] [2; 1; 0; 0; 2; 2] 1 [10; 51; 30]
    ∧ out !! 1%nat = Some [10; 51; 30].
Proof.
  eexists. split; [vm_compute; reflexivity|]. split; [compute_done|].
  split; [|reflexivity].
  exists [10; 52; 30], 1, [51]. repeat split; repeat constructor.
Qed.

(** *** C1 *)

Lemma call_shuffle_consistent_witness :
  let mask := reverse (seq 0 6) in
  let S' := [[11; 52; 31]; [11; 52; 31]; [11; 50; 31];
             [10; 50; 30]; [10; 51; 30]; [10; 52; 30]] in
  let d' := [[7; 200]; [7; 200]; [5; 200]; [5; 100]; [6; 100]; [7; 100]] in
  let L' := [0; 0; 1; 0; 0; 1] in
  mask ≡ₚ seq 0 6
  ∧ (∃ fuel r, callZ fuel sampler 0 true true = Ok r)
  ∧ ∃ items g' S Dv L,
      @sample_items counter Z 10 sampler 1 = Ok (items, g')
      ∧ @_label_negative_sampling Z Z 0 1 sampler = Ok L
      ∧ _sparse_negative_sampling sampler items = Ok S
      ∧ dense_of sampler true items Dv
      ∧ callZ 10 sampler 0 true false = Ok (S, Dv, L)
      ∧ length S' = 6%nat ∧ length L' = 6%nat
      ∧ (∀ d, Some d' = Some d → length d = 6%nat)
      ∧ ∀ k, (k < 6)%nat →
             ∃ j, mask !! k = Some j ∧ (j < 6)%nat
                  ∧ same_example S S' Dv (Some d') L L' j k.
Proof.
  destruct (@call_shuffle_consistent counter Z Z 0 1 sampler 0 true)
    as (Hperm & Hret & _ & Hcons).
  - simpl. lia.
  - reflexivity.
  - reflexivity.
  - split; [exact Hperm|]. split.
    + apply Hret. split; [simpl; lia|]. split; [reflexivity|].
      split; [reflexivity|]. split; [compute_done|]. split.
      { intros u i Hin. simpl in Hin.
        apply elem_of_cons in Hin as [[= -> ->]|Hin].
        { exists {[ 2 ]}. split; [reflexivity|]. exists 0.
          split; [simpl; lia|compute_done]. }
        apply elem_of_cons in Hin as [[= -> ->]|Hin].
        { exists {[ 0; 1 ]}. split; [reflexivity|]. exists 2.
          split; [simpl; lia|compute_done]. }
        by apply elem_of_nil in Hin. }
      split; [|intros _]; unfold path_ok; simpl; compute_done.
    + exact (Hcons 10%nat _ _ _ call_shuffled).
Defined.

End SamplerExamples.

Module BuilderExamples.
Import Np NpFacts FeatureBuilder FeatureBuilderNotions FeatureBuilderFacts.
Import TransformFacts FitSpec TransformSpec LayoutNotions BuilderFacts.
Import BuilderSpec Examples.

Lemma transform_of_training_data_witness :
  transformZ with_ids_fitted cats2 nums3 3 (Some [0; 1; 1]) (Some [2; 0; 1])
  = Ok (with_ids_fitted, (fi_ex, fv_ex)).
Proof.
  apply (transform_of_training_data (λ x : Z, x) 1 with_ids with_ids_fitted
           cats2 nums3 3 (Some [0; 1; 1]) (Some [2; 0; 1]) fi_ex fv_ex 13).
  - compute_done.
  - exact fit_with_ids.
Defined.

Lemma vocabulary_indices_distinct_witness :
  (∀ j j' kv kv' x x' idx,
     cats2 !! j = Some kv → cats2 !! j' = Some kv' →
     vocab_index st_ids kv.1 x = Some idx →
     vocab_index st_ids kv'.1 x' = Some idx →
     j = j' ∧ x = x')
  ∧ (∀ j kv x idx,
       cats2 !! j = Some kv → vocab_index st_ids kv.1 x = Some idx →
       Z.of_nat (length nums3) ≤ idx < total_count st_ids).
Proof.
  apply (vocabulary_indices_distinct (λ x : Z, x) 1 with_ids with_ids_fitted
           cats2 nums3 3 (Some [0; 1; 1]) (Some [2; 0; 1])
           (fi_ex, fv_ex, 13) st_ids).
  - compute_done.
  - exact fit_with_ids.
  - reflexivity.
Defined.

Lemma fit_train_size_unchecked_witness :
  ∃ self' fi fv fs,
    fitZ plain [("sex", [1; 0; 1])] [] 5 None None = Ok (self', (fi, fv, fs))
    ∧ length fi = 3%nat ∧ length fv = Z.to_nat 5.
Proof.
  apply (fit_train_size_unchecked (λ x : Z, x) 1 plain [("sex", [1; 0; 1])]
           5 3 None None).
  - reflexivity.
  - discriminate.
  - repeat constructor.
Defined.

Lemma transform_unfitted_witness :
  (([("sex", [1])] ≠ [] ∨ include_user_item plain = true) →
   transformZ plain [("sex", [1])] [("height", [170])] 1 None None
   = Raise AttributeError)
  ∧ ([("sex", [1])] = [] → include_user_item plain = false →
     Forall (λ kv : string * list Z, length kv.2 = Z.to_nat 1)
       [("height", [170])] →
     ∃ I V,
       transformZ plain [("sex", [1])] [("height", [170])] 1 None None
       = Ok (plain, (I, V))
       ∧ (∀ j r, (j < length [("height", [170])])%nat → (r < Z.to_nat 1)%nat →
            cell I r j = Some (astype_int32 (Z.of_nat j)))
       ∧ (∀ j k col r x,
            [("height", [170])] !! j = Some (k, col) → col !! r = Some x →
            cell V r j = Some x)).
Proof.
  apply (transform_unfitted (λ x : Z, x) 1 plain [("sex", [1])]
           [("height", [170])] 1 None None).
  reflexivity.
Defined.


Lemma fit_output_layout_witness :
  Forall (λ row, length row = width with_ids cats2 nums3) fi_ex
  ∧ Forall (λ row, length row = width with_ids cats2 nums3) fv_ex
  ∧ (∀ j r, (j < length nums3)%nat → (r < length fi_ex)%nat →
       cell fi_ex r j = Some (astype_int32 (Z.of_nat j)))
  ∧ (∀ j k col r x,
       nums3 !! j = Some (k, col) → col !! r = Some x →
       cell fv_ex r j = Some x)
  ∧ (∀ j r,
       (length nums3 ≤ j < width with_ids cats2 nums3)%nat →
       (r < length fv_ex)%nat →
       cell fv_ex r j = Some 1).
Proof.
  apply (fit_output_layout (λ x : Z, x) 1 with_ids with_ids_fitted cats2
           nums3 3 (Some [0; 1; 1]) (Some [2; 0; 1]) fi_ex fv_ex 13).
  exact fit_with_ids.
Defined.

Lemma transform_output_layout_witness :
  Forall (λ row, length row = width with_ids_fitted tcats_ex tnums_ex) I_ex
  ∧ Forall (λ row, length row = width with_ids_fitted tcats_ex tnums_ex) V_ex
  ∧ (∀ j k col r x,
       tnums_ex !! j = Some (k, col) → col !! r = Some x →
       cell V_ex r j = Some x)
  ∧ (∀ j r,
       (length tnums_ex ≤ j < width with_ids_fitted tcats_ex tnums_ex)%nat →
       (r < length V_ex)%nat →
       cell V_ex r j = Some 1).
Proof.
  apply (transform_output_layout (λ x : Z, x) 1 with_ids_fitted
           with_ids_touched st_ids tcats_ex tnums_ex 2
           (Some [1; 0]) (Some [0; 2]) I_ex V_ex).
  - reflexivity.
  - exact transform_with_ids.
Defined.

End BuilderExamples.

Module SamplingExamples.
Import Np NpFacts NegativeSamplingFeat SamplerNotions LabelSpec SampleSpec.
Import ReindexSpec CallSpec SamplingNotions SamplerFacts SamplerSpec.
Import SamplerExamples.

(** The dataset of the examples with a user who consumed every item. *)
Definition ds_saturated : dataset Z :=
  {| len := 2;
     user_indices := [0; 1];
     item_indices := [2; 0];
     train_user_consumed := {[ 0 := {[ 2 ]}; 1 := {[ 0; 1; 2 ]} ]};
     sparse_indices := [[10; 52; 30]; [11; 50; 31]];
     dense_values := [[7; 100]; [5; 200]] |}.

(** A dataset without interactions. *)
Definition ds_empty : dataset Z :=
  {| len := 0;
     user_indices := [];
     item_indices := [];
     train_user_consumed := ∅;
     sparse_indices := [];
     dense_values := [] |}.

Lemma sample_items_returns_iff_witness :
  (∃ fuel r, @sample_items counter Z fuel sampler 1 = Ok r)
  ↔ ∀ u i,
      (u, i) ∈ zip (user_indices ds) (item_indices ds) →
      ∃ c, train_user_consumed ds !! u = Some c ∧ unsaturated 3 c.
Proof.
  apply (@sample_items_returns_iff counter Z sampler 1). simpl. lia.
Defined.

Lemma sample_items_saturated_diverges_witness :
  @sample_items counter Z 5 (__init__ ds_saturated info 2 64) 0 = OutOfFuel.
Proof.
  apply (@sample_items_saturated_diverges counter Z
           (__init__ ds_saturated info 2 64) 0 5).
  - simpl. lia.
  - simpl. lia.
  - intros u i Hin. simpl in Hin.
    apply elem_of_cons in Hin as [[= -> ->]|Hin]; [by eexists|].
    apply elem_of_cons in Hin as [[= -> ->]|Hin]; [by eexists|].
    by apply elem_of_nil in Hin.
  - exists 1, 0, {[ 0; 1; 2 ]}. split; [compute_done|].
    split; [reflexivity|]. intros y Hy. simpl in Hy.
    assert (y = 0 ∨ y = 1 ∨ y = 2) as [->|[->| ->]] by lia; compute_done.
Defined.

Lemma sample_items_no_negatives_witness :
  @sample_items counter Z 0 (__init__ ds info 0 64) 7 = Ok ([2; 0], 7).
Proof.
  apply (@sample_items_no_negatives counter Z 0 (__init__ ds info 0 64) 7).
  simpl. lia.
Defined.

Lemma call_empty_dataset_witness :
  callZ 0 (__init__ ds_empty info 2 64) 0 true true = Raise IndexError.
Proof.
  apply (@call_empty_dataset counter Z Z 0 1 0 (__init__ ds_empty info 2 64)
           0 true true).
  - simpl. lia.
  - reflexivity.
  - reflexivity.
Defined.

Lemma call_shuffle_permutes_witness :
  zip [[11; 52; 31]; [11; 52; 31]; [11; 50; 31];
       [10; 50; 30]; [10; 51; 30]; [10; 52; 30]] [0; 0; 1; 0; 0; 1]
  ≡ₚ zip [[10; 52; 30]; [10; 51; 30]; [10; 50; 30];
          [11; 50; 31]; [11; 52; 31]; [11; 52; 31]] [1; 0; 0; 1; 0; 0]
  ∧ ∀ d d',
      Some [[7; 100]; [6; 100]; [5; 100]; [5; 200]; [7; 200]; [7; 200]]
      = Some d →
      Some [[7; 200]; [7; 200]; [5; 200]; [5; 100]; [6; 100]; [7; 100]]
      = Some d' →
      zip (zip [[11; 52; 31]; [11; 52; 31]; [11; 50; 31];
                [10; 50; 30]; [10; 51; 30]; [10; 52; 30]] d')
        [0; 0; 1; 0; 0; 1]
      ≡ₚ zip (zip [[10; 52; 30]; [10; 51; 30]; [10; 50; 30];
                   [11; 50; 31]; [11; 52; 31]; [11; 52; 31]] d)
           [1; 0; 0; 1; 0; 0].
Proof.
  apply (@call_shuffle_permutes counter Z Z 0 1 10 sampler 0 true).
  - simpl. lia.
  - reflexivity.
  - reflexivity.
  - exact call_unshuffled.
  - exact call_shuffled.
Defined.

End SamplingExamples.

Module BatchExamples.
Import Np NpFacts NextBatch BatchNotions BatchFacts BatchSpec.
Import NegativeSamplingFeat SamplerNotions.
Import SamplerExamples.

Definition bd : batch_data Z Z :=
  {| train_indices_implicit :=
       [[4; 10; 14]; [4; 10; 12]; [5; 11; 12]; [5; 11; 13]; [4; 10; 13]];
     train_values_implicit :=
       [[1; 1; 7]; [1; 1; 7]; [1; 1; 8]; [1; 1; 8]; [1; 1; 9]];
     train_labels_implicit := [1; 0; 1; 0; 1];
     train_feat_indices := [[4; 10; 14]; [5; 11; 12]; [4; 10; 13]];
     train_feat_values := [[1; 1; 7]; [1; 1; 8]; [1; 1; 9]];
     train_labels := [5; 3; 4];
     user_offset := 10;
     n_users := 2;
     NextBatch.n_items := 3;
     train_user := {[ 0 := {[ 1; 2 ]}; 1 := {[ 0 ]} ]};
     item_feature_cols := [0];
     item_numerical_cols := [2] |}.

Definition attrs (pre feat : bool) (k : Z) : batch_attrs Z :=
  {| pre_sampling := Some pre; i := Some k; item_feat := Some feat;
     neg_indices_dict := Some {[ 12 := [40]; 13 := [41]; 14 := [42] ]};
     neg_values_dict := Some {[ 12 := [70]; 13 := [71]; 14 := [72] ]} |}.

Definition next_batchZ := @next_batch counter Z Z Z 0.

(** Two samples with two negatives each, without item features. *)
Example next_batch_sampled :
  next_batchZ 10 (__init__ ds info 2 6) (attrs false false 0) bd 1
  = Outcome
      (Ok (attrs false false 1, bd, 10,
           ([[5; 11; 14]; [5; 11; 14]; [5; 11; 12];
             [4; 10; 12]; [4; 10; 12]; [4; 10; 14]],
            [[1; 1; 8]; [1; 1; 8]; [1; 1; 8];
             [1; 1; 7]; [1; 1; 7]; [1; 1; 7]],
            [0; 0; 3; 0; 0; 5]))).
Proof. vm_compute. reflexivity. Qed.

(** The same call with item features: the rows of the two samples in
    [train_feat_values] are overwritten. *)
Example next_batch_item_features :
  next_batchZ 10 (__init__ ds info 2 6) (attrs false true 0) bd 1
  = Outcome
      (Ok (attrs false true 1,
           set_train_feat_values bd [[1; 1; 70]; [1; 1; 72]; [1; 1; 9]], 10,
           ([[42; 11; 14]; [42; 11; 14]; [5; 11; 12];
             [40; 10; 12]; [40; 10; 12]; [4; 10; 14]],
            [[1; 1; 72]; [1; 1; 72]; [1; 1; 72];
             [1; 1; 70]; [1; 1; 70]; [1; 1; 70]],
            [0; 0; 3; 0; 0; 5]))).
Proof. vm_compute. reflexivity. Qed.

Lemma presampled_batches_witness :
  ∃ a' outs,
    @successive counter Z Z Z 0 4 0 (__init__ ds info 2 2)
      (attrs true false 0) bd 1 = Some (a', outs)
    ∧ i a' = Some 4
    ∧ outs = (λ k, (chunk 2 k (train_indices_implicit bd),
                    chunk 2 k (train_values_implicit bd),
                    chunk 2 k (train_labels_implicit bd))) <$> seq 0 4
    ∧ mjoin (outs.*1.*1) = take 8 (train_indices_implicit bd)
    ∧ mjoin (outs.*1.*2) = take 8 (train_values_implicit bd)
    ∧ mjoin (outs.*2) = take 8 (train_labels_implicit bd).
Proof.
  apply (@presampled_batches counter Z Z Z 0 4 0 (__init__ ds info 2 2)
           (attrs true false 0) bd 1); reflexivity.
Defined.

Lemma sampling_batch_assembled_witness :
  ∃ size k negs mask,
    int_truediv 6 (2 + 1) = Some size
    ∧ i (attrs false false 0) = Some k
    ∧ i (attrs false false 1) = Some (k + 1)
    ∧ let batch := batch_rows (train_feat_indices bd) k size 3 in
      assembled 0 2 batch negs
        (take (length batch) (batch_rows (train_feat_values bd) k size 3))
        (take (length batch) (batch_rows (train_labels bd) k size 3))
        mask
        [[5; 11; 14]; [5; 11; 14]; [5; 11; 12];
         [4; 10; 12]; [4; 10; 12]; [4; 10; 14]]
        [[1; 1; 8]; [1; 1; 8]; [1; 1; 8];
         [1; 1; 7]; [1; 1; 7]; [1; 1; 7]]
        [0; 0; 3; 0; 0; 5].
Proof.
  apply (@sampling_batch_assembled counter Z Z Z 0 10 (__init__ ds info 2 6)
           (attrs false false 0) (attrs false false 1) bd bd 1 10).
  - reflexivity.
  - exact next_batch_sampled.
Defined.

Lemma sampling_without_item_features_witness :
  bd = bd
  ∧ ∃ size k negs mask,
      int_truediv 6 (2 + 1) = Some size
      ∧ i (attrs false false 0) = Some k
      ∧ let batch := batch_rows (train_feat_indices bd) k size 3 in
        assembled 0 2 batch negs
          (take (length batch) (batch_rows (train_feat_values bd) k size 3))
          (take (length batch) (batch_rows (train_labels bd) k size 3))
          mask
          [[5; 11; 14]; [5; 11; 14]; [5; 11; 12];
           [4; 10; 12]; [4; 10; 12]; [4; 10; 14]]
          [[1; 1; 8]; [1; 1; 8]; [1; 1; 8];
           [1; 1; 7]; [1; 1; 7]; [1; 1; 7]]
          [0; 0; 3; 0; 0; 5]
        ∧ (1 ≤ 2 → Forall2 (negative_of bd) batch negs).
Proof.
  apply (@sampling_without_item_features counter Z Z Z 0 10
           (__init__ ds info 2 6) (attrs false false 0) (attrs false false 1)
           bd bd 1 10).
  - reflexivity.
  - reflexivity.
  - exact next_batch_sampled.
Defined.

Lemma sampling_writes_within_batch_witness :
  let bd' := set_train_feat_values bd [[1; 1; 70]; [1; 1; 72]; [1; 1; 9]] in
  ∃ size k,
    int_truediv 6 (2 + 1) = Some size
    ∧ i (attrs false true 0) = Some k
    ∧ bd' = set_train_feat_values bd (train_feat_values bd')
    ∧ length (train_feat_values bd') = length (train_feat_values bd)
    ∧ ∀ r,
        let start := slice_start (train_feat_values bd) (k * size) in
        let batch := batch_rows (train_feat_indices bd) k size 3 in
        (r < start ∨ start + length batch ≤ r)%nat →
        train_feat_values bd' !! r = train_feat_values bd !! r.
Proof.
  apply (@sampling_writes_within_batch counter Z Z Z 0 10
           (__init__ ds info 2 6) (attrs false true 0) (attrs false true 1)
           bd (set_train_feat_values bd [[1; 1; 70]; [1; 1; 72]; [1; 1; 9]])
           1 10
           ([[42; 11; 14]; [42; 11; 14]; [5; 11; 12];
             [40; 10; 12]; [40; 10; 12]; [4; 10; 14]],
            [[1; 1; 72]; [1; 1; 72]; [1; 1; 72];
             [1; 1; 70]; [1; 1; 70]; [1; 1; 70]],
            [0; 0; 3; 0; 0; 5])).
  - reflexivity.
  - exact next_batch_item_features.
Defined.

Lemma sampling_returns_iff_witness :
  (∃ fuel r,
     next_batchZ fuel (__init__ ds info 2 6) (attrs false false 0) bd 1
     = Outcome (Ok r))
  ↔ Forall (samplable bd 2) (batch_rows (train_feat_indices bd) 0 2 3).
Proof.
  apply (@sampling_returns_iff counter Z Z Z 0 (__init__ ds info 2 6)
           (attrs false false 0) bd 1 2 0); reflexivity.
Defined.


End BatchExamples.
